(** * roll-up: a shallow embedding of [bin/roll-up.js]

    The command-line tool reads [package.json], backs it up, merges default
    build fields into it, writes a handful of template files and a LICENSE,
    and finally runs a package manager.  This development embeds

    - the UTF-8 codec through which the manifest and the answer of git
      are read, and [String.prototype.trim];
    - the JavaScript values the manifest is made of, with the truthiness
      tests the merge relies on;
    - the argument parser [parseArgs];
    - the whole of [main] as a program in a small state-and-exception monad
      over the working directory and a trace of observable events.

    Everything the tool gets from its platform (the clock, the JSON codec,
    the results of child processes, I/O failures) is collected in the
    [Host] record, so that each run is a function of its host, its argument
    list and the initial directory content. *)

From Stdlib Require Import Floats.SpecFloat.
From stdpp Require Import base strings list gmap pretty.

Local Open Scope string_scope.
Local Open Scope Z_scope.

#[local] Set Warnings "-register-all".

(** ** Text helpers *)

(** The double-quote and the line-feed characters. *)
Definition dq : string := String (Ascii.ascii_of_nat 34) EmptyString.
Definition nl : string := String (Ascii.ascii_of_nat 10) EmptyString.

Definition quoted (s : string) : string := dq +:+ s +:+ dq.

(** [Array.prototype.join] on an array of strings. *)
Fixpoint join (sep : string) (l : list string) : string :=
  match l with
  | [] => EmptyString
  | [s] => s
  | s :: l' => s +:+ sep +:+ join sep l'
  end.

Definition lines (l : list string) : string :=
  fold_right (fun s acc => s +:+ nl +:+ acc) EmptyString l.

(** A JavaScript string is truthy when it is not empty. *)
Definition nonempty (s : string) : bool :=
  match s with
  | EmptyString => false
  | String _ _ => true
  end.

(** [String.prototype.toLowerCase], on the ASCII letters.  The only use of
    the result is a membership test against [npm], [pnpm] and [yarn]; no
    character outside ASCII lowers to one of their letters. *)
Definition lower_ascii (c : Ascii.ascii) : Ascii.ascii :=
  let n := Ascii.nat_of_ascii c in
  if ((65 <=? n)%nat && (n <=? 90)%nat)%bool then Ascii.ascii_of_nat (n + 32)%nat else c.

Fixpoint toLowerCase (s : string) : string :=
  match s with
  | EmptyString => EmptyString
  | String c s' => String (lower_ascii c) (toLowerCase s')
  end.

(** ** Text and bytes

    The program gets its strings from UTF-8 input (the arguments, a file
    read with the ['utf8'] encoding, the output of a child decoded as
    ['utf8']) and writes them out as UTF-8.  A string stands here for a
    text by the bytes of the UTF-8 encoding of its code points; the texts
    are well-formed Unicode. *)

Definition byte_of (c : Ascii.ascii) : Z := Z.of_N (Ascii.N_of_ascii c).
Definition char_of (b : Z) : Ascii.ascii := Ascii.ascii_of_N (Z.to_N b).

Fixpoint bytes_of_string (s : string) : list Z :=
  match s with
  | EmptyString => []
  | String c s' => byte_of c :: bytes_of_string s'
  end.

Fixpoint string_of_bytes (bs : list Z) : string :=
  match bs with
  | [] => EmptyString
  | b :: bs' => String (char_of b) (string_of_bytes bs')
  end.

(** The UTF-8 decoder of the platform: the code point under construction,
    the number of bytes still to come, and the range the next byte has to
    be in.  Every ill-formed sequence yields U+FFFD, and the byte that
    breaks a sequence is looked at again as the start of the next one. *)
Record utf8_decoder := mkDecoder {
  code_point : Z;
  bytes_needed : nat;
  lower_boundary : Z;
  upper_boundary : Z
}.

Definition decoder_start : utf8_decoder := mkDecoder 0 0 0x80 0xBF.

Definition replacement : Z := 0xFFFD.

(** A byte met when no sequence is open. *)
Definition utf8_lead (b : Z) : list Z * utf8_decoder :=
  if b <=? 0x7F then ([b], decoder_start)
  else if (0xC2 <=? b) && (b <=? 0xDF) then
    ([], mkDecoder (Z.land b 0x1F) 1 0x80 0xBF)
  else if (0xE0 <=? b) && (b <=? 0xEF) then
    ([], mkDecoder (Z.land b 0xF) 2
           (if b =? 0xE0 then 0xA0 else 0x80) (if b =? 0xED then 0x9F else 0xBF))
  else if (0xF0 <=? b) && (b <=? 0xF4) then
    ([], mkDecoder (Z.land b 0x7) 3
           (if b =? 0xF0 then 0x90 else 0x80) (if b =? 0xF4 then 0x8F else 0xBF))
  else ([replacement], decoder_start).

(** One byte: the code points it completes and the decoder after it. *)
Definition utf8_byte (d : utf8_decoder) (b : Z) : list Z * utf8_decoder :=
  match bytes_needed d with
  | O => utf8_lead b
  | S n =>
      if (lower_boundary d <=? b) && (b <=? upper_boundary d) then
        let cp := Z.lor (Z.shiftl (code_point d) 6) (Z.land b 0x3F) in
        match n with
        | O => ([cp], decoder_start)
        | S _ => ([], mkDecoder cp n 0x80 0xBF)
        end
      else
        let '(emitted, d') := utf8_lead b in (replacement :: emitted, d')
  end.

Fixpoint utf8_decode_from (d : utf8_decoder) (bs : list Z) : list Z :=
  match bs with
  | [] => match bytes_needed d with O => [] | S _ => [replacement] end
  | b :: bs' =>
      let '(emitted, d') := utf8_byte d b in
      (emitted ++ utf8_decode_from d' bs')%list
  end.

Definition utf8_decode (bs : list Z) : list Z := utf8_decode_from decoder_start bs.

(** The UTF-8 encoder; a surrogate on its own is written as U+FFFD. *)
Definition utf8_encode_one (c : Z) : list Z :=
  if c <=? 0x7F then [c]
  else if c <=? 0x7FF then
    [Z.lor 0xC0 (Z.shiftr c 6); Z.lor 0x80 (Z.land c 0x3F)]
  else if (0xD800 <=? c) && (c <=? 0xDFFF) then [0xEF; 0xBF; 0xBD]
  else if c <=? 0xFFFF then
    [Z.lor 0xE0 (Z.shiftr c 12); Z.lor 0x80 (Z.land (Z.shiftr c 6) 0x3F);
     Z.lor 0x80 (Z.land c 0x3F)]
  else
    [Z.lor 0xF0 (Z.shiftr c 18); Z.lor 0x80 (Z.land (Z.shiftr c 12) 0x3F);
     Z.lor 0x80 (Z.land (Z.shiftr c 6) 0x3F); Z.lor 0x80 (Z.land c 0x3F)].

Definition utf8_encode (cs : list Z) : list Z := concat (utf8_encode_one <$> cs).

(** Well-formed UTF-8 byte sequences (table 3-7 of the Unicode standard):
    no overlong form, no surrogate, nothing above U+10FFFF, no sequence
    cut short. *)
Definition continuation (b : Z) : bool := (0x80 <=? b) && (b <=? 0xBF).

Fixpoint well_formed_utf8 (bs : list Z) : bool :=
  match bs with
  | [] => true
  | b1 :: r1 =>
      if b1 <=? 0x7F then well_formed_utf8 r1
      else
        match r1 with
        | [] => false
        | b2 :: r2 =>
            if (0xC2 <=? b1) && (b1 <=? 0xDF) then
              continuation b2 && well_formed_utf8 r2
            else
              match r2 with
              | [] => false
              | b3 :: r3 =>
                  if (0xE0 <=? b1) && (b1 <=? 0xEF) then
                    ((if b1 =? 0xE0 then 0xA0 else 0x80) <=? b2)
                    && (b2 <=? (if b1 =? 0xED then 0x9F else 0xBF))
                    && continuation b3 && well_formed_utf8 r3
                  else
                    match r3 with
                    | [] => false
                    | b4 :: r4 =>
                        (0xF0 <=? b1) && (b1 <=? 0xF4)
                        && ((if b1 =? 0xF0 then 0x90 else 0x80) <=? b2)
                        && (b2 <=? (if b1 =? 0xF4 then 0x8F else 0xBF))
                        && continuation b3 && continuation b4
                        && well_formed_utf8 r4
                    end
              end
        end
  end.

(** The text that bytes are read as with the ['utf8'] encoding
    ([fs.readFile(p, 'utf8')], [execSync(cmd, { encoding: 'utf8' })]), as a
    string of this development: the bytes decoded and encoded again, which
    puts U+FFFD in the place of every ill-formed sequence. *)
Definition read_utf8 (bytes : string) : string :=
  string_of_bytes (utf8_encode (utf8_decode (bytes_of_string bytes))).

(** [String.prototype.trim]: the white space and the line terminators of
    ECMAScript (TAB, LF, VT, FF, CR, SPACE, NO-BREAK SPACE, the other space
    separators of Unicode, LS, PS and the byte order mark) are removed from
    both ends of the text. *)
Definition is_white_space (c : Z) : bool :=
  bool_decide (c ∈ [0x9; 0xA; 0xB; 0xC; 0xD; 0x20; 0xA0; 0x1680; 0x2028; 0x2029;
                    0x202F; 0x205F; 0x3000; 0xFEFF])
  || ((0x2000 <=? c) && (c <=? 0x200A)).

Fixpoint trim_start (cs : list Z) : list Z :=
  match cs with
  | [] => []
  | c :: cs' => if is_white_space c then trim_start cs' else cs
  end.

Definition trim_end (cs : list Z) : list Z := reverse (trim_start (reverse cs)).

Definition trim (s : string) : string :=
  string_of_bytes (utf8_encode (trim_end (trim_start (utf8_decode (bytes_of_string s))))).

(** [path.join(dir, name)] for an absolute, normalised POSIX [dir] and a
    relative [name]. *)
Definition path_join (dir name : string) : string :=
  if decide (dir = "/") then "/" +:+ name else dir +:+ "/" +:+ name.

(** ** JavaScript values

    What [JSON.parse] returns, plus [undefined], which is what reading a
    missing property yields.  Numbers are IEEE doubles.  An array carries,
    besides its elements, the named properties an assignment such as
    [arr['build'] = v] creates on it; an object is its own properties in
    property order. *)
Inductive value : Type :=
  | VUndefined
  | VNull
  | VBool (b : bool)
  | VNum (x : spec_float)
  | VStr (s : string)
  | VArr (elems : list value) (named : list (string * value))
  | VObj (props : list (string * value)).

(** ToBoolean. *)
Definition truthy (v : value) : bool :=
  match v with
  | VUndefined | VNull => false
  | VBool b => b
  | VNum (S754_zero _) | VNum S754_nan => false
  | VNum _ => true
  | VStr s => nonempty s
  | VArr _ _ | VObj _ => true
  end.

Inductive io_op := OpRead | OpWrite | OpMkdir.

(** Exceptions.  [Error] is the one the program builds itself, with its
    message; the others are raised by the engine or by the [fs] module. *)
Inductive error :=
  | TypeError
  | SyntaxError
  | IOError (op : io_op) (path : string)
  | Error (message : string).

Inductive result (A : Type) :=
  | Ok (a : A)
  | Throw (e : error).
Arguments Ok {A} a.
Arguments Throw {A} e.

Global Instance result_ret : MRet result := fun A a => Ok a.
Global Instance result_bind : MBind result := fun A B f m =>
  match m with
  | Ok a => f a
  | Throw e => Throw e
  end.

(** Own properties of a property list: [own_get] is the value read (the
    first binding; [undefined] when there is none), [own_set] the list after
    an assignment (the binding is replaced where it stands, a new name goes
    last). *)
Fixpoint own_has (k : string) (ps : list (string * value)) : bool :=
  match ps with
  | [] => false
  | (k', _) :: ps' => if decide (k = k') then true else own_has k ps'
  end.

Fixpoint own_get (k : string) (ps : list (string * value)) : value :=
  match ps with
  | [] => VUndefined
  | (k', v) :: ps' => if decide (k = k') then v else own_get k ps'
  end.

Fixpoint own_set (k : string) (v : value) (ps : list (string * value))
  : list (string * value) :=
  match ps with
  | [] => [(k, v)]
  | (k', v') :: ps' =>
      if decide (k = k') then (k', v) :: ps' else (k', v') :: own_set k v ps'
  end.

(** [o[k]] and [o[k] = v], for a key [k] that is neither an array index nor
    [length] nor a name found on the built-in prototypes: every key the
    program uses is of that kind.  Reading from [undefined] or [null]
    throws; a primitive has no such property, and an assignment to one is
    dropped (the script is not in strict mode).  [set_prop] returns the
    object as it is after the assignment. *)
Definition get_prop (o : value) (k : string) : result value :=
  match o with
  | VUndefined | VNull => Throw TypeError
  | VObj ps => Ok (own_get k ps)
  | VArr _ ps => Ok (own_get k ps)
  | VBool _ | VNum _ | VStr _ => Ok VUndefined
  end.

Definition set_prop (o : value) (k : string) (v : value) : result value :=
  match o with
  | VUndefined | VNull => Throw TypeError
  | VObj ps => Ok (VObj (own_set k v ps))
  | VArr es ps => Ok (VArr es (own_set k v ps))
  | VBool _ | VNum _ | VStr _ => Ok o
  end.

Fixpoint foldM {A B : Type} (f : A → B → result A) (l : list B) (a : A)
  : result A :=
  match l with
  | [] => Ok a
  | b :: l' => a' ← f a b; foldM f l' a'
  end.

(** ToString, as a template literal applies it.  Number formatting is the
    host's.  An object is turned into text by the inherited [toString]
    unless it has an own property of that name, which, coming from JSON, is
    not callable: the conversion then throws. *)
Fixpoint ToString (num : spec_float → string) (v : value) : result string :=
  match v with
  | VUndefined => Ok "undefined"
  | VNull => Ok "null"
  | VBool true => Ok "true"
  | VBool false => Ok "false"
  | VNum x => Ok (num x)
  | VStr s => Ok s
  | VArr es named =>
      if own_has "toString" named then Throw TypeError
      else if own_has "join" named then Ok "[object Array]"
      else
        parts ← (fix each (es : list value) : result (list string) :=
                   match es with
                   | [] => Ok []
                   | e :: es' =>
                       s ← match e with
                           | VUndefined | VNull => Ok EmptyString
                           | _ => ToString num e
                           end;
                       r ← each es';
                       Ok (s :: r)
                   end) es;
        Ok (join "," parts)
  | VObj ps =>
      if own_has "toString" ps then Throw TypeError else Ok "[object Object]"
  end.

(** ** The manifest merge (lines 196-230 of [main]) *)

Definition default_scripts : list (string * value) :=
  [ ("build:js", VStr "rollup -c");
    ("build:types", VStr "tsc -p tsconfig.types.json");
    ("build", VStr "npm run build:js && npm run build:types");
    ("prepublishOnly", VStr "npm run build") ].

Definition defaults : value :=
  VObj
    [ ("type", VStr "module");
      ("main", VStr "dist/cjs/index.cjs");
      ("module", VStr "dist/esm/index.js");
      ("exports",
        VObj [ (".", VObj [ ("import", VStr "./dist/esm/index.js");
                            ("require", VStr "./dist/cjs/index.cjs");
                            ("types", VStr "./dist/types/index.d.ts") ]) ]);
      ("types", VStr "dist/types/index.d.ts");
      ("files", VArr [VStr "dist/"] []);
      ("scripts", VObj default_scripts) ].

Definition simple_keys : list string := ["type"; "main"; "module"; "types"; "files"].

(** [if (!pkg[key]) pkg[key] = defaults[key];] *)
Definition merge_key (pkg : value) (key : string) : result value :=
  cur ← get_prop pkg key;
  if truthy cur then Ok pkg
  else d ← get_prop defaults key; set_prop pkg key d.

(** [if (!pkg.scripts[k]) pkg.scripts[k] = v;]  The assignment mutates the
    object [pkg.scripts] refers to; writing the mutated object back under
    [scripts] is how the embedding keeps [pkg] and that object in step. *)
Definition merge_script (pkg : value) (kv : string * value) : result value :=
  scripts ← get_prop pkg "scripts";
  cur ← get_prop scripts kv.1;
  if truthy cur then Ok pkg
  else scripts' ← set_prop scripts kv.1 kv.2; set_prop pkg "scripts" scripts'.

Definition merge (pkg : value) : result value :=
  pkg ← foldM merge_key simple_keys pkg;
  pkg ← merge_key pkg "exports";
  scripts ← get_prop pkg "scripts";
  pkg ← set_prop pkg "scripts" (if truthy scripts then scripts else VObj []);
  foldM merge_script default_scripts pkg.

(** ** The argument parser *)

(** The configuration record built by [parseArgs]; [name] is [None] where
    the source has [null]. *)
Record Opts := mkOpts {
  noInstall : bool;
  force : bool;
  name : option string;
  pkg : string
}.

Definition set_noInstall (o : Opts) : Opts :=
  mkOpts true (force o) (name o) (pkg o).
Definition set_force (o : Opts) : Opts :=
  mkOpts (noInstall o) true (name o) (pkg o).
Definition set_name (v : string) (o : Opts) : Opts :=
  mkOpts (noInstall o) (force o) (Some v) (pkg o).
Definition set_pkg (v : string) (o : Opts) : Opts :=
  mkOpts (noInstall o) (force o) (name o) v.

(** What a run lets the outside world see, in order. *)
Inductive event :=
  | Log (line : string)                     (* console.log *)
  | Err (line : string)                     (* console.error *)
  | Mkdir (path : string)                   (* fs.mkdir, done *)
  | Wrote (path content : string)           (* fs.writeFile, done *)
  | Spawn (cmd : string) (args : list string) (* child_process.spawn *)
  | ExecSync (cmd : string).                (* child_process.execSync *)

Definition usage_text : string :=
  Eval vm_compute in ("
Usage:
  roll-up --pkg <npm|pnpm|yarn> [options]

Options:
  -h, --help           Help
  -p, --pkg <manager>  Package manager to use for installing devDependencies. one of: npm, pnpm, yarn
  --no-install         Do not install devDependencies
  --force              Overwrite existing generated files
  --name " +:+ dq +:+ "Your Name" +:+ dq +:+ "   Author name used in LICENSE (falls back to package.json.author or git config)

Examples:
  roll-up --pkg pnpm
  roll-up --pkg yarn --force --name " +:+ dq +:+ "Jane" +:+ dq +:+ "
  roll-up --no-install
").

Definition managers : list string := ["npm"; "pnpm"; "yarn"].

Definition initial_opts : Opts := mkOpts false false None "npm".

(** The loop of [parseArgs] from index [i] on, [raw] being what is left of
    the argument list there.  It returns what was printed and either the
    record or the code [process.exit] was called with.  [raw[i+1]] is tested
    for truthiness: a missing and an empty next argument are the same. *)
Fixpoint parse_loop (raw : list string) (out : Opts) : list event * (Opts + Z) :=
  match raw with
  | [] => ([], inl out)
  | a :: rest =>
      if bool_decide (a = "-h" ∨ a = "--help") then
        ([Log usage_text], inr 0)
      else if bool_decide (a = "--no-install") then
        parse_loop rest (set_noInstall out)
      else if bool_decide (a = "--force") then
        parse_loop rest (set_force out)
      else if bool_decide (a = "--name") then
        match rest with
        | v :: rest' =>
            if nonempty v then parse_loop rest' (set_name v out)
            else parse_loop rest out
        | [] => parse_loop rest out
        end
      else if bool_decide (a = "--pkg" ∨ a = "-p") then
        match rest with
        | v :: rest' =>
            if nonempty v then
              let val := toLowerCase v in
              if bool_decide (val ∈ managers) then parse_loop rest' (set_pkg val out)
              else ([Err ("Unsupported package manager: " +:+ v); Log usage_text], inr 1)
            else
              ([Err "--pkg requires a value (npm, pnpm, yarn)"; Log usage_text], inr 1)
        | [] =>
            ([Err "--pkg requires a value (npm, pnpm, yarn)"; Log usage_text], inr 1)
        end
      else parse_loop rest out
  end.

(** [parseArgs], on [process.argv.slice(2)]. *)
Definition parseArgs (raw : list string) : list event * (Opts + Z) :=
  match raw with
  | [] => ([Log usage_text], inr 0)
  | _ => parse_loop raw initial_opts
  end.

(** ** The host and the process monad *)

(** Everything a run takes from its platform.  Paths are relative to the
    working directory, where all the files of a run live; [cwd] only shows
    in messages.  [io_fault op p] tells that the [fs] operation [op] on
    path [p] fails.  [installer_close cmd args] is the code the child
    started by [runCmd] is closed with ([None] for [null], when a signal
    killed it); [git_user_name] is what [git config --get user.name] prints
    (the bytes of its standard output), [None] when [execSync] throws. *)
Record Host := mkHost {
  cwd : string;
  now : Z;
  year : Z;
  io_fault : io_op → string → bool;
  JSON_parse : string → option value;
  JSON_stringify : value → string;
  Number_toString : spec_float → string;
  git_user_name : option string;
  installer_close : string → list string → option Z
}.

(** The files of the working directory, each with the text it reads as,
    and the events so far. *)
Record State := mkState {
  fs : gmap string string;
  out : list event
}.

(** How a computation stops short: [process.exit], or an exception on its
    way up.  An exception that leaves [main] is an unhandled rejection. *)
Inductive halt :=
  | Exit (code : Z)
  | Uncaught (e : error).

Definition M (A : Type) : Type := State → (A + halt) * State.

Global Instance M_ret : MRet M := fun A a s => (inl a, s).
Global Instance M_bind : MBind M := fun A B f m s =>
  match m s with
  | (inl a, s') => f a s'
  | (inr h, s') => (inr h, s')
  end.

Definition throw {A} (e : error) : M A := fun s => (inr (Uncaught e), s).
Definition process_exit {A} (code : Z) : M A := fun s => (inr (Exit code), s).

(** [try { m } catch (err) { handler err }] *)
Definition try_catch {A} (m : M A) (handler : error → M A) : M A := fun s =>
  match m s with
  | (inr (Uncaught e), s') => handler e s'
  | r => r
  end.

Definition lift {A} (r : result A) : M A :=
  match r with
  | Ok a => mret a
  | Throw e => throw e
  end.

Definition emit (e : event) : M unit := fun s =>
  (inl tt, mkState (fs s) (out s ++ [e])).

Definition console_log (line : string) : M unit := emit (Log line).
Definition console_error (line : string) : M unit := emit (Err line).

Definition existsSync (p : string) : M bool := fun s =>
  (inl (bool_decide (is_Some (fs s !! p))), s).

Definition readFile (h : Host) (p : string) : M string := fun s =>
  if io_fault h OpRead p then (inr (Uncaught (IOError OpRead p)), s)
  else match fs s !! p with
       | Some c => (inl c, s)
       | None => (inr (Uncaught (IOError OpRead p)), s)
       end.

Definition writeFile (h : Host) (p content : string) : M unit := fun s =>
  if io_fault h OpWrite p then (inr (Uncaught (IOError OpWrite p)), s)
  else (inl tt, mkState (<[p := content]> (fs s)) (out s ++ [Wrote p content])).

Definition mkdir (h : Host) (p : string) : M unit := fun s =>
  if io_fault h OpMkdir p then (inr (Uncaught (IOError OpMkdir p)), s)
  else (inl tt, mkState (fs s) (out s ++ [Mkdir p])).

Fixpoint for_each {A B} (f : A → M B) (l : list A) : M unit :=
  match l with
  | [] => mret tt
  | a :: l' => f a;; for_each f l'
  end.

(** The text of an exception's [message]; the ones the engine words are
    stood for by the name of their kind. *)
Definition message (e : error) : string :=
  match e with
  | Error m => m
  | TypeError => "TypeError"
  | SyntaxError => "SyntaxError"
  | IOError _ p => "I/O error: " +:+ p
  end.

(** ** Fixed data *)

Definition devDeps : list string :=
  [ "@rollup/plugin-commonjs@^29.0.0";
    "@rollup/plugin-node-resolve@^16.0.3";
    "rollup@^2.79.2";
    "rollup-plugin-terser@^7.0.2";
    "typescript@^5.9.3";
    "@types/node@^24.10.1" ].

Definition rollup_config_js : string :=
  Eval vm_compute in ("import resolve from '@rollup/plugin-node-resolve';
import commonjs from '@rollup/plugin-commonjs';
import { terser } from 'rollup-plugin-terser';

export default {
  input: 'src/index.js',
  plugins: [ resolve(), commonjs(), terser() ],
  external: [], // list external packages here (keep peer deps external)
  output: [
    {
      file: 'dist/esm/index.js',
      format: 'esm',
      sourcemap: true
    },
    {
      file: 'dist/cjs/index.cjs',
      format: 'cjs',
      sourcemap: true
    }
  ]
};
").

Definition tsconfig_types_json : string :=
  Eval vm_compute in ("{
  " +:+ dq +:+ "compilerOptions" +:+ dq +:+ ": {
    " +:+ dq +:+ "declaration" +:+ dq +:+ ": true,
    " +:+ dq +:+ "emitDeclarationOnly" +:+ dq +:+ ": true,
    " +:+ dq +:+ "allowJs" +:+ dq +:+ ": true,
    " +:+ dq +:+ "outDir" +:+ dq +:+ ": " +:+ dq +:+ "dist/types" +:+ dq +:+ ",
    " +:+ dq +:+ "rootDir" +:+ dq +:+ ": " +:+ dq +:+ "src" +:+ dq +:+ ",
    " +:+ dq +:+ "declarationMap" +:+ dq +:+ ": false,
    " +:+ dq +:+ "moduleResolution" +:+ dq +:+ ": " +:+ dq +:+ "node" +:+ dq +:+ ",
    " +:+ dq +:+ "target" +:+ dq +:+ ": " +:+ dq +:+ "ES2019" +:+ dq +:+ ",
    " +:+ dq +:+ "module" +:+ dq +:+ ": " +:+ dq +:+ "ESNext" +:+ dq +:+ ",
    " +:+ dq +:+ "strict" +:+ dq +:+ ": false,
    " +:+ dq +:+ "esModuleInterop" +:+ dq +:+ ": true,
    " +:+ dq +:+ "skipLibCheck" +:+ dq +:+ ": true
  },
  " +:+ dq +:+ "include" +:+ dq +:+ ": [" +:+ dq +:+ "src/**/*.js" +:+ dq +:+ "]
}
").

Definition gitignore : string :=
  Eval vm_compute in ("# ignore everything by default
*

# allow package metadata files
!package.json
!package-lock.json
!README.md
!LICENSE
!CHANGELOG.md

").

Definition npmignore : string :=
  Eval vm_compute in ("# the same as .gitignore for this setup:
*
!dist/
!dist/**
!package.json
!README.md
!LICENSE
!CHANGELOG.md
!dist/**/*.d.ts
").

Definition readme_md : string :=
  Eval vm_compute in ("# Project

This repository was prepared by the `roll-up package` script. Edit this README to explain your project.
").

Definition DEFAULT_FILES : list (string * string) :=
  [ ("rollup.config.js", rollup_config_js);
    ("tsconfig.types.json", tsconfig_types_json);
    (".gitignore", gitignore);
    (".npmignore", npmignore);
    ("README.md", readme_md) ].

Definition stub : string :=
  Eval vm_compute in ("// src/index.js
/**
 * @returns {string}
 */
export function hello() {
  return 'hello';
}

").

Definition license_head : string :=
  Eval vm_compute in ("MIT License

Copyright (c) ").

Definition license_tail : string :=
  Eval vm_compute in ("

Permission is hereby granted, free of charge, to any person obtaining a copy
of this software and associated documentation files (the " +:+ dq +:+ "Software" +:+ dq +:+ "), to deal
in the Software without restriction, including without limitation the rights
to use, copy, modify, merge, publish, distribute, sublicense, and/or sell
copies of the Software, and to permit persons to whom the Software is
furnished to do so, subject to the following conditions:

The above copyright notice and this permission notice shall be included in all
copies or substantial portions of the Software.

THE SOFTWARE IS PROVIDED " +:+ dq +:+ "AS IS" +:+ dq +:+ ", WITHOUT WARRANTY OF ANY KIND, EXPRESS OR
IMPLIED, INCLUDING BUT NOT LIMITED TO THE WARRANTIES OF MERCHANTABILITY,
FITNESS FOR A PARTICULAR PURPOSE AND NONINFRINGEMENT. IN NO EVENT SHALL THE
AUTHORS OR COPYRIGHT HOLDERS BE LIABLE FOR ANY CLAIM, DAMAGES OR OTHER
LIABILITY, WHETHER IN AN ACTION OF CONTRACT, TORT OR OTHERWISE, ARISING FROM,
OUT OF OR IN CONNECTION WITH THE SOFTWARE OR THE USE OR OTHER DEALINGS IN THE
SOFTWARE.
").

(** ** [runCmd], [safeWrite] and [main] *)

Definition show_code (code : option Z) : string :=
  match code with
  | Some n => pretty n
  | None => "null"
  end.

(** [runCmd]: the promise resolves when the child closes with code 0 and
    rejects with [cmd + ' exited ' + code] otherwise. *)
Definition runCmd (h : Host) (cmd : string) (args : list string) : M unit :=
  emit (Spawn cmd args);;
  match installer_close h cmd args with
  | Some 0 => mret tt
  | code => throw (Error (cmd +:+ " exited " +:+ show_code code))
  end.

(** [safeWrite(path.join(cwd, fname), content, force)].  A failure of the
    [mkdir] of the parent directory is swallowed. *)
Definition safeWrite (h : Host) (fname content : string) (force : bool) : M bool :=
  let filePath := path_join (cwd h) fname in
  exists_ ← existsSync fname;
  if (exists_ && negb force)%bool then
    console_log ("Skipping " +:+ filePath +:+ " (exists). Use --force to overwrite.");;
    mret false
  else
    try_catch (mkdir h ".") (fun _ => mret tt);;
    writeFile h fname content;;
    console_log ("Wrote " +:+ filePath);;
    mret true.

Definition pkgPath : string := "package.json".

Definition bakPath (h : Host) : string :=
  "package.json.setup-backup." +:+ pretty (now h) +:+ ".json".

Definition no_manifest_message : string :=
  Eval vm_compute in
    ("No package.json found in this directory. Run " +:+ quoted "npm init"
     +:+ " first or run this in a project root.").

(** Lines 181-234: the manifest is checked for, read, parsed, backed up,
    merged and written back.  The merged object is returned. *)
Definition main_manifest (h : Host) : M value :=
  present ← existsSync pkgPath;
  if negb present then
    console_error no_manifest_message;;
    process_exit 1
  else
    pkgRaw ← readFile h pkgPath;
    manifest ← match JSON_parse h pkgRaw with
               | Some v => mret v
               | None => throw SyntaxError
               end;
    writeFile h (bakPath h) pkgRaw;;
    console_log ("Backed up package.json -> " +:+ bakPath h);;
    manifest ← lift (merge manifest);
    writeFile h pkgPath (JSON_stringify h manifest +:+ nl);;
    console_log "Updated package.json (merged fields).";;
    mret manifest.

(** Lines 236-253: the stub source file. *)
Definition main_stub (h : Host) (opts : Opts) : M unit :=
  present ← existsSync "src/index.js";
  if (negb present || force opts)%bool then
    mkdir h "src";;
    writeFile h "src/index.js" stub;;
    console_log "Wrote src/index.js (stub)."
  else
    console_log "Skipping src/index.js (exists).".

(** Lines 255-259: the auxiliary files, in the order of [DEFAULT_FILES]. *)
Definition main_templates (h : Host) (opts : Opts) : M unit :=
  for_each (fun entry => safeWrite h entry.1 entry.2 (force opts)) DEFAULT_FILES.

(** Lines 265-273: [opts.name || pkg.author || (await (async () => ...)())].
    The query of git is only run when the first two are falsy. *)
Definition git_answer (h : Host) : value :=
  match git_user_name h with
  | Some stdout =>
      let n := trim stdout in
      if nonempty n then VStr n else VStr "Your Name"
  | None => VStr "Your Name"
  end.

Definition git_config_name (h : Host) : M value :=
  emit (ExecSync "git config --get user.name");;
  mret (git_answer h).

Definition author_name (h : Host) (opts : Opts) (manifest : value) : M value :=
  let flag := match name opts with
              | Some n => VStr n
              | None => VNull
              end in
  if truthy flag then mret flag
  else
    author ← lift (get_prop manifest "author");
    if truthy author then mret author else git_config_name h.

Definition licenseText (h : Host) (year : Z) (name : value) : result string :=
  who ← ToString (Number_toString h) name;
  Ok (license_head +:+ pretty year +:+ " " +:+ who +:+ license_tail).

(** Lines 261-300: the LICENSE file. *)
Definition main_license (h : Host) (opts : Opts) (manifest : value) : M unit :=
  present ← existsSync "LICENSE";
  if (negb present || force opts)%bool then
    name ← author_name h opts manifest;
    text ← lift (licenseText h (year h) name);
    writeFile h "LICENSE" text;;
    console_log "Wrote LICENSE"
  else
    console_log "Skipping LICENSE (exists).".

(** Lines 302-334: the installation of the development dependencies. *)
Definition main_install (h : Host) (opts : Opts) : M unit :=
  if noInstall opts then
    console_log "Skipping install ( --no-install )";;
    console_log "Done. Review and commit the changes if OK.";;
    process_exit 0
  else
    console_log ("Installing devDependencies: " +:+ join " " devDeps);;
    try_catch
      ((if bool_decide (pkg opts = "npm") then
          runCmd h "npm" ("install" :: "--save-dev" :: devDeps)
        else if bool_decide (pkg opts = "pnpm") then
          runCmd h "pnpm" ("add" :: "-D" :: devDeps)
        else if bool_decide (pkg opts = "yarn") then
          runCmd h "yarn" ("add" :: "--dev" :: devDeps)
        else
          throw (Error ("Unsupported package manager: " +:+ pkg opts)));;
       console_log "Installed devDependencies.";;
       console_log "All done. Run `npm run build` to verify the build works.")
      (fun err =>
         console_error (pkg opts +:+ " install failed: " +:+ message err);;
         (if bool_decide (pkg opts = "npm") then
            console_error ("You may retry manually: npm install --save-dev " +:+ join " " devDeps)
          else if bool_decide (pkg opts = "pnpm") then
            console_error ("You may retry manually: pnpm add -D " +:+ join " " devDeps)
          else if bool_decide (pkg opts = "yarn") then
            console_error ("You may retry manually: yarn add --dev " +:+ join " " devDeps)
          else mret tt);;
         process_exit 2).

(** [parseArgs] as the first step of [main]: its output goes to the
    console, and an exit code ends the run. *)
Definition main_args (raw : list string) : M Opts := fun s =>
  let '(printed, r) := parseArgs raw in
  let s' := mkState (fs s) (out s ++ printed) in
  match r with
  | inl opts => (inl opts, s')
  | inr code => (inr (Exit code), s')
  end.

Definition main (h : Host) (raw : list string) : M unit :=
  opts ← main_args raw;
  manifest ← main_manifest h;
  main_stub h opts;;
  main_templates h opts;;
  main_license h opts manifest;;
  main_install h opts.

(** A run from the directory content [files]: how it ended ([inl tt] when
    [main] ran to its end, the process then exiting with code 0) and the
    final state. *)
Definition run (h : Host) (raw : list string) (files : gmap string string)
  : (unit + halt) * State :=
  main h raw (mkState files []).

Definition outcome (r : (unit + halt) * State) : unit + halt := r.1.
Definition events (r : (unit + halt) * State) : list event := out r.2.
Definition final_fs (r : (unit + halt) * State) : gmap string string := fs r.2.

(** ** Closed forms used to state and prove the properties *)

(** One guarded assignment [if (!o[k]) o[k] = d] on a property list, and a
    run of them. *)
Definition fill (k : string) (d : value) (ps : list (string * value))
  : list (string * value) :=
  if truthy (own_get k ps) then ps else own_set k d ps.

Definition fills (l : list (string * value)) (ps : list (string * value))
  : list (string * value) :=
  fold_left (fun ps kv => fill kv.1 kv.2 ps) l ps.

(** The default a key gets, and the guarded assignments of the two loops
    over top-level keys together with the one on [exports]. *)
Definition default_of (key : string) : value :=
  match defaults with
  | VObj ps => own_get key ps
  | _ => VUndefined
  end.

Definition top_defaults : list (string * value) :=
  map (fun key => (key, default_of key)) (simple_keys ++ ["exports"]).

(** The guarded assignment [if (!s[k]) s[k] = v] on whatever truthy value
    [pkg.scripts] holds. *)
Definition fill_script (s : value) (kv : string * value) : value :=
  match s with
  | VObj qs => VObj (fill kv.1 kv.2 qs)
  | VArr es qs => VArr es (fill kv.1 kv.2 qs)
  | _ => s
  end.

Definition merged_scripts (s : value) : value :=
  fold_left fill_script default_scripts (if truthy s then s else VObj []).

(** The properties of a manifest object after [merge]. *)
Definition merged_props (ps : list (string * value)) : list (string * value) :=
  let ps1 := fills top_defaults ps in
  own_set "scripts" (merged_scripts (own_get "scripts" ps1)) ps1.

(** Objects and arrays hold properties; [with_props] is the same object
    or array with other properties. *)
Definition is_container (v : value) : bool :=
  match v with
  | VObj _ | VArr _ _ => true
  | _ => false
  end.

Definition props_of (v : value) : list (string * value) :=
  match v with
  | VObj ps | VArr _ ps => ps
  | _ => []
  end.

Definition with_props (v : value) (ps : list (string * value)) : value :=
  match v with
  | VObj _ => VObj ps
  | VArr es _ => VArr es ps
  | _ => v
  end.

(** ** Vocabulary for the properties of a run *)

Definition add_events (s : State) (l : list event) : State :=
  mkState (fs s) (out s ++ l).

(** Console output. *)
Definition is_console (e : event) : Prop :=
  match e with
  | Log _ | Err _ => True
  | _ => False
  end.

(** A child process is started. *)
Definition is_subprocess (e : event) : Prop :=
  match e with
  | Spawn _ _ | ExecSync _ => True
  | _ => False
  end.

(** The state after a successful [fs.writeFile]. *)
Definition written (p content : string) (s : State) : State :=
  mkState (<[p := content]> (fs s)) (out s ++ [Wrote p content]).

(** The events a template file may cause: console lines, the [mkdir] of
    the parent directory, and the write of a file of [l] with its content. *)
Definition template_event (l : list (string * string)) (e : event) : Prop :=
  match e with
  | Log _ | Mkdir _ => True
  | Wrote p content => (p, content) ∈ l
  | _ => False
  end.

Definition skip_line (h : Host) (fname : string) : event :=
  Log ("Skipping " +:+ path_join (cwd h) fname +:+ " (exists). Use --force to overwrite.").

(** ** The ways each stage of [main] can go, with the state it leaves *)

Section stage_results.
Context (h : Host).

(** Every way the manifest stage can go, with the state it leaves. *)
Inductive manifest_result (s : State) : (value + halt) * State → Prop :=
  | manifest_missing :
      fs s !! pkgPath = None →
      manifest_result s (inr (Exit 1), add_events s [Err no_manifest_message])
  | manifest_untouched pkgRaw err :
      fs s !! pkgPath = Some pkgRaw →
      io_fault h OpRead pkgPath = true ∨ JSON_parse h pkgRaw = None
      ∨ io_fault h OpWrite (bakPath h) = true →
      manifest_result s (inr (Uncaught err), s)
  | manifest_backed_up pkgRaw v err :
      fs s !! pkgPath = Some pkgRaw →
      io_fault h OpRead pkgPath = false →
      JSON_parse h pkgRaw = Some v →
      io_fault h OpWrite (bakPath h) = false →
      merge v = Throw err ∨ io_fault h OpWrite pkgPath = true →
      manifest_result s
        (inr (Uncaught err),
         add_events (written (bakPath h) pkgRaw s)
           [Log ("Backed up package.json -> " +:+ bakPath h)])
  | manifest_merged pkgRaw v manifest :
      fs s !! pkgPath = Some pkgRaw →
      io_fault h OpRead pkgPath = false →
      JSON_parse h pkgRaw = Some v →
      io_fault h OpWrite (bakPath h) = false →
      merge v = Ok manifest →
      io_fault h OpWrite pkgPath = false →
      manifest_result s
        (inl manifest,
         add_events
           (written pkgPath (JSON_stringify h manifest +:+ nl)
              (add_events (written (bakPath h) pkgRaw s)
                 [Log ("Backed up package.json -> " +:+ bakPath h)]))
           [Log "Updated package.json (merged fields)."]).

Inductive stub_result (opts : Opts) (s : State) : (unit + halt) * State → Prop :=
  | stub_skipped :
      is_Some (fs s !! "src/index.js") → force opts = false →
      stub_result opts s (inl tt, add_events s [Log "Skipping src/index.js (exists)."])
  | stub_mkdir_failed err :
      fs s !! "src/index.js" = None ∨ force opts = true →
      io_fault h OpMkdir "src" = true →
      stub_result opts s (inr (Uncaught err), s)
  | stub_write_failed err :
      fs s !! "src/index.js" = None ∨ force opts = true →
      io_fault h OpMkdir "src" = false →
      io_fault h OpWrite "src/index.js" = true →
      stub_result opts s (inr (Uncaught err), add_events s [Mkdir "src"])
  | stub_written :
      fs s !! "src/index.js" = None ∨ force opts = true →
      io_fault h OpMkdir "src" = false →
      io_fault h OpWrite "src/index.js" = false →
      stub_result opts s
        (inl tt,
         add_events (written "src/index.js" stub (add_events s [Mkdir "src"]))
           [Log "Wrote src/index.js (stub)."]).

Definition made_dir : list event :=
  if io_fault h OpMkdir "." then [] else [Mkdir "."].

Inductive safeWrite_result (fname content : string) (force : bool) (s : State)
  : (bool + halt) * State → Prop :=
  | safeWrite_skipped :
      is_Some (fs s !! fname) → force = false →
      safeWrite_result fname content force s
        (inl false, add_events s [skip_line h fname])
  | safeWrite_failed err :
      fs s !! fname = None ∨ force = true →
      io_fault h OpWrite fname = true →
      safeWrite_result fname content force s
        (inr (Uncaught err), add_events s made_dir)
  | safeWrite_written :
      fs s !! fname = None ∨ force = true →
      io_fault h OpWrite fname = false →
      safeWrite_result fname content force s
        (inl true,
         add_events (written fname content (add_events s made_dir))
           [Log ("Wrote " +:+ path_join (cwd h) fname)]).

(** The resolution of the author name. *)
Definition no_flag (opts : Opts) : Prop :=
  ∀ n, name opts = Some n → nonempty n = false.

Inductive author_result (opts : Opts) (manifest : value) (s : State)
  : (value + halt) * State → Prop :=
  | author_from_flag n :
      name opts = Some n → nonempty n = true →
      author_result opts manifest s (inl (VStr n), s)
  | author_unreadable err :
      no_flag opts → get_prop manifest "author" = Throw err →
      author_result opts manifest s (inr (Uncaught err), s)
  | author_from_manifest author :
      no_flag opts → get_prop manifest "author" = Ok author →
      truthy author = true →
      author_result opts manifest s (inl author, s)
  | author_from_git author :
      no_flag opts → get_prop manifest "author" = Ok author →
      truthy author = false →
      author_result opts manifest s
        (inl (git_answer h), add_events s [ExecSync "git config --get user.name"]).

Inductive license_result (opts : Opts) (manifest : value) (s : State)
  : (unit + halt) * State → Prop :=
  | license_skipped :
      is_Some (fs s !! "LICENSE") → force opts = false →
      license_result opts manifest s
        (inl tt, add_events s [Log "Skipping LICENSE (exists)."])
  | license_no_author err s1 :
      fs s !! "LICENSE" = None ∨ force opts = true →
      author_result opts manifest s (inr (Uncaught err), s1) →
      license_result opts manifest s (inr (Uncaught err), s1)
  | license_no_text who err s1 :
      fs s !! "LICENSE" = None ∨ force opts = true →
      author_result opts manifest s (inl who, s1) →
      licenseText h (year h) who = Throw err →
      license_result opts manifest s (inr (Uncaught err), s1)
  | license_write_failed who text err s1 :
      fs s !! "LICENSE" = None ∨ force opts = true →
      author_result opts manifest s (inl who, s1) →
      licenseText h (year h) who = Ok text →
      io_fault h OpWrite "LICENSE" = true →
      license_result opts manifest s (inr (Uncaught err), s1)
  | license_written who text s1 :
      fs s !! "LICENSE" = None ∨ force opts = true →
      author_result opts manifest s (inl who, s1) →
      licenseText h (year h) who = Ok text →
      io_fault h OpWrite "LICENSE" = false →
      license_result opts manifest s
        (inl tt, add_events (written "LICENSE" text s1) [Log "Wrote LICENSE"]).

(** The installer: the command of each manager and the retry advice. *)
Definition install_command (p : string) : option (string * list string) :=
  if bool_decide (p = "npm") then Some ("npm", "install" :: "--save-dev" :: devDeps)
  else if bool_decide (p = "pnpm") then Some ("pnpm", "add" :: "-D" :: devDeps)
  else if bool_decide (p = "yarn") then Some ("yarn", "add" :: "--dev" :: devDeps)
  else None.

Definition retry_advice (p : string) : list event :=
  if bool_decide (p = "npm") then
    [Err ("You may retry manually: npm install --save-dev " +:+ join " " devDeps)]
  else if bool_decide (p = "pnpm") then
    [Err ("You may retry manually: pnpm add -D " +:+ join " " devDeps)]
  else if bool_decide (p = "yarn") then
    [Err ("You may retry manually: yarn add --dev " +:+ join " " devDeps)]
  else [].

Definition installing_line : event :=
  Log ("Installing devDependencies: " +:+ join " " devDeps).

Inductive install_result (opts : Opts) (s : State) : (unit + halt) * State → Prop :=
  | install_skipped :
      noInstall opts = true →
      install_result opts s
        (inr (Exit 0),
         add_events s [Log "Skipping install ( --no-install )";
                       Log "Done. Review and commit the changes if OK."])
  | install_done cmd args :
      noInstall opts = false →
      install_command (pkg opts) = Some (cmd, args) →
      installer_close h cmd args = Some 0 →
      install_result opts s
        (inl tt,
         add_events s [installing_line; Spawn cmd args;
                       Log "Installed devDependencies.";
                       Log "All done. Run `npm run build` to verify the build works."])
  | install_failed cmd args :
      noInstall opts = false →
      install_command (pkg opts) = Some (cmd, args) →
      installer_close h cmd args ≠ Some 0 →
      install_result opts s
        (inr (Exit 2),
         add_events s
           ([installing_line; Spawn cmd args;
             Err (pkg opts +:+ " install failed: " +:+ cmd +:+ " exited "
                  +:+ show_code (installer_close h cmd args))]
            ++ retry_advice (pkg opts)))
  | install_unsupported :
      noInstall opts = false →
      install_command (pkg opts) = None →
      install_result opts s
        (inr (Exit 2),
         add_events s
           [installing_line;
            Err (pkg opts +:+ " install failed: Unsupported package manager: "
                 +:+ pkg opts)]).

(** The loop over [DEFAULT_FILES], summed up: what it may print and write,
    what it leaves alone, and that without [--force] it only reports the
    files that all exist. *)
Definition templates_result (opts : Opts) (s : State) (rs : (unit + halt) * State)
  : Prop :=
  ∃ delta : list event,
    out rs.2 = (out s ++ delta)%list
    ∧ Forall (template_event DEFAULT_FILES) delta
    ∧ (∀ p, p ∉ DEFAULT_FILES.*1 → fs rs.2 !! p = fs s !! p)
    ∧ (force opts = false → ∀ p, is_Some (fs s !! p) → fs rs.2 !! p = fs s !! p)
    ∧ (force opts = false → (∀ p, p ∈ DEFAULT_FILES.*1 → is_Some (fs s !! p)) →
         rs.1 = inl tt ∧ fs rs.2 = fs s ∧ delta = skip_line h <$> DEFAULT_FILES.*1)
    ∧ ((∀ p, p ∈ DEFAULT_FILES.*1 → io_fault h OpWrite p = false) → rs.1 = inl tt).

(** A run, stage by stage: where it stopped and what each stage did. *)
Inductive run_result (raw : list string) (files : gmap string string)
  : (unit + halt) * State → Prop :=
  | run_parse_exit printed code :
      parseArgs raw = (printed, inr code) →
      run_result raw files (inr (Exit code), mkState files printed)
  | run_manifest_stop printed opts x s2 :
      parseArgs raw = (printed, inl opts) →
      manifest_result (mkState files printed) (inr x, s2) →
      run_result raw files (inr x, s2)
  | run_stub_stop printed opts manifest s2 x s3 :
      parseArgs raw = (printed, inl opts) →
      manifest_result (mkState files printed) (inl manifest, s2) →
      stub_result opts s2 (inr x, s3) →
      run_result raw files (inr x, s3)
  | run_templates_stop printed opts manifest s2 s3 x s4 :
      parseArgs raw = (printed, inl opts) →
      manifest_result (mkState files printed) (inl manifest, s2) →
      stub_result opts s2 (inl tt, s3) →
      templates_result opts s3 (inr x, s4) →
      run_result raw files (inr x, s4)
  | run_license_stop printed opts manifest s2 s3 s4 x s5 :
      parseArgs raw = (printed, inl opts) →
      manifest_result (mkState files printed) (inl manifest, s2) →
      stub_result opts s2 (inl tt, s3) →
      templates_result opts s3 (inl tt, s4) →
      license_result opts manifest s4 (inr x, s5) →
      run_result raw files (inr x, s5)
  | run_to_install printed opts manifest s2 s3 s4 s5 r :
      parseArgs raw = (printed, inl opts) →
      manifest_result (mkState files printed) (inl manifest, s2) →
      stub_result opts s2 (inl tt, s3) →
      templates_result opts s3 (inl tt, s4) →
      license_result opts manifest s4 (inl tt, s5) →
      install_result opts s5 r →
      run_result raw files r.

End stage_results.

(** ** The author name, in the words of the specification

    The explicit flag value if given, else the manifest's author field,
    else what the version-control tool answers, else the placeholder. *)
Definition author_chain (flag : option string) (author : value)
  (git : option string) : value :=
  match flag with
  | Some n => VStr n
  | None =>
      if truthy author then author
      else match git with
           | Some stdout =>
               if nonempty (trim stdout) then VStr (trim stdout)
               else VStr "Your Name"
           | None => VStr "Your Name"
           end
  end.

(** The LICENSE text for the year and the author name of a run. *)
Definition license_content (h : Host) (raw : list string)
  (files : gmap string string) (content : string) : Prop :=
  ∃ printed opts pkgRaw v author who,
    parseArgs raw = (printed, inl opts)
    ∧ files !! pkgPath = Some pkgRaw
    ∧ JSON_parse h pkgRaw = Some v
    ∧ get_prop v "author" = Ok author
    ∧ ToString (Number_toString h)
        (author_chain (name opts) author (git_user_name h)) = Ok who
    ∧ content = license_head +:+ pretty (year h) +:+ " " +:+ who +:+ license_tail.

(** Every event a run can cause. *)
Definition run_event (h : Host) (raw : list string) (files : gmap string string)
  (e : event) : Prop :=
  match e with
  | Log _ | Err _ | Mkdir _ => True
  | Wrote p content =>
      (p = bakPath h ∧ files !! pkgPath = Some content)
      ∨ p = pkgPath
      ∨ (p = "src/index.js" ∧ content = stub)
      ∨ (p, content) ∈ DEFAULT_FILES
      ∨ (p = "LICENSE" ∧ license_content h raw files content)
  | Spawn cmd args =>
      ∃ printed opts,
        parseArgs raw = (printed, inl opts) ∧ noInstall opts = false
        ∧ install_command (pkg opts) = Some (cmd, args)
  | ExecSync cmd => cmd = "git config --get user.name"
  end.

(** The generated files: the stub, the template files and the LICENSE. *)
Definition generated_files : list string :=
  "src/index.js" :: ((DEFAULT_FILES.*1) ++ ["LICENSE"]).

Definition not_spawn (e : event) : Prop :=
  match e with
  | Spawn _ _ => False
  | _ => True
  end.

(** ** A host for the examples

    Its JSON codec is only told about the texts the examples use: [{}] is
    the empty object and anything else is malformed (as is [oops], the one
    other manifest text of the examples); the text it serialises to is
    never looked at.  Nothing fails, [git] has no user name configured and
    the installer closes with code 1. *)
Definition sample_parse (text : string) : option value :=
  if decide (text = "{}") then Some (VObj []) else None.

Definition sample_host : Host :=
  mkHost "/home/dev/app" 1700000000000 2026 (fun _ _ => false)
    sample_parse (fun _ => "{}") (fun _ => "0") None (fun _ _ => Some 1).

Definition sample_dir : gmap string string := {[ "package.json" := "{}" ]}.

(** A directory where the manifest and every generated file exist; the
    manifest is not valid JSON. *)
Definition full_dir : gmap string string :=
  list_to_map
    [ ("package.json", "oops"); ("src/index.js", "// mine"); ("rollup.config.js", "// mine");
      ("tsconfig.types.json", "{}"); (".gitignore", "dist"); (".npmignore", "src");
      ("README.md", "# mine"); ("LICENSE", "mine") ].

Global Instance io_op_eq_dec : EqDecision io_op.
Proof. solve_decision. Defined.

Global Instance event_eq_dec : EqDecision event.
Proof. solve_decision. Defined.

(** What the console shows, in order, when every generated file is
    skipped. *)
Definition skipped_report (h : Host) : list event :=
  Log "Skipping src/index.js (exists)."
  :: ((skip_line h <$> (DEFAULT_FILES.*1)) ++ [Log "Skipping LICENSE (exists)."])%list.

(** The same directory with a manifest that parses. *)
Definition ready_dir : gmap string string := <["package.json" := "{}"]> full_dir.

(** ** Vocabulary for further properties *)

(** The keys the merge may add to a manifest, in the order it adds them. *)
Definition default_keys : list string :=
  simple_keys ++ ["exports"; "scripts"].

Definition not_exec (e : event) : Prop :=
  match e with
  | ExecSync _ => False
  | _ => True
  end.

(** The stub source file and the template files with their contents. *)
Definition fixed_files : list (string * string) :=
  ("src/index.js", stub) :: DEFAULT_FILES.

(** A manifest with a key and a script that are present and falsy:
    [{ name: 'demo', main: '', scripts: { build: '' } }]. *)
Definition falsy_manifest : list (string * value) :=
  [ ("name", VStr "demo"); ("main", VStr EmptyString);
    ("scripts", VObj [("build", VStr EmptyString)]) ].

(** ** The directory as bytes

    [fs.readFile(p, 'utf8')] decodes the bytes of a file, and
    [fs.writeFile(p, text, 'utf8')] stores the encoding of the text, which
    is the string that stands for it.  A run started on the files [disk],
    given by their bytes, sees them as [as_text disk], and what it leaves
    on disk is what its writes put there, in the order of the trace. *)
Definition as_text (disk : gmap string string) : gmap string string :=
  read_utf8 <$> disk.

Definition replay (l : list event) (disk : gmap string string) : gmap string string :=
  foldl (fun d e => match e with
                    | Wrote p content => <[p := content]> d
                    | _ => d
                    end) disk l.

Definition disk_after (disk : gmap string string) (r : (unit + halt) * State)
  : gmap string string :=
  replay (events r) disk.

(** ** Further hosts and directories for the examples *)

Definition nbsp : string := string_of_bytes [0xC2; 0xA0].

(** A host where git answers with a user name between no-break spaces,
    and where the installer closes with code 0. *)
Definition git_host : Host :=
  mkHost "/home/dev/app" 1700000000000 2026 (fun _ _ => false)
    sample_parse (fun _ => "{}") (fun _ => "0")
    (Some (nbsp +:+ "Grace Hopper" +:+ nbsp +:+ nl)) (fun _ _ => Some 0).

(** A manifest saved in Latin-1: the byte E9 of [caf\xE9] is no UTF-8.
    Read as UTF-8 it is the text [latin1_text], with U+FFFD for that byte,
    which is valid JSON. *)
Definition latin1_manifest : string :=
  "{" +:+ quoted "name" +:+ ":" +:+ quoted ("caf" +:+ string_of_bytes [0xE9]) +:+ "}".

Definition latin1_text : string :=
  "{" +:+ quoted "name" +:+ ":"
  +:+ quoted ("caf" +:+ string_of_bytes [0xEF; 0xBF; 0xBD]) +:+ "}".

(** The same manifest saved in UTF-8, with the bytes C3 A9 for the last
    letter of the name. *)
Definition utf8_manifest : string :=
  "{" +:+ quoted "name" +:+ ":"
  +:+ quoted ("caf" +:+ string_of_bytes [0xC3; 0xA9]) +:+ "}".

(** A host whose JSON codec knows these two texts; the text it serialises
    to is never looked at.  Nothing fails on it. *)
Definition latin1_parse (text : string) : option value :=
  if decide (text = latin1_text)
  then Some (VObj [("name", VStr ("caf" +:+ string_of_bytes [0xEF; 0xBF; 0xBD]))])
  else if decide (text = utf8_manifest)
  then Some (VObj [("name", VStr ("caf" +:+ string_of_bytes [0xC3; 0xA9]))])
  else None.

Definition latin1_host : Host :=
  mkHost "/home/dev/app" 1700000000000 2026 (fun _ _ => false)
    latin1_parse (fun _ => "{}") (fun _ => "0") None (fun _ _ => Some 0).

Definition latin1_dir : gmap string string := {[ "package.json" := latin1_manifest ]}.

Definition utf8_dir : gmap string string := {[ "package.json" := utf8_manifest ]}.

(** A host on which only [package.json] can be written. *)
Definition no_backup_host : Host :=
  mkHost "/home/dev/app" 1700000000000 2026
    (fun op p => bool_decide (op = OpWrite ∧ p ≠ "package.json"))
    sample_parse (fun _ => "{}") (fun _ => "0") None (fun _ _ => Some 0).

(** In what follows [++] is the concatenation of lists; strings are joined
    with [+:+]. *)
Local Open Scope list_scope.

(** * Properties of the text codec *)

Section text_codec.

Lemma string_of_bytes_of_string s : string_of_bytes (bytes_of_string s) = s.
Proof.
  induction s as [|c s IH]; simpl; [done|].
  unfold char_of, byte_of. by rewrite N2Z.id, Ascii.ascii_N_embedding, IH.
Qed.

(** Bit operations as arithmetic. *)
Lemma lor_low x y n :
  0 ≤ n → 0 ≤ y < 2 ^ n → Z.lor (x * 2 ^ n) y = x * 2 ^ n + y.
Proof.
  intros Hn Hy. symmetry. apply Z.add_nocarry_lor.
  apply Z.bits_inj'. intros i Hi. rewrite Z.land_spec, Z.bits_0.
  destruct (Z.lt_ge_cases i n) as [Hlt|Hge].
  - by rewrite Z.mul_pow2_bits_low.
  - rewrite andb_false_iff. right.
    destruct (decide (y = 0)) as [->|Hne]; [apply Z.bits_0|].
    apply Z.bits_above_log2; [lia|].
    apply Z.log2_lt_pow2; [lia|].
    assert (2 ^ n ≤ 2 ^ i) by (apply Z.pow_le_mono_r; lia). lia.
Qed.

Lemma land_low x n : 0 ≤ n → Z.land x (2 ^ n - 1) = x `mod` 2 ^ n.
Proof. intros Hn. rewrite <- Z.land_ones by done. by rewrite Z.ones_equiv, Z.sub_1_r. Qed.

Ltac bits_to_arith :=
  repeat match goal with
  | |- context [Z.shiftl ?a 6] => rewrite (Z.shiftl_mul_pow2 a 6) by lia
  | |- context [Z.shiftr ?a ?n] => rewrite (Z.shiftr_div_pow2 a n) by lia
  | |- context [Z.land ?a 0x3F] => rewrite (land_low a 6 ltac:(lia) : Z.land a 0x3F = _)
  | |- context [Z.land ?a 0x1F] => rewrite (land_low a 5 ltac:(lia) : Z.land a 0x1F = _)
  | |- context [Z.land ?a 0xF] => rewrite (land_low a 4 ltac:(lia) : Z.land a 0xF = _)
  | |- context [Z.land ?a 0x7] => rewrite (land_low a 3 ltac:(lia) : Z.land a 0x7 = _)
  end.

Ltac euclid := Z.div_mod_to_equations; lia.

Lemma encode_two b1 b2 :
  0xC2 ≤ b1 ≤ 0xDF → 0x80 ≤ b2 ≤ 0xBF →
  utf8_encode_one (Z.lor (Z.shiftl (Z.land b1 0x1F) 6) (Z.land b2 0x3F)) = [b1; b2].
Proof.
  intros H1 H2. bits_to_arith.
  rewrite (lor_low _ _ 6) by (try lia; apply Z.mod_pos_bound; lia).
  change (2 ^ 5) with 32. change (2 ^ 6) with 64.
  assert (b1 `mod` 32 = b1 - 0xC0) as -> by euclid.
  assert (b2 `mod` 64 = b2 - 0x80) as -> by euclid.
  unfold utf8_encode_one.
  rewrite (proj2 (Z.leb_gt _ 0x7F)) by lia.
  rewrite (proj2 (Z.leb_le _ 0x7FF)) by lia.
  bits_to_arith.
  change 0xC0 with (3 * 2 ^ 6). change 0x80 with (2 * 2 ^ 6).
  rewrite !(lor_low _ _ 6) by (try lia; change (2 ^ 6) with 64; euclid).
  change (2 ^ 6) with 64.
  f_equal; [euclid|]. f_equal. euclid.
Qed.

Lemma encode_three b1 b2 b3 :
  0xE0 ≤ b1 ≤ 0xEF →
  (if b1 =? 0xE0 then 0xA0 else 0x80) ≤ b2 ≤ (if b1 =? 0xED then 0x9F else 0xBF) →
  0x80 ≤ b3 ≤ 0xBF →
  utf8_encode_one
    (Z.lor (Z.shiftl (Z.lor (Z.shiftl (Z.land b1 0xF) 6) (Z.land b2 0x3F)) 6)
       (Z.land b3 0x3F))
  = [b1; b2; b3].
Proof.
  intros H1 H2 H3.
  assert (0x80 ≤ b2 ≤ 0xBF) as H2'.
  { destruct (Z.eqb_spec b1 0xE0), (Z.eqb_spec b1 0xED); lia. }
  bits_to_arith.
  change (2 ^ 4) with 16. change (2 ^ 6) with 64.
  assert (b1 `mod` 16 = b1 - 0xE0) as -> by euclid.
  assert (b2 `mod` 64 = b2 - 0x80) as -> by euclid.
  assert (b3 `mod` 64 = b3 - 0x80) as -> by euclid.
  change 64 with (2 ^ 6).
  rewrite !(lor_low _ _ 6) by lia.
  change (2 ^ 6) with 64.
  set (c := ((b1 - 0xE0) * 64 + (b2 - 0x80)) * 64 + (b3 - 0x80)).
  assert (0x800 ≤ c ≤ 0xFFFF ∧ ¬ (0xD800 ≤ c ≤ 0xDFFF)) as [Hc Hs].
  { subst c. destruct (Z.eqb_spec b1 0xE0), (Z.eqb_spec b1 0xED); lia. }
  unfold utf8_encode_one.
  rewrite (proj2 (Z.leb_gt c 0x7F)) by lia.
  rewrite (proj2 (Z.leb_gt c 0x7FF)) by lia.
  assert ((0xD800 <=? c) && (c <=? 0xDFFF) = false) as ->.
  { apply andb_false_iff. rewrite !Z.leb_gt. lia. }
  rewrite (proj2 (Z.leb_le c 0xFFFF)) by lia.
  bits_to_arith.
  change 0xE0 with (7 * 2 ^ 5). change 0x80 with (2 * 2 ^ 6).
  rewrite (lor_low _ _ 5), !(lor_low _ _ 6);
    change (2 ^ 5) with 32; change (2 ^ 6) with 64; change (2 ^ 12) with 4096;
    try (subst c; euclid).
  repeat f_equal; subst c; euclid.
Qed.

Lemma encode_four b1 b2 b3 b4 :
  0xF0 ≤ b1 ≤ 0xF4 →
  (if b1 =? 0xF0 then 0x90 else 0x80) ≤ b2 ≤ (if b1 =? 0xF4 then 0x8F else 0xBF) →
  0x80 ≤ b3 ≤ 0xBF → 0x80 ≤ b4 ≤ 0xBF →
  utf8_encode_one
    (Z.lor
       (Z.shiftl
          (Z.lor (Z.shiftl (Z.lor (Z.shiftl (Z.land b1 0x7) 6) (Z.land b2 0x3F)) 6)
             (Z.land b3 0x3F)) 6)
       (Z.land b4 0x3F))
  = [b1; b2; b3; b4].
Proof.
  intros H1 H2 H3 H4.
  assert (0x80 ≤ b2 ≤ 0xBF) as H2'.
  { destruct (Z.eqb_spec b1 0xF0), (Z.eqb_spec b1 0xF4); lia. }
  bits_to_arith.
  change (2 ^ 3) with 8. change (2 ^ 6) with 64.
  assert (b1 `mod` 8 = b1 - 0xF0) as -> by euclid.
  assert (b2 `mod` 64 = b2 - 0x80) as -> by euclid.
  assert (b3 `mod` 64 = b3 - 0x80) as -> by euclid.
  assert (b4 `mod` 64 = b4 - 0x80) as -> by euclid.
  change 64 with (2 ^ 6).
  rewrite !(lor_low _ _ 6) by lia.
  change (2 ^ 6) with 64.
  set (c := (((b1 - 0xF0) * 64 + (b2 - 0x80)) * 64 + (b3 - 0x80)) * 64 + (b4 - 0x80)).
  assert (0x10000 ≤ c ≤ 0x10FFFF) as Hc.
  { subst c. destruct (Z.eqb_spec b1 0xF0), (Z.eqb_spec b1 0xF4); lia. }
  unfold utf8_encode_one.
  rewrite (proj2 (Z.leb_gt c 0x7F)) by lia.
  rewrite (proj2 (Z.leb_gt c 0x7FF)) by lia.
  assert ((0xD800 <=? c) && (c <=? 0xDFFF) = false) as ->.
  { apply andb_false_iff. rewrite !Z.leb_gt. lia. }
  rewrite (proj2 (Z.leb_gt c 0xFFFF)) by lia.
  bits_to_arith.
  change 0xF0 with (15 * 2 ^ 4). change 0x80 with (2 * 2 ^ 6).
  rewrite (lor_low _ _ 4), !(lor_low _ _ 6);
    change (2 ^ 4) with 16; change (2 ^ 6) with 64; change (2 ^ 12) with 4096;
    change (2 ^ 18) with 262144;
    try (subst c; euclid).
  repeat f_equal; subst c; euclid.
Qed.

(** Decoding well-formed UTF-8 and encoding the result gives the bytes back. *)
Lemma utf8_round_trip bs :
  well_formed_utf8 bs = true → utf8_encode (utf8_decode bs) = bs.
Proof.
  remember (length bs) as n eqn:Hn. revert bs Hn.
  induction n as [n IH] using lt_wf_ind. intros bs -> Hwf.
  assert (∀ r, (length r < length bs)%nat → well_formed_utf8 r = true →
               utf8_encode (utf8_decode_from decoder_start r) = r) as Hrest.
  { intros r Hlen Hr. by apply (IH (length r)). }
  clear IH. unfold utf8_decode.
  destruct bs as [|b1 r1]; [done|].
  cbn [well_formed_utf8] in Hwf. cbn [utf8_decode_from].
  unfold utf8_byte at 1. cbn [bytes_needed decoder_start]. unfold utf8_lead.
  destruct (Z.leb_spec b1 0x7F) as [Hb1|Hb1].
  { cbn [app]. unfold utf8_encode. cbn [fmap list_fmap concat].
    unfold utf8_encode_one. rewrite (proj2 (Z.leb_le b1 0x7F)) by done.
    cbn [app]. f_equal. apply Hrest; [simpl; lia | done]. }
  destruct r1 as [|b2 r2]; [done|].
  destruct ((0xC2 <=? b1) && (b1 <=? 0xDF)) eqn:E2.
  { apply andb_true_iff in E2 as [Ha Hb]. apply Z.leb_le in Ha, Hb.
    apply andb_true_iff in Hwf as [Hc Hwf]. unfold continuation in Hc.
    apply andb_true_iff in Hc as [Hc1 Hc2]. apply Z.leb_le in Hc1, Hc2.
    cbn [app utf8_decode_from]. unfold utf8_byte at 1.
    cbn [bytes_needed lower_boundary upper_boundary code_point].
    rewrite (proj2 (Z.leb_le 0x80 b2)), (proj2 (Z.leb_le b2 0xBF)) by done.
    cbn [andb app]. unfold utf8_encode. cbn [fmap list_fmap concat].
    rewrite encode_two by done. cbn [app]. do 2 f_equal.
    apply Hrest; [simpl; lia | done]. }
  destruct r2 as [|b3 r3]; [done|].
  destruct ((0xE0 <=? b1) && (b1 <=? 0xEF)) eqn:E3.
  { apply andb_true_iff in E3 as [Ha Hb]. apply Z.leb_le in Ha, Hb.
    apply andb_true_iff in Hwf as [Hwf Hr]. apply andb_true_iff in Hwf as [Hwf Hc3].
    apply andb_true_iff in Hwf as [Hlo Hhi].
    unfold continuation in Hc3.
    apply andb_true_iff in Hc3 as [Hc1 Hc2]. apply Z.leb_le in Hc1, Hc2.
    cbn [app utf8_decode_from]. unfold utf8_byte at 1.
    cbn [bytes_needed lower_boundary upper_boundary code_point].
    rewrite Hlo, Hhi. cbn [andb app]. apply Z.leb_le in Hlo, Hhi.
    unfold utf8_byte at 1.
    cbn [bytes_needed lower_boundary upper_boundary code_point].
    rewrite (proj2 (Z.leb_le 0x80 b3)), (proj2 (Z.leb_le b3 0xBF)) by done.
    cbn [andb app]. unfold utf8_encode. cbn [fmap list_fmap concat].
    rewrite encode_three by done. cbn [app]. do 3 f_equal.
    apply Hrest; [simpl; lia | done]. }
  destruct r3 as [|b4 r4]; [done|].
  apply andb_true_iff in Hwf as [Hwf Hr]. apply andb_true_iff in Hwf as [Hwf Hc4].
  apply andb_true_iff in Hwf as [Hwf Hc3]. apply andb_true_iff in Hwf as [Hwf Hhi].
  apply andb_true_iff in Hwf as [Hwf Hlo]. apply andb_true_iff in Hwf as [Ha Hb].
  unfold continuation in Hc3, Hc4.
  apply andb_true_iff in Hc3 as [Hc31 Hc32]. apply Z.leb_le in Hc31, Hc32.
  apply andb_true_iff in Hc4 as [Hc41 Hc42]. apply Z.leb_le in Hc41, Hc42.
  rewrite Ha, Hb. cbn [andb]. apply Z.leb_le in Ha, Hb.
  cbn [app utf8_decode_from]. unfold utf8_byte at 1.
  cbn [bytes_needed lower_boundary upper_boundary code_point].
  rewrite Hlo, Hhi. cbn [andb app]. apply Z.leb_le in Hlo, Hhi.
  unfold utf8_byte at 1.
  cbn [bytes_needed lower_boundary upper_boundary code_point].
  rewrite (proj2 (Z.leb_le 0x80 b3)), (proj2 (Z.leb_le b3 0xBF)) by done.
  cbn [andb app]. unfold utf8_byte at 1.
  cbn [bytes_needed lower_boundary upper_boundary code_point].
  rewrite (proj2 (Z.leb_le 0x80 b4)), (proj2 (Z.leb_le b4 0xBF)) by done.
  cbn [andb app]. unfold utf8_encode. cbn [fmap list_fmap concat].
  rewrite encode_four by done. cbn [app]. do 4 f_equal.
  apply Hrest; [simpl; lia | done].
Qed.

Lemma read_utf8_well_formed s :
  well_formed_utf8 (bytes_of_string s) = true → read_utf8 s = s.
Proof.
  intros Hwf. unfold read_utf8. rewrite utf8_round_trip by done.
  apply string_of_bytes_of_string.
Qed.

End text_codec.

(** * Properties of the manifest merge *)

Section own_properties.
Implicit Types (k : string) (v d : value) (ps : list (string * value)).

Lemma own_get_set_eq k v ps : own_get k (own_set k v ps) = v.
Proof.
  induction ps as [|[k' v'] ps IH]; simpl.
  - by rewrite decide_True.
  - destruct (decide (k = k')) as [->|Hne]; simpl.
    + by rewrite decide_True.
    + by rewrite decide_False.
Qed.

Lemma own_get_set_ne k k' v ps :
  k ≠ k' → own_get k' (own_set k v ps) = own_get k' ps.
Proof.
  intros Hne. induction ps as [|[k0 v0] ps IH]; simpl.
  - by rewrite decide_False.
  - destruct (decide (k = k0)) as [->|Hk]; simpl.
    + by rewrite !(decide_False (P := k' = k0)).
    + destruct (decide (k' = k0)); [done | apply IH].
Qed.

Lemma own_set_set k v v' ps : own_set k v (own_set k v' ps) = own_set k v ps.
Proof.
  induction ps as [|[k0 v0] ps IH]; simpl.
  - by rewrite decide_True.
  - destruct (decide (k = k0)) as [->|Hk]; simpl.
    + by rewrite decide_True.
    + rewrite decide_False; [by rewrite IH | done].
Qed.

Lemma own_has_set k v ps : own_has k (own_set k v ps) = true.
Proof.
  induction ps as [|[k0 v0] ps IH]; simpl.
  - by rewrite decide_True.
  - destruct (decide (k = k0)) as [->|Hk]; simpl.
    + by rewrite decide_True.
    + by rewrite decide_False.
Qed.

Lemma own_get_absent k ps : own_has k ps = false → own_get k ps = VUndefined.
Proof.
  induction ps as [|[k0 v0] ps IH]; simpl; [done|].
  destruct (decide (k = k0)); [done | apply IH].
Qed.

(** ** One guarded assignment *)

Lemma fill_get_eq k d ps :
  truthy d = true → truthy (own_get k (fill k d ps)) = true.
Proof.
  intros Hd. unfold fill. destruct (truthy (own_get k ps)) eqn:E; [done|].
  by rewrite own_get_set_eq.
Qed.

Lemma fill_get_ne k k' d ps :
  k ≠ k' → own_get k' (fill k d ps) = own_get k' ps.
Proof.
  intros Hne. unfold fill. destruct (truthy (own_get k ps)); [done|].
  by apply own_get_set_ne.
Qed.

Lemma fill_keep k k' d ps :
  truthy (own_get k' ps) = true → own_get k' (fill k d ps) = own_get k' ps.
Proof.
  intros Ht. destruct (decide (k = k')) as [->|Hne].
  - unfold fill. by rewrite Ht.
  - by apply fill_get_ne.
Qed.

Lemma fill_id k d ps : truthy (own_get k ps) = true → fill k d ps = ps.
Proof. intros Ht. unfold fill. by rewrite Ht. Qed.

Lemma fill_changed k k' d ps :
  own_get k' (fill k d ps) ≠ own_get k' ps →
  k' = k ∧ truthy (own_get k' ps) = false ∧ own_get k' (fill k d ps) = d.
Proof.
  intros Hch. destruct (decide (k = k')) as [->|Hne].
  - unfold fill in *. destruct (truthy (own_get k' ps)) eqn:E; [done|].
    by rewrite own_get_set_eq.
  - by rewrite fill_get_ne in Hch.
Qed.

(** ** A run of guarded assignments *)

Lemma fills_keep l k ps :
  truthy (own_get k ps) = true → own_get k (fills l ps) = own_get k ps.
Proof.
  revert ps. induction l as [|[k0 d0] l IH]; intros ps Ht; simpl; [done|].
  rewrite IH; rewrite fill_keep; done.
Qed.

Lemma fills_other l k ps :
  k ∉ l.*1 → own_get k (fills l ps) = own_get k ps.
Proof.
  revert ps. induction l as [|[k0 d0] l IH]; intros ps Hk; simpl; [done|].
  simpl in Hk. apply not_elem_of_cons in Hk as [Hne Hk].
  rewrite IH; [|done]. by apply fill_get_ne.
Qed.

Lemma fills_truthy l k d ps :
  Forall (λ kv, truthy kv.2 = true) l → (k, d) ∈ l →
  truthy (own_get k (fills l ps)) = true.
Proof.
  revert ps. induction l as [|[k0 d0] l IH]; intros ps Hall Hin.
  - by apply elem_of_nil in Hin.
  - apply Forall_cons in Hall as [Hd Hall]. simpl in *.
    apply elem_of_cons in Hin as [[= -> ->]|Hin].
    + rewrite fills_keep; by apply fill_get_eq.
    + by apply IH.
Qed.

Lemma fills_id l ps :
  (∀ kv, kv ∈ l → truthy (own_get kv.1 ps) = true) → fills l ps = ps.
Proof.
  induction l as [|[k0 d0] l IH]; intros Hall; simpl; [done|].
  rewrite fill_id.
  - apply IH. intros kv Hkv. apply Hall. by right.
  - apply (Hall (k0, d0)). by left.
Qed.

Lemma fills_cases l k ps :
  own_get k (fills l ps) = own_get k ps ∨
  (truthy (own_get k ps) = false ∧ (k, own_get k (fills l ps)) ∈ l).
Proof.
  revert ps. induction l as [|[k0 d0] l IH]; intros ps; simpl; [by left|].
  destruct (IH (fill k0 d0 ps)) as [Heq|[Hf Hin]].
  - rewrite Heq. destruct (decide (k0 = k)) as [->|Hne].
    + unfold fill. destruct (truthy (own_get k ps)) eqn:Ht; [by left|].
      right. split; [done|]. rewrite own_get_set_eq. by left.
    + left. by apply fill_get_ne.
  - right. split; [|by right].
    destruct (truthy (own_get k ps)) eqn:Ht; [|done].
    rewrite fill_keep in Hf by done. congruence.
Qed.

Lemma fills_changed l k ps :
  own_get k (fills l ps) ≠ own_get k ps →
  truthy (own_get k ps) = false ∧ (k, own_get k (fills l ps)) ∈ l.
Proof. intros Hch. by destruct (fills_cases l k ps). Qed.
End own_properties.

Section merge_closed_form.
Implicit Types (k : string) (v s : value) (ps : list (string * value)).

Lemma bind_Ok {A B} (a : A) (f : A → result B) : (Ok a ≫= f) = f a.
Proof. reflexivity. Qed.

Lemma with_props_container v ps : is_container v = true → is_container (with_props v ps) = true.
Proof. by destruct v. Qed.

Lemma props_of_with_props v ps : is_container v = true → props_of (with_props v ps) = ps.
Proof. by destruct v. Qed.

Lemma with_props_twice v ps ps' : with_props (with_props v ps) ps' = with_props v ps'.
Proof. by destruct v. Qed.

Lemma get_prop_container v k :
  is_container v = true → get_prop v k = Ok (own_get k (props_of v)).
Proof. by destruct v. Qed.

Lemma set_prop_container v k d :
  is_container v = true → set_prop v k d = Ok (with_props v (own_set k d (props_of v))).
Proof. by destruct v. Qed.

Lemma merge_key_container v key :
  is_container v = true →
  merge_key v key = Ok (with_props v (fill key (default_of key) (props_of v))).
Proof.
  intros Hv. unfold merge_key, fill.
  rewrite (get_prop_container v), bind_Ok by done.
  destruct (truthy (own_get key (props_of v))).
  - by destruct v.
  - change (get_prop defaults key) with (Ok (default_of key)).
    rewrite bind_Ok. by apply set_prop_container.
Qed.

Lemma merge_keys_container keys v :
  is_container v = true →
  foldM merge_key keys v
  = Ok (with_props v (fills (map (λ key, (key, default_of key)) keys) (props_of v))).
Proof.
  revert v. induction keys as [|key keys IH]; intros v Hv; cbn [foldM map fills fold_left].
  { by destruct v. }
  rewrite merge_key_container, bind_Ok by done.
  rewrite IH by (by apply with_props_container).
  by rewrite with_props_twice, props_of_with_props.
Qed.

Lemma truthy_get_prop s k : truthy s = true → ∃ v, get_prop s k = Ok v.
Proof. destruct s; simpl; intros; try done; eauto. Qed.

Lemma fill_script_truthy s kv : truthy s = true → truthy (fill_script s kv) = true.
Proof. by destruct s. Qed.

Lemma merge_script_container v ps s kv :
  is_container v = true → truthy s = true →
  merge_script (with_props v (own_set "scripts" s ps)) kv
  = Ok (with_props v (own_set "scripts" (fill_script s kv) ps)).
Proof.
  intros Hv Hs. unfold merge_script.
  rewrite get_prop_container, bind_Ok by (by apply with_props_container).
  rewrite props_of_with_props, own_get_set_eq by done.
  assert (set_prop (with_props v (own_set "scripts" s ps)) "scripts" (fill_script s kv)
          = Ok (with_props v (own_set "scripts" (fill_script s kv) ps))) as Hset.
  { rewrite set_prop_container by (by apply with_props_container).
    by rewrite props_of_with_props, with_props_twice, own_set_set. }
  assert (with_props v (own_set "scripts" s ps)
          = with_props v (own_set "scripts" (fill_script s kv) ps) →
          Ok (with_props v (own_set "scripts" s ps))
          = Ok (with_props v (own_set "scripts" (fill_script s kv) ps))) as Hsame
    by (by intros ->).
  destruct s as [| |b|x|str|es qs|qs]; simpl in *; try done.
  - unfold fill in *. destruct (truthy (own_get kv.1 qs)); simpl; [by apply Hsame | done].
  - unfold fill in *. destruct (truthy (own_get kv.1 qs)); simpl; [by apply Hsame | done].
Qed.

Lemma merge_scripts_container l v ps s :
  is_container v = true → truthy s = true →
  foldM merge_script l (with_props v (own_set "scripts" s ps))
  = Ok (with_props v (own_set "scripts" (fold_left fill_script l s) ps)).
Proof.
  intros Hv. revert s. induction l as [|kv l IH]; intros s Hs; simpl; [done|].
  rewrite merge_script_container by done. rewrite bind_Ok.
  apply IH. by apply fill_script_truthy.
Qed.

(** [merge] never throws on an object or an array, and this is what it
    leaves. *)
Lemma merge_container v :
  is_container v = true →
  merge v = Ok (with_props v (merged_props (props_of v))).
Proof.
  intros Hv. unfold merge.
  rewrite merge_keys_container, bind_Ok by done.
  rewrite merge_key_container, bind_Ok by (by apply with_props_container).
  rewrite props_of_with_props, with_props_twice by done.
  rewrite get_prop_container, bind_Ok by (by apply with_props_container).
  rewrite set_prop_container, bind_Ok by (by apply with_props_container).
  rewrite props_of_with_props, with_props_twice by done.
  rewrite merge_scripts_container; [reflexivity | done |].
  match goal with |- truthy (if truthy ?s then _ else _) = true =>
    by destruct (truthy s) eqn:E end.
Qed.

Lemma merge_obj ps : merge (VObj ps) = Ok (VObj (merged_props ps)).
Proof. by apply (merge_container (VObj ps)). Qed.

(** On anything else it throws. *)
Lemma merge_primitive v : is_container v = false → merge v = Throw TypeError.
Proof. by destruct v. Qed.

(** The merge leaves the [author] field as it is. *)
Lemma merge_author v manifest :
  merge v = Ok manifest → get_prop manifest "author" = get_prop v "author".
Proof.
  destruct (is_container v) eqn:Hv.
  - rewrite merge_container by done. intros [= <-].
    rewrite !get_prop_container by (done || by apply with_props_container).
    rewrite props_of_with_props by done. f_equal.
    unfold merged_props. rewrite own_get_set_ne by done.
    apply fills_other. apply (bool_decide_unpack _). by vm_compute.
  - by rewrite merge_primitive.
Qed.
End merge_closed_form.

Section merge_properties.
Implicit Types (k : string) (v s : value) (ps : list (string * value)).

Lemma top_defaults_truthy : Forall (λ kv, truthy kv.2 = true) top_defaults.
Proof. repeat constructor. Qed.

Lemma default_scripts_truthy : Forall (λ kv, truthy kv.2 = true) default_scripts.
Proof. repeat constructor. Qed.

Lemma scripts_not_top : "scripts" ∉ top_defaults.*1.
Proof. apply (bool_decide_unpack _). by vm_compute. Qed.

Lemma fill_scripts_obj l qs :
  fold_left fill_script l (VObj qs) = VObj (fills l qs).
Proof. revert qs. induction l as [|kv l IH]; intros qs; simpl; [done | apply IH]. Qed.

Lemma fill_scripts_arr l es qs :
  fold_left fill_script l (VArr es qs) = VArr es (fills l qs).
Proof. revert qs. induction l as [|kv l IH]; intros qs; simpl; [done | apply IH]. Qed.

Lemma fill_scripts_prim l s :
  (∀ qs, s ≠ VObj qs) → (∀ es qs, s ≠ VArr es qs) →
  fold_left fill_script l s = s.
Proof.
  intros Ho Ha. induction l as [|kv l IH]; simpl; [done|].
  destruct s; try done; [by destruct (Ha elems named) | by destruct (Ho props)].
Qed.

Lemma fill_scripts_truthy l s :
  truthy s = true → truthy (fold_left fill_script l s) = true.
Proof.
  revert s. induction l as [|kv l IH]; intros s Hs; simpl; [done|].
  apply IH. by apply fill_script_truthy.
Qed.

Lemma merged_scripts_truthy s : truthy (merged_scripts s) = true.
Proof.
  unfold merged_scripts. apply fill_scripts_truthy.
  by destruct (truthy s) eqn:E.
Qed.

(** What the loop over the default scripts does to one property of a
    truthy [pkg.scripts]. *)
Lemma fill_scripts_cases l s k :
  truthy s = true →
  get_prop (fold_left fill_script l s) k = get_prop s k ∨
  ∃ v d, get_prop s k = Ok v ∧ truthy v = false ∧ (k, d) ∈ l ∧
         get_prop (fold_left fill_script l s) k = Ok d.
Proof.
  intros Hs. destruct s as [| |b|x|str|es qs|qs]; try done.
  - left. by rewrite fill_scripts_prim.
  - left. by rewrite fill_scripts_prim.
  - left. by rewrite fill_scripts_prim.
  - rewrite fill_scripts_arr. simpl.
    destruct (fills_cases l k qs) as [->|[Hf Hin]]; [by left|].
    right. by exists (own_get k qs), (own_get k (fills l qs)).
  - rewrite fill_scripts_obj. simpl.
    destruct (fills_cases l k qs) as [->|[Hf Hin]]; [by left|].
    right. by exists (own_get k qs), (own_get k (fills l qs)).
Qed.

Lemma fill_scripts_idem l s :
  Forall (λ kv, truthy kv.2 = true) l →
  fold_left fill_script l (fold_left fill_script l s) = fold_left fill_script l s.
Proof.
  intros Hl.
  assert (∀ qs, fills l (fills l qs) = fills l qs) as Hfix.
  { intros qs. apply fills_id. intros [k0 d0] Hin. by apply (fills_truthy l k0 d0). }
  destruct s as [| |b|x|str|es qs|qs];
    try (match goal with |- _ = fold_left _ _ ?p =>
           assert (fold_left fill_script l p = p) as E
             by (by apply fill_scripts_prim);
           by rewrite !E
         end).
  - by rewrite !fill_scripts_arr, Hfix.
  - by rewrite !fill_scripts_obj, Hfix.
Qed.

Lemma merged_scripts_fixed s : merged_scripts (merged_scripts s) = merged_scripts s.
Proof.
  unfold merged_scripts at 1. rewrite merged_scripts_truthy.
  unfold merged_scripts. apply fill_scripts_idem, default_scripts_truthy.
Qed.

Lemma merged_props_fixed ps : merged_props (merged_props ps) = merged_props ps.
Proof.
  unfold merged_props at 1.
  assert (fills top_defaults (merged_props ps) = merged_props ps) as ->.
  { apply fills_id. intros [k0 d0] Hin. simpl. unfold merged_props.
    rewrite own_get_set_ne.
    - apply (fills_truthy top_defaults k0 d0); [apply top_defaults_truthy | done].
    - intros <-. apply scripts_not_top. by apply (list_elem_of_fmap_2 fst) in Hin. }
  unfold merged_props at 1. rewrite own_get_set_eq, merged_scripts_fixed.
  unfold merged_props. by rewrite own_set_set.
Qed.

(** C2.  Merging is idempotent on manifest objects: the merge of a
    manifest object succeeds, and merging its result again returns that
    very result. *)
Theorem merge_idempotent ps :
  ∃ merged, merge (VObj ps) = Ok merged ∧ merge merged = Ok merged.
Proof.
  exists (VObj (merged_props ps)). split; [apply merge_obj|].
  by rewrite merge_obj, merged_props_fixed.
Qed.

(** What a run of guarded assignments with truthy defaults leaves under a
    name: the value that was there when it was truthy, else the default of
    the name when it has one. *)
Lemma fills_exact l k ps :
  Forall (λ kv, truthy kv.2 = true) l →
  own_get k (fills l ps)
  = if truthy (own_get k ps) then own_get k ps
    else if own_has k l then own_get k l else own_get k ps.
Proof.
  intros Hl. revert ps. induction Hl as [|[k0 d0] l Hd Hl IH]; intros ps.
  { simpl. by destruct (truthy (own_get k ps)). }
  cbn [fills fold_left fst snd]. change (fold_left _ l ?q) with (fills l q).
  rewrite IH. cbn [own_has own_get]. cbn [snd] in Hd.
  destruct (decide (k = k0)) as [->|Hne].
  - unfold fill. destruct (truthy (own_get k0 ps)) eqn:E.
    + by rewrite E.
    + by rewrite own_get_set_eq, Hd.
  - by rewrite fill_get_ne.
Qed.

Lemma top_defaults_keys k :
  own_has k top_defaults = bool_decide (k ∈ simple_keys ++ ["exports"])
  ∧ (k ∈ simple_keys ++ ["exports"] → own_get k top_defaults = default_of k).
Proof.
  split.
  - unfold top_defaults. generalize (simple_keys ++ ["exports"]). intros l.
    induction l as [|k0 l IH]; cbn [map own_has]; [done|].
    destruct (decide (k = k0)) as [->|Hne].
    + symmetry. apply bool_decide_eq_true_2. by left.
    + rewrite IH. apply bool_decide_ext. rewrite elem_of_cons.
      split; [by right | by intros [?|?]].
  - unfold top_defaults. generalize (simple_keys ++ ["exports"]). intros l.
    induction l as [|k0 l IH]; cbn [map own_get];
      [intros Hnil; by apply elem_of_nil in Hnil|].
    intros Hin. destruct (decide (k = k0)) as [->|Hne]; [done|].
    apply IH. apply elem_of_cons in Hin as [?|?]; done.
Qed.

(** X15.  The merge, value by value.  On every manifest object it
    succeeds, and
    - a top-level key other than [scripts] keeps its value when that value
      is truthy; otherwise it holds its default when it is one of [type],
      [main], [module], [types], [files], [exports], and is as it was when
      it is not;
    - [scripts] becomes the object of the four default scripts when it was
      missing or falsy, and stays the very value it was when that is a
      truthy number, string or boolean (the assignments to it are dropped);
    - when [scripts] is an object or an array it remains that object or
      array, and each of its entries keeps a truthy value, holds the
      default of a default script name otherwise, and is as it was for any
      other name. *)
Theorem merge_value_by_value ps :
  ∃ ps', merge (VObj ps) = Ok (VObj ps')
    ∧ (∀ k, k ≠ "scripts" →
         own_get k ps'
         = if truthy (own_get k ps) then own_get k ps
           else if bool_decide (k ∈ simple_keys ++ ["exports"]) then default_of k
           else own_get k ps)
    ∧ (truthy (own_get "scripts" ps) = false →
         own_get "scripts" ps' = VObj default_scripts)
    ∧ (truthy (own_get "scripts" ps) = true →
       is_container (own_get "scripts" ps) = false →
         own_get "scripts" ps' = own_get "scripts" ps)
    ∧ (is_container (own_get "scripts" ps) = true →
         own_get "scripts" ps'
         = with_props (own_get "scripts" ps) (props_of (own_get "scripts" ps'))
         ∧ ∀ k, own_get k (props_of (own_get "scripts" ps'))
                = if truthy (own_get k (props_of (own_get "scripts" ps)))
                  then own_get k (props_of (own_get "scripts" ps))
                  else if own_has k default_scripts then own_get k default_scripts
                  else own_get k (props_of (own_get "scripts" ps))).
Proof.
  exists (merged_props ps). split; [apply merge_obj|].
  assert (own_get "scripts" (fills top_defaults ps) = own_get "scripts" ps) as Hs.
  { apply fills_other, scripts_not_top. }
  assert (own_get "scripts" (merged_props ps) = merged_scripts (own_get "scripts" ps))
    as Hm.
  { unfold merged_props. by rewrite own_get_set_eq, Hs. }
  split_and!.
  - intros k Hk. unfold merged_props. rewrite own_get_set_ne by done.
    rewrite (fills_exact _ _ _ top_defaults_truthy).
    destruct (top_defaults_keys k) as [-> Hd].
    destruct (truthy (own_get k ps)); [done|].
    case_bool_decide; [by apply Hd | done].
  - intros Hf. rewrite Hm. unfold merged_scripts. by rewrite Hf.
  - intros Ht Hc. rewrite Hm. unfold merged_scripts. rewrite Ht.
    apply fill_scripts_prim; intros; intros Heq; by rewrite Heq in Hc.
  - intros Hc. rewrite Hm. unfold merged_scripts.
    assert (truthy (own_get "scripts" ps) = true) as -> by (by destruct (own_get "scripts" ps)).
    destruct (own_get "scripts" ps) as [| |b|x|str|es qs|qs]; try done.
    + rewrite fill_scripts_arr. cbn [props_of with_props]. split; [done|].
      intros k. apply fills_exact, default_scripts_truthy.
    + rewrite fill_scripts_obj. cbn [props_of with_props]. split; [done|].
      intros k. apply fills_exact, default_scripts_truthy.
Qed.

(** C1.  The merge does not keep every value that is present: it tests
    for a truthy value where the claim, and the comments of the source
    ([keep existing values unless missing], [preserve existing scripts]),
    speak of a present one.  In the manifest
    [{ name: 'demo', main: '', scripts: { build: '' } }] the key [main]
    and the script [build] are present, and the merge replaces both by
    their defaults. *)
Theorem merge_replaces_present_falsy_values :
  own_has "main" falsy_manifest = true
  ∧ get_prop (own_get "scripts" falsy_manifest) "build" = Ok (VStr EmptyString)
  ∧ merge (VObj falsy_manifest)
    = Ok (VObj
        [ ("name", VStr "demo");
          ("main", VStr "dist/cjs/index.cjs");
          ("scripts",
            VObj [ ("build", VStr "npm run build:js && npm run build:types");
                   ("build:js", VStr "rollup -c");
                   ("build:types", VStr "tsc -p tsconfig.types.json");
                   ("prepublishOnly", VStr "npm run build") ]);
          ("type", VStr "module");
          ("module", VStr "dist/esm/index.js");
          ("types", VStr "dist/types/index.d.ts");
          ("files", VArr [VStr "dist/"] []);
          ("exports",
            VObj [ (".", VObj [ ("import", VStr "./dist/esm/index.js");
                                ("require", VStr "./dist/cjs/index.cjs");
                                ("types", VStr "./dist/types/index.d.ts") ]) ]) ]).
Proof. split_and!; reflexivity. Qed.

(** C1 as stated fails: a key that is present with a falsy value is
    replaced.  The manifest [{ name: 'demo', main: '' }] has a [main],
    and the merge gives it the default entry point. *)
Lemma merge_overwrites_falsy_value :
  ¬ (∀ ps ps' k,
       merge (VObj ps) = Ok (VObj ps') →
       k ∈ ["type"; "main"; "module"; "types"; "files"; "exports"] →
       own_has k ps = true →
       own_get k ps' = own_get k ps).
Proof.
  intros H.
  specialize (H [("name", VStr "demo"); ("main", VStr EmptyString)] _ "main"
                (merge_obj _)).
  discriminate H.
  - apply (bool_decide_unpack _). by vm_compute.
  - reflexivity.
Qed.

(** The merge of the manifest [{ name: 'demo', scripts: { build: 'make' } }]:
    the user's [build] script stays, everything else is filled in. *)
Example merge_sample :
  merge (VObj [("name", VStr "demo"); ("scripts", VObj [("build", VStr "make")])])
  = Ok (VObj
      [ ("name", VStr "demo");
        ("scripts",
          VObj [ ("build", VStr "make");
                 ("build:js", VStr "rollup -c");
                 ("build:types", VStr "tsc -p tsconfig.types.json");
                 ("prepublishOnly", VStr "npm run build") ]);
        ("type", VStr "module");
        ("main", VStr "dist/cjs/index.cjs");
        ("module", VStr "dist/esm/index.js");
        ("types", VStr "dist/types/index.d.ts");
        ("files", VArr [VStr "dist/"] []);
        ("exports",
          VObj [ (".", VObj [ ("import", VStr "./dist/esm/index.js");
                              ("require", VStr "./dist/cjs/index.cjs");
                              ("types", VStr "./dist/types/index.d.ts") ]) ]) ]).
Proof. reflexivity. Qed.

Example merge_falsy_main :
  merge (VObj [("name", VStr "demo"); ("main", VStr EmptyString)])
    ≫= (λ manifest, get_prop manifest "main")
  = Ok (VStr "dist/cjs/index.cjs").
Proof. reflexivity. Qed.

End merge_properties.

(** * Properties of the argument parser *)

Section parser_properties.
Implicit Types (raw rest : list string) (out opts : Opts).

Lemma toLowerCase_nonempty v : toLowerCase v ∈ managers → nonempty v = true.
Proof.
  destruct v; [|done]. simpl. intros H.
  apply (bool_decide_pack _) in H. by vm_compute in H.
Qed.

(** What the loop does on a package-manager flag followed by a value
    that is a supported manager up to letter case. *)
Lemma parse_loop_pkg flag v rest out :
  flag = "--pkg" ∨ flag = "-p" → toLowerCase v ∈ managers →
  parse_loop (flag :: v :: rest) out = parse_loop rest (set_pkg (toLowerCase v) out).
Proof.
  intros Hflag Hv. pose proof (toLowerCase_nonempty v Hv) as Hne.
  destruct Hflag as [-> | ->]; cbn [parse_loop];
    rewrite Hne, (bool_decide_eq_true_2 _ Hv); reflexivity.
Qed.

Lemma parse_loop_plain n raw out :
  (length raw ≤ n)%nat →
  "--pkg" ∉ raw → "-p" ∉ raw → "-h" ∉ raw → "--help" ∉ raw →
  ∃ opts, parse_loop raw out = ([], inl opts) ∧ pkg opts = pkg out.
Proof.
  revert raw out. induction n as [|n IH]; intros raw out Hlen H1 H2 H3 H4.
  { destruct raw; [by exists out | simpl in Hlen; lia]. }
  destruct raw as [|a rest]; [by exists out|].
  apply not_elem_of_cons in H1 as [Ha1 H1], H2 as [Ha2 H2],
      H3 as [Ha3 H3], H4 as [Ha4 H4].
  simpl in Hlen. cbn [parse_loop].
  rewrite (bool_decide_eq_false_2 (a = "-h" ∨ a = "--help"))
    by (intros [?|?]; congruence).
  rewrite (bool_decide_eq_false_2 (a = "--pkg" ∨ a = "-p"))
    by (intros [?|?]; congruence).
  assert (∀ o, pkg o = pkg out →
               ∃ opts, parse_loop rest o = ([], inl opts) ∧ pkg opts = pkg out) as Hrest.
  { intros o <-. apply IH; [lia | done..]. }
  repeat case_bool_decide; try (by apply Hrest).
  destruct rest as [|v rest']; [by apply Hrest|].
  destruct (nonempty v); [|by apply Hrest].
  apply not_elem_of_cons in H1 as [_ H1], H2 as [_ H2],
      H3 as [_ H3], H4 as [_ H4].
  destruct (IH rest' (set_name v out)) as (opts & Hp & Hpkg);
    [simpl in Hlen; lia | done.. |].
  by exists opts.
Qed.

(** C9, amended.  For every non-empty argument list that holds no
    [--pkg]/[-p] and no [-h]/[--help], the parser prints nothing and
    returns a configuration record whose package manager is [npm]. *)
Theorem parseArgs_default_pkg raw :
  raw ≠ [] →
  "--pkg" ∉ raw → "-p" ∉ raw → "-h" ∉ raw → "--help" ∉ raw →
  ∃ opts, parseArgs raw = ([], inl opts) ∧ pkg opts = "npm".
Proof.
  intros Hne H1 H2 H3 H4. destruct raw as [|a rest]; [done|].
  unfold parseArgs.
  by apply (parse_loop_plain (length (a :: rest))).
Qed.

Lemma parseArgs_default_pkg_witness :
  ∃ opts, parseArgs ["--force"; "--name"; "Jane"] = ([], inl opts) ∧ pkg opts = "npm".
Proof.
  apply parseArgs_default_pkg; [done | apply (bool_decide_unpack _); by vm_compute ..].
Defined.

(** C9 as stated fails: on a help flag the parser prints the usage and
    exits, returning no record, whether or not a manager was selected. *)
Lemma parseArgs_help_returns_no_record :
  ¬ (∀ raw, raw ≠ [] → "--pkg" ∉ raw → "-p" ∉ raw →
            ∃ printed opts, parseArgs raw = (printed, inl opts) ∧ pkg opts = "npm").
Proof.
  intros H. destruct (H ["--force"; "--help"]) as (printed & opts & Hp & _).
  - done.
  - apply (bool_decide_unpack _). by vm_compute.
  - apply (bool_decide_unpack _). by vm_compute.
  - vm_compute in Hp. discriminate Hp.
Qed.

(** Flags that take no value, before anything else: the loop goes through
    them and leaves the package manager as it is. *)
Lemma parse_loop_prefix pre l out :
  "--name" ∉ pre → "--pkg" ∉ pre → "-p" ∉ pre → "-h" ∉ pre → "--help" ∉ pre →
  ∃ out', parse_loop (pre ++ l) out = parse_loop l out' ∧ pkg out' = pkg out.
Proof.
  revert out. induction pre as [|a pre IH]; intros out Hn H1 H2 H3 H4.
  { by exists out. }
  apply not_elem_of_cons in Hn as [Han Hn], H1 as [Ha1 H1], H2 as [Ha2 H2],
      H3 as [Ha3 H3], H4 as [Ha4 H4].
  cbn [app parse_loop].
  rewrite (bool_decide_eq_false_2 (a = "-h" ∨ a = "--help"))
    by (intros [?|?]; congruence).
  rewrite (bool_decide_eq_false_2 (a = "--name")) by done.
  rewrite (bool_decide_eq_false_2 (a = "--pkg" ∨ a = "-p"))
    by (intros [?|?]; congruence).
  assert (∀ o, pkg o = pkg out →
               ∃ out', parse_loop (pre ++ l) o = parse_loop l out' ∧ pkg out' = pkg out)
    as Hrest.
  { intros o <-. by apply IH. }
  repeat case_bool_decide; by apply Hrest.
Qed.

(** C10.  A value of [--pkg]/[-p] whose lower-case form is [npm], [pnpm]
    or [yarn] is accepted whatever its letter case.  The loop goes on with
    the lower-cased value stored in the record (no error, no exit); and
    when the flag comes after flags that take no value and no later
    argument selects a manager or asks for help, the parser prints nothing
    and returns a record whose package manager is that lower-cased
    value. *)
Theorem parseArgs_pkg_case_insensitive flag v :
  flag = "--pkg" ∨ flag = "-p" → toLowerCase v ∈ managers →
  (∀ rest out,
     parse_loop (flag :: v :: rest) out = parse_loop rest (set_pkg (toLowerCase v) out))
  ∧ (∀ pre rest,
       "--name" ∉ pre →
       "--pkg" ∉ pre ++ rest → "-p" ∉ pre ++ rest →
       "-h" ∉ pre ++ rest → "--help" ∉ pre ++ rest →
       ∃ opts, parseArgs (pre ++ flag :: v :: rest) = ([], inl opts)
               ∧ pkg opts = toLowerCase v).
Proof.
  intros Hflag Hv. split; [intros rest out; by apply parse_loop_pkg|].
  intros pre rest Hn H1 H2 H3 H4.
  apply not_elem_of_app in H1 as [H1 H1'], H2 as [H2 H2'],
      H3 as [H3 H3'], H4 as [H4 H4'].
  assert (parseArgs (pre ++ flag :: v :: rest)
          = parse_loop (pre ++ flag :: v :: rest) initial_opts) as ->.
  { unfold parseArgs. by destruct pre. }
  destruct (parse_loop_prefix pre (flag :: v :: rest) initial_opts)
    as (out' & -> & _); [done..|].
  rewrite parse_loop_pkg by done.
  by apply (parse_loop_plain (length rest)).
Qed.

Lemma parseArgs_pkg_case_insensitive_witness :
  ∃ opts, parseArgs ["--force"; "-p"; "Yarn"; "--no-install"] = ([], inl opts)
          ∧ pkg opts = "yarn".
Proof.
  refine (proj2 (parseArgs_pkg_case_insensitive "-p" "Yarn" _ _)
            ["--force"] ["--no-install"] _ _ _ _ _);
    first [by right | apply (bool_decide_unpack _); by vm_compute].
Defined.

Example parseArgs_upper_npm :
  parseArgs ["--pkg"; "NPM"] = ([], inl (mkOpts false false None "npm")).
Proof. reflexivity. Qed.

Example parseArgs_mixed_yarn :
  parseArgs ["--no-install"; "-p"; "Yarn"] = ([], inl (mkOpts true false None "yarn")).
Proof. reflexivity. Qed.

Example parseArgs_unknown_manager :
  (parseArgs ["--pkg"; "bun"]).2 = inr 1.
Proof. reflexivity. Qed.
(** Whatever the arguments, the parser only prints, and the author name
    it stores, if any, is not empty. *)
Lemma parse_loop_facts n raw out :
  (length raw ≤ n)%nat →
  (∀ v, name out = Some v → nonempty v = true) →
  Forall is_console (parse_loop raw out).1
  ∧ ∀ opts, (parse_loop raw out).2 = inl opts →
            ∀ v, name opts = Some v → nonempty v = true.
Proof.
  revert raw out. induction n as [|n IH]; intros raw out Hlen Hname.
  { destruct raw; [|simpl in Hlen; lia]. simpl. split; [done|]. by intros opts [= <-]. }
  destruct raw as [|a rest].
  { simpl. split; [done|]. by intros opts [= <-]. }
  simpl in Hlen. cbn [parse_loop].
  assert (∀ o, (∀ v, name o = Some v → nonempty v = true) →
               Forall is_console (parse_loop rest o).1
               ∧ ∀ opts, (parse_loop rest o).2 = inl opts →
                         ∀ v, name opts = Some v → nonempty v = true) as Hrest.
  { intros o Ho. apply IH; [lia | done]. }
  repeat case_bool_decide; try (by apply Hrest);
    try (split; [by repeat constructor | done]).
  - destruct rest as [|v rest']; [by apply Hrest|].
    destruct (nonempty v) eqn:Hv; [|by apply Hrest].
    apply IH; [simpl in Hlen; lia|]. simpl. by intros v' [= <-].
  - destruct rest as [|v rest']; [split; [by repeat constructor | done]|].
    destruct (nonempty v) eqn:Hv; [|split; [by repeat constructor | done]].
    case_bool_decide; [|split; [by repeat constructor | done]].
    apply IH; [simpl in Hlen; lia | done].
Qed.

Lemma parseArgs_prints raw : Forall is_console (parseArgs raw).1.
Proof.
  destruct raw as [|a rest]; [by repeat constructor|].
  by apply (parse_loop_facts (length (a :: rest))).
Qed.

Lemma parseArgs_name raw printed opts v :
  parseArgs raw = (printed, inl opts) → name opts = Some v → nonempty v = true.
Proof.
  intros Hp. destruct raw as [|a rest]; [done|].
  destruct (parse_loop_facts (length (a :: rest)) (a :: rest) initial_opts)
    as [_ Hn]; [done | done |].
  apply Hn. unfold parseArgs in Hp. by rewrite Hp.
Qed.

(** Without [--force] among the arguments the record does not have it. *)
Lemma parse_loop_force n raw out :
  (length raw ≤ n)%nat → "--force" ∉ raw →
  ∀ opts, (parse_loop raw out).2 = inl opts → force opts = force out.
Proof.
  revert raw out. induction n as [|n IH]; intros raw out Hlen Hno.
  { destruct raw; [|simpl in Hlen; lia]. simpl. by intros opts [= <-]. }
  destruct raw as [|a rest]; [simpl; by intros opts [= <-]|].
  apply not_elem_of_cons in Hno as [Ha Hno].
  simpl in Hlen. cbn [parse_loop].
  assert (∀ o, force o = force out →
               ∀ opts, (parse_loop rest o).2 = inl opts → force opts = force out)
    as Hrest.
  { intros o <-. apply IH; [lia | done]. }
  repeat case_bool_decide; try (by apply Hrest); try done.
  - destruct rest as [|v rest']; [by apply Hrest|].
    destruct (nonempty v); [|by apply Hrest].
    apply not_elem_of_cons in Hno as [_ Hno].
    intros opts Hp. by rewrite (IH rest' (set_name v out)) by (done || simpl in Hlen; lia).
  - destruct rest as [|v rest']; [done|].
    destruct (nonempty v); [|done]. case_bool_decide; [|done].
    apply not_elem_of_cons in Hno as [_ Hno].
    intros opts Hp.
    by rewrite (IH rest' (set_pkg (toLowerCase v) out)) by (done || simpl in Hlen; lia).
Qed.

Lemma parseArgs_force raw printed opts :
  "--force" ∉ raw → parseArgs raw = (printed, inl opts) → force opts = false.
Proof.
  intros Hno Hp. destruct raw as [|a rest]; [done|]. unfold parseArgs in Hp.
  rewrite (parse_loop_force (length (a :: rest)) (a :: rest) initial_opts); try done.
  by rewrite Hp.
Qed.

End parser_properties.

(** * The stages of a run *)

Section stages.
Context (h : Host).
Implicit Types (s : State) (opts : Opts) (e : event).

Lemma add_events_nil s : add_events s [] = s.
Proof. destruct s. unfold add_events. simpl. by rewrite app_nil_r. Qed.

Lemma add_events_app s l1 l2 :
  add_events (add_events s l1) l2 = add_events s (l1 ++ l2).
Proof. unfold add_events. simpl. by rewrite app_assoc. Qed.

(** [main] stage by stage. *)
Lemma main_unfold raw s :
  main h raw s =
  match parseArgs raw with
  | (printed, inr code) => (inr (Exit code), add_events s printed)
  | (printed, inl opts) =>
      match main_manifest h (add_events s printed) with
      | (inr x, s2) => (inr x, s2)
      | (inl manifest, s2) =>
          match main_stub h opts s2 with
          | (inr x, s3) => (inr x, s3)
          | (inl _, s3) =>
              match main_templates h opts s3 with
              | (inr x, s4) => (inr x, s4)
              | (inl _, s4) =>
                  match main_license h opts manifest s4 with
                  | (inr x, s5) => (inr x, s5)
                  | (inl _, s5) => main_install h opts s5
                  end
              end
          end
      end
  end.
Proof.
  unfold main, mbind, M_bind, main_args.
  destruct (parseArgs raw) as [printed [opts|code]]; reflexivity.
Qed.

(** ** The manifest stage *)

Lemma main_manifest_result s : manifest_result h s (main_manifest h s).
Proof.
  unfold main_manifest, mbind, M_bind, existsSync.
  destruct (fs s !! pkgPath) as [pkgRaw|] eqn:Hfile.
  2: { rewrite bool_decide_eq_false_2 by (by intros [? ?]).
       apply manifest_missing, Hfile. }
  rewrite bool_decide_eq_true_2 by eauto. cbn [negb].
  unfold readFile. rewrite Hfile.
  destruct (io_fault h OpRead pkgPath) eqn:Hread.
  { eapply manifest_untouched; eauto. }
  destruct (JSON_parse h pkgRaw) as [v|] eqn:Hparse.
  2: { eapply manifest_untouched; eauto. }
  unfold mret, M_ret, writeFile at 1.
  destruct (io_fault h OpWrite (bakPath h)) eqn:Hbak.
  { eapply manifest_untouched; eauto. }
  unfold console_log at 1, emit.
  destruct (merge v) as [manifest|err] eqn:Hmerge.
  2: { eapply manifest_backed_up; eauto. }
  unfold lift, mret, M_ret, writeFile.
  destruct (io_fault h OpWrite pkgPath) eqn:Hwrite.
  { cbn [fs out]. eapply (manifest_backed_up h s pkgRaw v); eauto. }
  eapply manifest_merged; eauto.
Qed.
(** ** The stub source file *)

Lemma main_stub_result opts s : stub_result h opts s (main_stub h opts s).
Proof.
  unfold main_stub, mbind, M_bind, existsSync.
  assert (fs s !! "src/index.js" = None ∨ force opts = true →
          stub_result h opts s
            (match mkdir h "src" s with
             | (inl _, s') =>
                 match writeFile h "src/index.js" stub s' with
                 | (inl _, s'') => console_log "Wrote src/index.js (stub)." s''
                 | (inr x, s'') => (inr x, s'')
                 end
             | (inr x, s') => (inr x, s')
             end)) as Hwrite.
  { intros Hwhy. unfold mkdir. destruct (io_fault h OpMkdir "src") eqn:Hmk.
    { by apply stub_mkdir_failed. }
    unfold writeFile. destruct (io_fault h OpWrite "src/index.js") eqn:Hw.
    { by apply stub_write_failed. }
    by apply stub_written. }
  destruct (decide (is_Some (fs s !! "src/index.js"))) as [Hsome|Hnone].
  - rewrite bool_decide_eq_true_2 by done. cbn [negb orb].
    destruct (force opts) eqn:Hforce; [|by apply stub_skipped].
    apply Hwrite. by right.
  - rewrite bool_decide_eq_false_2 by done. cbn [negb orb].
    apply Hwrite. left. by apply eq_None_not_Some.
Qed.

(** ** [safeWrite] and the loop over the template files *)

Lemma safeWrite_spec fname content force s :
  safeWrite_result h fname content force s (safeWrite h fname content force s).
Proof.
  unfold safeWrite, mbind, M_bind, existsSync.
  assert (∀ s0, try_catch (mkdir h ".") (λ _, mret tt) s0
                = (inl tt, add_events s0 (made_dir h))) as Hmk.
  { intros s0. unfold try_catch, mkdir, made_dir.
    destruct (io_fault h OpMkdir "."); [|done].
    unfold mret, M_ret. by rewrite add_events_nil. }
  destruct (decide (is_Some (fs s !! fname))) as [Hsome|Hnone].
  - rewrite bool_decide_eq_true_2 by done. cbn [andb].
    destruct force; cbn [negb]; [|by apply safeWrite_skipped].
    rewrite Hmk. unfold writeFile.
    destruct (io_fault h OpWrite fname) eqn:Hw; cbn [fs out add_events].
    { apply safeWrite_failed; auto. }
    apply safeWrite_written; auto.
  - rewrite bool_decide_eq_false_2 by done. cbn [andb].
    apply eq_None_not_Some in Hnone.
    rewrite Hmk. unfold writeFile.
    destruct (io_fault h OpWrite fname) eqn:Hw; cbn [fs out add_events].
    { apply safeWrite_failed; auto. }
    apply safeWrite_written; auto.
Qed.

Lemma template_event_cons a l e : template_event l e → template_event (a :: l) e.
Proof. destruct e; simpl; try done. intros Hin. by right. Qed.

(** The loop over a list of template files: only the files of the list
    are written, each with its content; without [--force] no file that
    exists is touched, and when all exist each one is reported as skipped. *)
Lemma for_each_safeWrite l force s :
  ∃ r s' (delta : list event),
    for_each (λ entry, safeWrite h entry.1 entry.2 force) l s = (r, s')
    ∧ out s' = out s ++ delta
    ∧ Forall (template_event l) delta
    ∧ (∀ p, p ∉ l.*1 → fs s' !! p = fs s !! p)
    ∧ (force = false → ∀ p, is_Some (fs s !! p) → fs s' !! p = fs s !! p)
    ∧ (force = false → (∀ p, p ∈ l.*1 → is_Some (fs s !! p)) →
         r = inl tt ∧ fs s' = fs s ∧ delta = skip_line h <$> l.*1)
    ∧ ((∀ p, p ∈ l.*1 → io_fault h OpWrite p = false) → r = inl tt).
Proof.
  revert s. induction l as [|[fname content] l IH]; intros s.
  { exists (inl tt), s, []. simpl. rewrite app_nil_r. split_and!; auto. }
  cbn [for_each]. unfold mbind, M_bind at 1. cbn [fst snd].
  assert (∀ P : Prop, fs s !! fname = None ∨ force = true → force = false →
            (∀ p, p ∈ ((fname, content) :: l).*1 → is_Some (fs s !! p)) → P)
    as Hnot_all.
  { intros P [Hnone|?] Hforce Hall; [|congruence].
    destruct (Hall fname) as [c Hc]; [by left | congruence]. }
  destruct (safeWrite_spec fname content force s) as [Hsome Hforce|err Hwhy Hw|Hwhy Hw].
  - destruct (IH (add_events s [skip_line h fname]))
      as (r & s' & delta & -> & Hout & Hev & Hother & Hkeep & Hskip & Hok).
    exists r, s', (skip_line h fname :: delta).
    cbn [out fs add_events] in *. rewrite <- app_assoc in Hout.
    split_and!; auto.
    + constructor; [done|]. eapply Forall_impl; [done|]. apply template_event_cons.
    + intros p Hp. apply Hother. intros Hin. apply Hp. by right.
    + intros _ Hall. destruct Hskip as (-> & -> & ->); auto.
      intros p Hp. apply Hall. by right.
    + intros Hall. apply Hok. intros p Hp. apply Hall. by right.
  - exists (inr (Uncaught err)), (add_events s (made_dir h)), (made_dir h).
    split_and!; auto.
    + unfold made_dir. destruct (io_fault h OpMkdir "."); repeat constructor.
    + intros Hforce Hall. by apply (Hnot_all _ Hwhy Hforce Hall).
    + intros Hall. rewrite (Hall fname) in Hw; [done | by left].
  - destruct (IH (add_events (written fname content (add_events s (made_dir h)))
                    [Log ("Wrote " +:+ path_join (cwd h) fname)]))
      as (r & s' & delta & -> & Hout & Hev & Hother & Hkeep & Hskip & Hok).
    exists r, s',
      (made_dir h ++ [Wrote fname content; Log ("Wrote " +:+ path_join (cwd h) fname)]
       ++ delta).
    cbn [out fs add_events written] in *.
    split_and!; auto.
    + rewrite Hout. by rewrite <- !app_assoc.
    + apply Forall_app. split.
      { unfold made_dir. destruct (io_fault h OpMkdir "."); repeat constructor. }
      constructor; [by left|]. constructor; [done|].
      eapply Forall_impl; [done|]. apply template_event_cons.
    + intros p Hp. apply not_elem_of_cons in Hp as [Hne Hp]. simpl in Hne.
      rewrite Hother by done. by apply lookup_insert_ne.
    + intros Hforce p Hp. destruct Hwhy as [Hnone|?]; [|congruence].
      assert (fname ≠ p) as Hne by (intros ->; destruct Hp; congruence).
      rewrite Hkeep; [by apply lookup_insert_ne | done |].
      by rewrite lookup_insert_ne.
    + intros Hforce Hall. by apply (Hnot_all _ Hwhy Hforce Hall).
    + intros Hall. apply Hok. intros p Hp. apply Hall. by right.
Qed.

(** ** The LICENSE file *)

Lemma author_name_result opts manifest s :
  author_result h opts manifest s (author_name h opts manifest s).
Proof.
  unfold author_name.
  destruct (name opts) as [n|] eqn:Hname.
  - cbn [truthy]. destruct (nonempty n) eqn:Hn.
    { by apply author_from_flag with (n := n). }
    assert (no_flag opts) as Hflag by (intros n' Hn'; congruence).
    unfold mbind, M_bind, lift.
    destruct (get_prop manifest "author") as [author|err] eqn:Hget.
    2: { by apply author_unreadable. }
    unfold mret, M_ret. destruct (truthy author) eqn:Ht.
    { by apply author_from_manifest. }
    by apply author_from_git with (author := author).
  - cbn [truthy].
    assert (no_flag opts) as Hflag by (intros n' Hn'; congruence).
    unfold mbind, M_bind, lift.
    destruct (get_prop manifest "author") as [author|err] eqn:Hget.
    2: { by apply author_unreadable. }
    unfold mret, M_ret. destruct (truthy author) eqn:Ht.
    { by apply author_from_manifest. }
    by apply author_from_git with (author := author).
Qed.

Lemma main_license_result opts manifest s :
  license_result h opts manifest s (main_license h opts manifest s).
Proof.
  unfold main_license, mbind, M_bind at 1. unfold existsSync at 1.
  assert (fs s !! "LICENSE" = None ∨ force opts = true →
          license_result h opts manifest s
            ((name ← author_name h opts manifest;
              text ← lift (licenseText h (year h) name);
              writeFile h "LICENSE" text;; console_log "Wrote LICENSE") s)) as Hwrite.
  { intros Hwhy. unfold mbind, M_bind.
    pose proof (author_name_result opts manifest s) as Hauthor.
    destruct (author_name h opts manifest s) as [[who|[code|err]] s1].
    - destruct (licenseText h (year h) who) as [text|err] eqn:Htext; unfold lift.
      2: { by eapply license_no_text. }
      unfold mret, M_ret, writeFile.
      destruct (io_fault h OpWrite "LICENSE") eqn:Hw.
      { by eapply license_write_failed. }
      by eapply license_written.
    - inversion Hauthor.
    - by apply license_no_author. }
  destruct (decide (is_Some (fs s !! "LICENSE"))) as [Hsome|Hnone].
  - rewrite bool_decide_eq_true_2 by done. cbn [negb orb].
    destruct (force opts) eqn:Hforce; [|by apply license_skipped].
    apply Hwrite. by right.
  - rewrite bool_decide_eq_false_2 by done. cbn [negb orb].
    apply Hwrite. left. by apply eq_None_not_Some.
Qed.

(** ** The installation *)

Lemma runCmd_eq cmd args s :
  runCmd h cmd args s =
  (if bool_decide (installer_close h cmd args = Some 0) then inl tt
   else inr (Uncaught (Error (cmd +:+ " exited "
                               +:+ show_code (installer_close h cmd args)))),
   add_events s [Spawn cmd args]).
Proof.
  unfold runCmd, mbind, M_bind, emit, add_events.
  destruct (installer_close h cmd args) as [[|p|p]|]; reflexivity.
Qed.

Lemma main_install_result opts s : install_result h opts s (main_install h opts s).
Proof.
  unfold main_install.
  destruct (noInstall opts) eqn:Hno.
  { pose proof (install_skipped h opts s Hno) as Hskip.
    unfold mbind, M_bind, console_log, emit, process_exit, add_events in *.
    cbn [fs out] in *. rewrite <- app_assoc. exact Hskip. }
  unfold mbind, M_bind at 1. unfold console_log at 1, emit at 1.
  unfold try_catch, mbind, M_bind.
  destruct (install_command (pkg opts)) as [[cmd args]|] eqn:Hcmd.
  - assert ((if bool_decide (pkg opts = "npm")
             then runCmd h "npm" ("install" :: "--save-dev" :: devDeps)
             else if bool_decide (pkg opts = "pnpm")
                  then runCmd h "pnpm" ("add" :: "-D" :: devDeps)
                  else if bool_decide (pkg opts = "yarn")
                       then runCmd h "yarn" ("add" :: "--dev" :: devDeps)
                       else throw (Error ("Unsupported package manager: " +:+ pkg opts)))
            = runCmd h cmd args) as ->.
    { unfold install_command in Hcmd.
      repeat case_bool_decide; by simplify_eq. }
    rewrite runCmd_eq. case_bool_decide as Hclose.
    + pose proof (install_done h opts s cmd args Hno Hcmd Hclose) as Hdone.
      unfold console_log, emit, add_events in *. cbn [fs out] in *.
      rewrite <- !app_assoc. exact Hdone.
    + cbn [message]. unfold console_error, emit. cbn [fs out].
      pose proof (install_failed h opts s cmd args Hno Hcmd Hclose) as Hfail.
      unfold retry_advice in Hfail. unfold add_events in *. cbn [fs out] in *.
      repeat case_bool_decide; unfold mret, M_ret, process_exit, emit;
        cbn [fs out app] in *; rewrite <- ?app_assoc; exact Hfail.
  - pose proof (install_unsupported h opts s Hno Hcmd) as Hfail.
    unfold install_command in Hcmd.
    repeat case_bool_decide; try discriminate Hcmd.
    unfold throw, console_error, emit, mret, M_ret, process_exit.
    unfold add_events in *. cbn [fs out message] in *.
    rewrite <- ?app_assoc. exact Hfail.
Qed.
(** ** The whole run *)

Lemma main_templates_result opts s :
  templates_result h opts s (main_templates h opts s).
Proof.
  unfold main_templates, templates_result.
  destruct (for_each_safeWrite DEFAULT_FILES (force opts) s)
    as (r & s' & delta & -> & Hout & Hev & Hother & Hkeep & Hskip & Hok).
  exists delta. cbn [fst snd]. split_and!; auto.
Qed.

Lemma run_result_spec raw files : run_result h raw files (run h raw files).
Proof.
  unfold run. rewrite main_unfold.
  destruct (parseArgs raw) as [printed [opts|code]] eqn:Hparse.
  2: { by apply run_parse_exit. }
  change (add_events (mkState files []) printed) with (mkState files printed).
  pose proof (main_manifest_result (mkState files printed)) as Hm.
  destruct (main_manifest h (mkState files printed)) as [[manifest|x] s2].
  2: { by eapply run_manifest_stop. }
  pose proof (main_stub_result opts s2) as Hs.
  destruct (main_stub h opts s2) as [[[]|x] s3].
  2: { by eapply run_stub_stop. }
  pose proof (main_templates_result opts s3) as Ht.
  destruct (main_templates h opts s3) as [[[]|x] s4].
  2: { by eapply run_templates_stop. }
  pose proof (main_license_result opts manifest s4) as Hl.
  destruct (main_license h opts manifest s4) as [[[]|x] s5].
  2: { by eapply run_license_stop. }
  pose proof (main_install_result opts s5) as Hi.
  by eapply run_to_install.
Qed.
(** ** Paths *)

Lemma bakPath_not_manifest : bakPath h ≠ pkgPath.
Proof. unfold bakPath. generalize (pretty (now h) +:+ ".json"). by intros t [=]. Qed.

Lemma bakPath_not_stub : bakPath h ≠ "src/index.js".
Proof. unfold bakPath. generalize (pretty (now h) +:+ ".json"). by intros t [=]. Qed.

Lemma bakPath_not_license : bakPath h ≠ "LICENSE".
Proof. unfold bakPath. generalize (pretty (now h) +:+ ".json"). by intros t [=]. Qed.

Lemma bakPath_not_template : bakPath h ∉ DEFAULT_FILES.*1.
Proof.
  unfold bakPath. generalize (pretty (now h) +:+ ".json"). intros t.
  cbn [DEFAULT_FILES fmap list_fmap fst].
  rewrite !not_elem_of_cons. split_and!; try (by intros [=]). apply not_elem_of_nil.
Qed.

Lemma template_names :
  DEFAULT_FILES.*1
  = ["rollup.config.js"; "tsconfig.types.json"; ".gitignore"; ".npmignore"; "README.md"].
Proof. reflexivity. Qed.

Lemma template_file_name p content :
  (p, content) ∈ DEFAULT_FILES → p ∈ DEFAULT_FILES.*1.
Proof. intros Hin. by apply (list_elem_of_fmap_2 fst) in Hin. Qed.

(** ** What each stage adds to the trace *)

Section trace.
Context (raw : list string) (files : gmap string string).

Lemma author_result_chain printed opts v manifest s who s1 :
  parseArgs raw = (printed, inl opts) →
  merge v = Ok manifest →
  author_result h opts manifest s (inl who, s1) →
  ∃ author, get_prop v "author" = Ok author
            ∧ who = author_chain (name opts) author (git_user_name h).
Proof.
  intros Hparse Hmerge Hres.
  assert (∀ author, no_flag opts → get_prop manifest "author" = Ok author →
            get_prop v "author" = Ok author ∧ name opts = None) as Hfield.
  { intros author Hflag Hget. split; [by rewrite <- (merge_author v manifest)|].
    destruct (name opts) as [n|] eqn:Hn; [|done].
    pose proof (parseArgs_name raw printed opts n Hparse Hn).
    rewrite (Hflag n) in H; done. }
  inversion Hres as [n Hn Hne|?|author Hflag Hget Ht|author Hflag Hget Ht]; subst.
  - destruct (is_container v) eqn:Hv; [|by rewrite merge_primitive in Hmerge].
    exists (own_get "author" (props_of v)).
    split; [by apply get_prop_container|]. by rewrite Hn.
  - destruct (Hfield who Hflag Hget) as [Hv Hnone].
    exists who. split; [done|]. by rewrite Hnone; cbn [author_chain]; rewrite Ht.
  - destruct (Hfield author Hflag Hget) as [Hv Hnone].
    exists author. split; [done|]. by rewrite Hnone; cbn [author_chain]; rewrite Ht.
Qed.

Lemma manifest_trace printed r s' :
  manifest_result h (mkState files printed) (r, s') →
  Forall (run_event h raw files) printed →
  Forall (run_event h raw files) (out s').
Proof.
  intros Hres Hinv. inversion Hres; subst; cbn [out add_events written];
    rewrite ?Forall_app; split_and?; try done; repeat constructor;
    cbn [run_event fs] in *; first [done | by left | by right; left].
Qed.

Lemma stub_trace opts s r s' :
  stub_result h opts s (r, s') →
  Forall (run_event h raw files) (out s) →
  Forall (run_event h raw files) (out s').
Proof.
  intros Hres Hinv. inversion Hres; subst; cbn [out add_events written];
    rewrite ?Forall_app; split_and?; try done; repeat constructor;
    cbn [run_event]; first [done | by right; right; left].
Qed.

Lemma templates_trace opts s r s' :
  templates_result h opts s (r, s') →
  Forall (run_event h raw files) (out s) →
  Forall (run_event h raw files) (out s').
Proof.
  intros (delta & Hout & Hev & _) Hinv. cbn [snd] in Hout. rewrite Hout.
  apply Forall_app. split; [done|].
  eapply Forall_impl; [done|]. intros [] He; cbn [template_event run_event] in *;
    first [done | by do 3 right; left].
Qed.

Lemma license_trace printed opts pkgRaw v manifest s r s' :
  parseArgs raw = (printed, inl opts) →
  files !! pkgPath = Some pkgRaw →
  JSON_parse h pkgRaw = Some v →
  merge v = Ok manifest →
  license_result h opts manifest s (r, s') →
  Forall (run_event h raw files) (out s) →
  Forall (run_event h raw files) (out s').
Proof.
  intros Hparse Hfile Hjson Hmerge Hres Hinv.
  assert (∀ x s1, author_result h opts manifest s (x, s1) →
                  Forall (run_event h raw files) (out s1)) as Hauthor.
  { intros x s1 Ha. inversion Ha; subst; cbn [out add_events];
      rewrite ?Forall_app; split_and?; try done; by repeat constructor. }
  inversion Hres as [Hsome Hforce
                    |err s1 Hwhy Ha
                    |who err s1 Hwhy Ha Htext
                    |who text err s1 Hwhy Ha Htext Hw
                    |who text s1 Hwhy Ha Htext Hw]; subst.
  - cbn [out add_events]. apply Forall_app. split; [done | by repeat constructor].
  - by eapply Hauthor.
  - by eapply Hauthor.
  - by eapply Hauthor.
  - cbn [out add_events written]. rewrite !Forall_app. split_and!.
    + by eapply Hauthor.
    + apply Forall_singleton. cbn [run_event]. do 4 right. split; [done|].
      destruct (author_result_chain printed opts v manifest s who s1)
        as (author & Hget & ->); [done..|].
      unfold licenseText in Htext.
      destruct (ToString (Number_toString h)
                  (author_chain (name opts) author (git_user_name h)))
        as [text'|] eqn:Hto; [|done].
      rewrite bind_Ok in Htext. injection Htext as <-.
      by exists printed, opts, pkgRaw, v, author, text'.
    + by repeat constructor.
Qed.

Lemma install_trace printed opts s r s' :
  parseArgs raw = (printed, inl opts) →
  install_result h opts s (r, s') →
  Forall (run_event h raw files) (out s) →
  Forall (run_event h raw files) (out s').
Proof.
  intros Hparse Hres Hinv. inversion Hres; subst; cbn [out add_events];
    rewrite ?Forall_app; split_and?; try done; repeat constructor;
    cbn [run_event]; eauto.
  unfold retry_advice. repeat case_bool_decide; by repeat constructor.
Qed.

(** Every event of a run is one of those listed by [run_event]. *)
Lemma run_events : Forall (run_event h raw files) (events (run h raw files)).
Proof.
  unfold events.
  destruct (run_result_spec raw files)
    as [printed code Hparse
       |printed opts x s2 Hparse Hm
       |printed opts manifest s2 x s3 Hparse Hm Hs
       |printed opts manifest s2 s3 x s4 Hparse Hm Hs Ht
       |printed opts manifest s2 s3 s4 x s5 Hparse Hm Hs Ht Hl
       |printed opts manifest s2 s3 s4 s5 [r s6] Hparse Hm Hs Ht Hl Hi];
    cbn [snd out];
    (assert (Forall (run_event h raw files) printed) as Hp;
     [ pose proof (parseArgs_prints raw) as Hc; rewrite Hparse in Hc;
       eapply Forall_impl; [exact Hc|]; by intros []
     | ]);
    try done.
  - by eapply manifest_trace.
  - eapply stub_trace; [done|]. by eapply manifest_trace.
  - eapply templates_trace; [done|]. eapply stub_trace; [done|].
    by eapply manifest_trace.
  - inversion Hm; subst.
    eapply license_trace; [done..|]. eapply templates_trace; [done|].
    eapply stub_trace; [done|]. by eapply manifest_trace.
  - inversion Hm; subst.
    eapply install_trace; [done..|].
    eapply license_trace; [done..|]. eapply templates_trace; [done|].
    eapply stub_trace; [done|]. by eapply manifest_trace.
Qed.
End trace.
(** ** What each stage leaves alone *)

Lemma prefix_add_events s l : out s `prefix_of` out (add_events s l).
Proof. by exists l. Qed.

Lemma manifest_frame s r s' :
  manifest_result h s (r, s') →
  out s `prefix_of` out s'
  ∧ ∀ p, p ≠ bakPath h → p ≠ pkgPath → fs s' !! p = fs s !! p.
Proof.
  inversion 1; subst; cbn [out fs add_events written]; split;
    try done; try (by eexists); try (by rewrite <- ?app_assoc; eexists);
    intros p Hb Hp; by rewrite ?lookup_insert_ne.
Qed.

Lemma stub_frame opts s r s' :
  stub_result h opts s (r, s') →
  out s `prefix_of` out s'
  ∧ (∀ p, p ≠ "src/index.js" → fs s' !! p = fs s !! p)
  ∧ (is_Some (fs s !! "src/index.js") → force opts = false →
       r = inl tt ∧ s' = add_events s [Log "Skipping src/index.js (exists)."]).
Proof.
  assert (∀ P : Prop, fs s !! "src/index.js" = None ∨ force opts = true →
            is_Some (fs s !! "src/index.js") → force opts = false → P) as Hno.
  { intros P [Hnone|?] [c Hc] ?; congruence. }
  inversion 1; subst; cbn [out fs add_events written]; split_and!;
    try done; try (by eexists); try (by rewrite <- ?app_assoc; eexists);
    try (by intros; eapply Hno);
    intros p Hp; by rewrite ?lookup_insert_ne.
Qed.

Lemma author_frame opts manifest s r s' :
  author_result h opts manifest s (r, s') →
  out s `prefix_of` out s' ∧ fs s' = fs s.
Proof. inversion 1; subst; cbn [out fs add_events]; split; try done; by eexists. Qed.

Lemma license_frame opts manifest s r s' :
  license_result h opts manifest s (r, s') →
  out s `prefix_of` out s'
  ∧ (∀ p, p ≠ "LICENSE" → fs s' !! p = fs s !! p)
  ∧ (is_Some (fs s !! "LICENSE") → force opts = false →
       r = inl tt ∧ s' = add_events s [Log "Skipping LICENSE (exists)."]).
Proof.
  assert (∀ P : Prop, fs s !! "LICENSE" = None ∨ force opts = true →
            is_Some (fs s !! "LICENSE") → force opts = false → P) as Hno.
  { intros P [Hnone|?] [c Hc] ?; congruence. }
  inversion 1 as [Hsome Hforce
                 |err s1 Hwhy Ha
                 |who err s1 Hwhy Ha Htext
                 |who text err s1 Hwhy Ha Htext Hw
                 |who text s1 Hwhy Ha Htext Hw]; subst;
    try (destruct (author_frame _ _ _ _ _ Ha) as [Hpre Hfs]);
    cbn [out fs add_events written]; split_and!;
    try done; try (by eexists); try (by intros; eapply Hno);
    try (by intros; rewrite Hfs).
  - destruct Hpre as [k ->]. rewrite <- !app_assoc. by eexists.
  - intros p Hp. by rewrite lookup_insert_ne, Hfs.
Qed.

Lemma install_frame opts s r s' :
  install_result h opts s (r, s') → out s `prefix_of` out s' ∧ fs s' = fs s.
Proof. inversion 1; subst; cbn [out fs add_events]; split; try done; by eexists. Qed.

Lemma templates_frame opts s r s' :
  templates_result h opts s (r, s') →
  out s `prefix_of` out s' ∧ (∀ p, p ∉ DEFAULT_FILES.*1 → fs s' !! p = fs s !! p).
Proof. intros (delta & Hout & _ & Hother & _). split; [by exists delta | done]. Qed.

(** The files the stages after the manifest may write. *)
Lemma generated_files_eq :
  generated_files
  = ["src/index.js"; "rollup.config.js"; "tsconfig.types.json"; ".gitignore";
     ".npmignore"; "README.md"; "LICENSE"].
Proof. reflexivity. Qed.

Lemma not_generated p :
  p ∉ generated_files →
  p ≠ "src/index.js" ∧ (p ∉ DEFAULT_FILES.*1) ∧ p ≠ "LICENSE".
Proof.
  rewrite generated_files_eq, template_names, !not_elem_of_cons.
  intros (? & ? & ? & ? & ? & ? & ? & Hnil). by split_and!.
Qed.

Lemma bakPath_not_generated : bakPath h ∉ generated_files.
Proof.
  unfold bakPath. generalize (pretty (now h) +:+ ".json"). intros t.
  rewrite generated_files_eq, !not_elem_of_cons.
  split_and!; try (by intros [=]). apply not_elem_of_nil.
Qed.

Lemma pkgPath_not_generated : pkgPath ∉ generated_files.
Proof. apply (bool_decide_unpack _). by vm_compute. Qed.

(** A run is the argument parser, then the manifest stage, then stages
    that only add to the trace and only touch the generated files. *)
Lemma run_after_manifest raw files :
  (∃ printed code,
      parseArgs raw = (printed, inr code)
      ∧ run h raw files = (inr (Exit code), mkState files printed))
  ∨ (∃ printed opts x s2,
      parseArgs raw = (printed, inl opts)
      ∧ manifest_result h (mkState files printed) (x, s2)
      ∧ out s2 `prefix_of` events (run h raw files)
      ∧ (∀ p, p ∉ generated_files → final_fs (run h raw files) !! p = fs s2 !! p)
      ∧ (∀ stop, x = inr stop → run h raw files = (inr stop, s2))).
Proof.
  unfold events, final_fs.
  destruct (run_result_spec raw files)
    as [printed code Hparse
       |printed opts x s2 Hparse Hm
       |printed opts manifest s2 x s3 Hparse Hm Hs
       |printed opts manifest s2 s3 x s4 Hparse Hm Hs Ht
       |printed opts manifest s2 s3 s4 x s5 Hparse Hm Hs Ht Hl
       |printed opts manifest s2 s3 s4 s5 [r s6] Hparse Hm Hs Ht Hl Hi];
    [left; by exists printed, code | right ..].
  - exists printed, opts, (inr x), s2. split_and!; try done. by intros stop [= ->].
  - exists printed, opts, (inl manifest), s2. cbn [snd].
    destruct (stub_frame _ _ _ _ Hs) as (Hp3 & Hf3 & _).
    split_and!; try done.
    intros p Hp. apply not_generated in Hp as (? & ? & ?). by apply Hf3.
  - exists printed, opts, (inl manifest), s2. cbn [snd].
    destruct (stub_frame _ _ _ _ Hs) as (Hp3 & Hf3 & _).
    destruct (templates_frame _ _ _ _ Ht) as (Hp4 & Hf4).
    split_and!; try done; [by etrans|].
    intros p Hp. apply not_generated in Hp as (? & ? & ?).
    by rewrite Hf4, Hf3.
  - exists printed, opts, (inl manifest), s2. cbn [snd].
    destruct (stub_frame _ _ _ _ Hs) as (Hp3 & Hf3 & _).
    destruct (templates_frame _ _ _ _ Ht) as (Hp4 & Hf4).
    destruct (license_frame _ _ _ _ _ Hl) as (Hp5 & Hf5 & _).
    split_and!; try done; [by repeat (etrans; [eassumption|])|].
    intros p Hp. apply not_generated in Hp as (? & ? & ?).
    by rewrite Hf5, Hf4, Hf3.
  - exists printed, opts, (inl manifest), s2. cbn [snd].
    destruct (stub_frame _ _ _ _ Hs) as (Hp3 & Hf3 & _).
    destruct (templates_frame _ _ _ _ Ht) as (Hp4 & Hf4).
    destruct (license_frame _ _ _ _ _ Hl) as (Hp5 & Hf5 & _).
    destruct (install_frame _ _ _ _ Hi) as (Hp6 & Hf6).
    split_and!; try done; [by repeat (etrans; [eassumption|])|].
    intros p Hp. apply not_generated in Hp as (? & ? & ?).
    by rewrite Hf6, Hf5, Hf4, Hf3.
Qed.
(** ** No installer before the installation stage *)

Lemma manifest_no_spawn s r s' :
  manifest_result h s (r, s') → Forall not_spawn (out s) → Forall not_spawn (out s').
Proof.
  intros Hres Hinv. inversion Hres; subst; cbn [out add_events written];
    rewrite ?Forall_app; split_and?; try done; by repeat constructor.
Qed.

Lemma stub_no_spawn opts s r s' :
  stub_result h opts s (r, s') → Forall not_spawn (out s) → Forall not_spawn (out s').
Proof.
  intros Hres Hinv. inversion Hres; subst; cbn [out add_events written];
    rewrite ?Forall_app; split_and?; try done; by repeat constructor.
Qed.

Lemma templates_no_spawn opts s r s' :
  templates_result h opts s (r, s') → Forall not_spawn (out s) → Forall not_spawn (out s').
Proof.
  intros (delta & Hout & Hev & _) Hinv. cbn [snd] in Hout. rewrite Hout.
  apply Forall_app. split; [done|].
  eapply Forall_impl; [done|]. by intros [].
Qed.

Lemma license_no_spawn opts manifest s r s' :
  license_result h opts manifest s (r, s') →
  Forall not_spawn (out s) → Forall not_spawn (out s').
Proof.
  intros Hres Hinv.
  assert (∀ x s1, author_result h opts manifest s (x, s1) →
                  Forall not_spawn (out s1)) as Hauthor.
  { intros x s1 Ha. inversion Ha; subst; cbn [out add_events];
      rewrite ?Forall_app; split_and?; try done; by repeat constructor. }
  inversion Hres; subst; cbn [out add_events written];
    rewrite ?Forall_app; split_and?; eauto; by repeat constructor.
Qed.

Lemma not_spawn_elem l cmd args : Forall not_spawn l → Spawn cmd args ∉ l.
Proof. rewrite Forall_forall. intros Hall Hin. by apply (Hall _ Hin). Qed.

Lemma console_not_spawn l : Forall is_console l → Forall not_spawn l.
Proof. intros Hl. eapply Forall_impl; [done|]. by intros []. Qed.

(** The first write of a trace that starts with console output. *)
Lemma first_write (l1 : list event) x t before y after :
  Forall is_console l1 → ¬ is_console y → x ≠ y →
  l1 ++ x :: t = before ++ y :: after → x ∈ before.
Proof.
  intros Hl Hy Hne. revert before.
  induction l1 as [|a l1 IH]; intros before Heq.
  - destruct before as [|b before]; simpl in Heq; [congruence|].
    injection Heq as <- _. by left.
  - apply Forall_cons in Hl as [Ha Hl].
    destruct before as [|b before]; simpl in Heq.
    + injection Heq as -> _. done.
    + injection Heq as <- Heq. right. by apply IH.
Qed.

Lemma console_no_write (l : list event) before p content after :
  Forall is_console l → l ≠ before ++ Wrote p content :: after.
Proof.
  intros Hl ->. apply Forall_app in Hl as [_ Hl].
  by apply Forall_cons in Hl as [Hw _].
Qed.
End stages.

(** * Properties of a run *)

Lemma parseArgs_console raw printed r :
  parseArgs raw = (printed, r) → Forall is_console printed.
Proof. intros Hp. pose proof (parseArgs_prints raw) as H. by rewrite Hp in H. Qed.

(** C5, amended.  In a directory without [package.json] a run writes no
    file (the directory is left as it was and the trace holds console
    output only: no template, no backup, no [mkdir], no child process).
    It exits with code 1 whenever the argument parser returns a
    configuration; when the parser itself ends the run, the exit code is
    the parser's (0 for no argument or a help flag, 1 for a bad [--pkg]). *)
Theorem missing_manifest_writes_nothing h raw files :
  files !! pkgPath = None →
  final_fs (run h raw files) = files
  ∧ Forall is_console (events (run h raw files))
  ∧ (∀ printed opts, parseArgs raw = (printed, inl opts) →
       outcome (run h raw files) = inr (Exit 1))
  ∧ (∀ printed code, parseArgs raw = (printed, inr code) →
       outcome (run h raw files) = inr (Exit code)).
Proof.
  intros Hnone.
  destruct (run_after_manifest h raw files)
    as [(printed & code & Hparse & ->)
       |(printed & opts & x & s2 & Hparse & Hm & _ & _ & Hstop)].
  - cbn. split_and!; [done | by eapply parseArgs_console | congruence | congruence].
  - inversion Hm; subst; cbn [fs] in *; try congruence.
    rewrite (Hstop _ eq_refl). cbn. split_and!; [done | | done | congruence].
    apply Forall_app. split; [by eapply parseArgs_console | by repeat constructor].
Qed.

Lemma missing_manifest_writes_nothing_witness :
  final_fs (run sample_host ["--force"] ∅) = ∅
  ∧ Forall is_console (events (run sample_host ["--force"] ∅))
  ∧ (∀ printed opts, parseArgs ["--force"] = (printed, inl opts) →
       outcome (run sample_host ["--force"] ∅) = inr (Exit 1))
  ∧ (∀ printed code, parseArgs ["--force"] = (printed, inr code) →
       outcome (run sample_host ["--force"] ∅) = inr (Exit code)).
Proof. apply missing_manifest_writes_nothing. reflexivity. Defined.

(** C5 as stated fails: started without arguments in a directory that has
    no manifest, the tool prints its usage and exits with code 0. *)
Lemma missing_manifest_exit_code_0 :
  ¬ (∀ h raw files,
       files !! pkgPath = None →
       final_fs (run h raw files) = files
       ∧ outcome (run h raw files) = inr (Exit 1)).
Proof.
  intros H. destruct (H sample_host [] ∅) as [_ Hcode]; [done|].
  vm_compute in Hcode. discriminate Hcode.
Qed.

(** Whenever the manifest is rewritten, the backup has been written
    earlier in the run, with the text the manifest was read as.  When the
    write of the backup fails, no file is written at all. *)
Lemma backup_written_first h raw files :
  (∀ before content after,
     events (run h raw files) = before ++ Wrote pkgPath content :: after →
     ∃ pkgRaw,
       files !! pkgPath = Some pkgRaw
       ∧ Wrote (bakPath h) pkgRaw ∈ before)
  ∧ (io_fault h OpWrite (bakPath h) = true →
     final_fs (run h raw files) = files
     ∧ Forall is_console (events (run h raw files))).
Proof.
  destruct (run_after_manifest h raw files)
    as [(printed & code & Hparse & Hrun)
       |(printed & opts & x & s2 & Hparse & Hm & Hpre & Hframe & Hstop)].
  { rewrite Hrun. cbn. pose proof (parseArgs_console _ _ _ Hparse) as Hc.
    split; [|done]. intros before content after Heq.
    by destruct (console_no_write printed before pkgPath content after). }
  pose proof (parseArgs_console _ _ _ Hparse) as Hc.
  inversion Hm as [Hnone
                  |pkgRaw err Hfile Hwhy
                  |pkgRaw v err Hfile Hread Hjson Hbak Hwhy
                  |pkgRaw v manifest Hfile Hread Hjson Hbak Hmerge Hwrite];
    subst; cbn [fs] in *.
  - rewrite (Hstop _ eq_refl). cbn.
    assert (Forall is_console (printed ++ [Err no_manifest_message])) as Hall.
    { apply Forall_app. split; [done | by repeat constructor]. }
    split; [|done]. intros before content after Heq.
    by destruct (console_no_write _ before pkgPath content after Hall).
  - rewrite (Hstop _ eq_refl). cbn. split; [|done].
    intros before content after Heq.
    by destruct (console_no_write printed before pkgPath content after).
  - rewrite (Hstop _ eq_refl). cbn. split; [|congruence].
    intros before content after Heq. exists pkgRaw.
    rewrite <- app_assoc in Heq. cbn [app] in Heq.
    split; [done|].
    eapply (first_write printed _ _ before (Wrote pkgPath content) after Hc);
      [by intros [] | | exact Heq].
    intros Hx. apply (bakPath_not_manifest h). congruence.
  - split; [|congruence].
    intros before content after Heq. exists pkgRaw.
    destruct Hpre as [k Hk]. rewrite Hk in Heq.
    cbn [out add_events written] in Heq.
    rewrite <- !app_assoc in Heq. cbn [app] in Heq.
    split; [done|].
    eapply (first_write printed _ _ before (Wrote pkgPath content) after Hc);
      [by intros [] | | exact Heq].
    intros Hx. apply (bakPath_not_manifest h). congruence.
Qed.

(** What the writes of a trace leave on disk. *)
Lemma replay_snoc l e disk :
  replay (l ++ [e]) disk
  = match e with
    | Wrote p content => <[p := content]> (replay l disk)
    | _ => replay l disk
    end.
Proof. unfold replay. by rewrite foldl_app. Qed.

Lemma replay_console l disk : Forall is_console l → replay l disk = disk.
Proof.
  induction l as [|e l IH] using rev_ind; intros Hl; [done|].
  apply Forall_app in Hl as [Hl He]. apply Forall_cons in He as [He _].
  rewrite replay_snoc. destruct e; try done; by apply IH.
Qed.

Lemma replay_lookup l disk p content :
  (∀ c, Wrote p c ∈ l → c = content) → Wrote p content ∈ l →
  replay l disk !! p = Some content.
Proof.
  induction l as [|e l IH] using rev_ind; intros Hall Hin.
  { by apply elem_of_nil in Hin. }
  rewrite replay_snoc.
  assert (∀ c, Wrote p c ∈ l → c = content) as Hall'.
  { intros c Hc. apply Hall, elem_of_app. by left. }
  apply elem_of_app in Hin as [Hin|Hin%list_elem_of_singleton].
  - destruct e as [| | |q c| |]; try (by apply IH).
    destruct (decide (q = p)) as [->|Hne].
    + rewrite lookup_insert_eq. f_equal. apply Hall, elem_of_app. right. by left.
    + rewrite lookup_insert_ne by done. by apply IH.
  - subst e. by rewrite lookup_insert_eq.
Qed.

Lemma string_app_length s t :
  String.length (s +:+ t) = (String.length s + String.length t)%nat.
Proof. induction s as [|c s IH]; simpl; [done | by rewrite IH]. Qed.

Lemma string_app_inv_tail s1 s2 t : s1 +:+ t = s2 +:+ t → s1 = s2.
Proof.
  intros Heq.
  assert (String.length s1 = String.length s2) as Hlen.
  { apply (f_equal String.length) in Heq. rewrite !string_app_length in Heq. lia. }
  revert s2 Heq Hlen. induction s1 as [|c s1 IH]; intros [|c' s2] Heq Hlen;
    try done.
  simpl in *. injection Heq as -> Heq. f_equal. apply IH; [done | lia].
Qed.

(** C3, amended.  Whenever the manifest is rewritten, the backup has been
    written earlier in the run.  Its content is the text the manifest was
    read as: the bytes of the manifest decoded as UTF-8 and encoded again,
    which the backup file still holds when the run ends.  These are the
    bytes of the manifest, one for one, when the manifest is well-formed
    UTF-8.  When the write of the backup fails, no file is written at
    all: the directory, and the manifest in it, is left as it was.  The
    backup is named after the clock, [package.json.setup-backup.<ms>.json]
    with the reading of [Date.now()] in decimal, so that runs at different
    readings of the clock write different backup files. *)
Theorem backup_precedes_rewrite h raw disk :
  (∀ before content after,
     events (run h raw (as_text disk)) = before ++ Wrote pkgPath content :: after →
     ∃ bytes,
       disk !! pkgPath = Some bytes
       ∧ Wrote (bakPath h) (read_utf8 bytes) ∈ before
       ∧ disk_after disk (run h raw (as_text disk)) !! bakPath h
         = Some (read_utf8 bytes)
       ∧ (well_formed_utf8 (bytes_of_string bytes) = true →
          disk_after disk (run h raw (as_text disk)) !! bakPath h = Some bytes))
  ∧ (io_fault h OpWrite (bakPath h) = true →
     disk_after disk (run h raw (as_text disk)) = disk
     ∧ Forall is_console (events (run h raw (as_text disk))))
  ∧ bakPath h = "package.json.setup-backup." +:+ pretty (now h) +:+ ".json"
  ∧ (∀ h', now h' ≠ now h → bakPath h' ≠ bakPath h).
Proof.
  destruct (backup_written_first h raw (as_text disk)) as [Hfirst Hfail].
  split_and!.
  - intros before content after Heq.
    destruct (Hfirst before content after Heq) as (pkgRaw & Hfile & Hin).
    unfold as_text in Hfile. rewrite lookup_fmap in Hfile.
    destruct (disk !! pkgPath) as [bytes|] eqn:Hdisk; [|done].
    injection Hfile as <-. exists bytes.
    assert (disk_after disk (run h raw (as_text disk)) !! bakPath h
            = Some (read_utf8 bytes)) as Hbak.
    { unfold disk_after. apply replay_lookup.
      - intros c Hc. pose proof (run_events h raw (as_text disk)) as Hall.
        rewrite Forall_forall in Hall. specialize (Hall _ Hc). cbn [run_event] in Hall.
        destruct Hall as [[_ Hc']|[Hp|[[Hp _]|[Hp|[Hp _]]]]].
        + unfold as_text in Hc'. rewrite lookup_fmap, Hdisk in Hc'. by injection Hc'.
        + by destruct (bakPath_not_manifest h).
        + by destruct (bakPath_not_stub h).
        + destruct (bakPath_not_template h). by apply (template_file_name _ c).
        + by destruct (bakPath_not_license h).
      - rewrite Heq. apply elem_of_app. by left. }
    split_and!; [done | done | done |].
    intros Hwf. by rewrite Hbak, read_utf8_well_formed.
  - intros Hio. destruct (Hfail Hio) as [_ Hconsole]. split; [|done].
    unfold disk_after. by apply replay_console.
  - done.
  - intros h' Hnow Heq. apply Hnow. unfold bakPath in Heq.
    apply (inj (String.append _)) in Heq.
    apply string_app_inv_tail in Heq. by apply (inj pretty).
Qed.

(** For the Latin-1 manifest the backup holds the text it was read as; for
    the UTF-8 manifest it holds the bytes of the manifest; and where the
    backup cannot be written the directory is left as it was. *)
Lemma backup_precedes_rewrite_witness :
  disk_after latin1_dir (run latin1_host ["--no-install"] (as_text latin1_dir))
    !! "package.json.setup-backup.1700000000000.json"
  = Some latin1_text
  ∧ disk_after utf8_dir (run latin1_host ["--no-install"] (as_text utf8_dir))
      !! "package.json.setup-backup.1700000000000.json"
    = Some utf8_manifest
  ∧ disk_after sample_dir (run no_backup_host ["--no-install"] (as_text sample_dir))
    = sample_dir.
Proof.
  split_and!.
  - assert (Wrote pkgPath ("{}" +:+ nl)
              ∈ events (run latin1_host ["--no-install"] (as_text latin1_dir))) as Hin.
    { apply (bool_decide_unpack _). by vm_compute. }
    apply list_elem_of_split in Hin as (before & after & Heq).
    destruct (proj1 (backup_precedes_rewrite latin1_host ["--no-install"] latin1_dir)
                before _ after Heq) as (bytes & Hfile & _ & Hbak & _).
    injection Hfile as <-. exact Hbak.
  - assert (Wrote pkgPath ("{}" +:+ nl)
              ∈ events (run latin1_host ["--no-install"] (as_text utf8_dir))) as Hin.
    { apply (bool_decide_unpack _). by vm_compute. }
    apply list_elem_of_split in Hin as (before & after & Heq).
    destruct (proj1 (backup_precedes_rewrite latin1_host ["--no-install"] utf8_dir)
                before _ after Heq) as (bytes & Hfile & _ & _ & Hwf).
    injection Hfile as <-. apply Hwf. by vm_compute.
  - apply (proj1 (proj2 (backup_precedes_rewrite no_backup_host ["--no-install"]
                           sample_dir))).
    by vm_compute.
Defined.

(** C3 as stated fails: a manifest that is no well-formed UTF-8 is backed
    up with other bytes.  The manifest [latin1_manifest], saved in
    Latin-1, is rewritten by the run, and the backup holds three bytes,
    those of U+FFFD, where the manifest had the byte E9. *)
Lemma backup_reencodes_manifest :
  ¬ (∀ h raw disk bytes before content after,
       disk !! pkgPath = Some bytes →
       events (run h raw (as_text disk)) = before ++ Wrote pkgPath content :: after →
       disk_after disk (run h raw (as_text disk)) !! bakPath h = Some bytes).
Proof.
  intros H.
  assert (Wrote pkgPath ("{}" +:+ nl)
            ∈ events (run latin1_host ["--no-install"] (as_text latin1_dir))) as Hin.
  { apply (bool_decide_unpack _). by vm_compute. }
  apply list_elem_of_split in Hin as (before & after & Heq).
  specialize (H latin1_host ["--no-install"] latin1_dir latin1_manifest
                before _ after eq_refl Heq).
  vm_compute in H. discriminate H.
Qed.

(** The backup of the Latin-1 manifest, byte by byte. *)
Example latin1_backup :
  bytes_of_string latin1_manifest
  = [123; 34; 110; 97; 109; 101; 34; 58; 34; 99; 97; 102; 233; 34; 125]
  ∧ bytes_of_string
      <$> disk_after latin1_dir (run latin1_host ["--no-install"] (as_text latin1_dir))
          !! "package.json.setup-backup.1700000000000.json"
    = Some [123; 34; 110; 97; 109; 101; 34; 58; 34; 99; 97; 102; 239; 191; 189; 34; 125].
Proof. split; by vm_compute. Qed.

(** The files a run of the sample host writes, in order: the backup comes
    first, the manifest second. *)
Example sample_run_writes :
  omap (λ e, match e with Wrote p _ => Some p | _ => None end)
    (events (run sample_host ["--no-install"] sample_dir))
  = [ "package.json.setup-backup.1700000000000.json"; "package.json";
      "src/index.js"; "rollup.config.js"; "tsconfig.types.json"; ".gitignore";
      ".npmignore"; "README.md"; "LICENSE" ].
Proof. by vm_compute. Qed.

Example sample_run_backup :
  final_fs (run sample_host ["--no-install"] sample_dir)
    !! "package.json.setup-backup.1700000000000.json"
  = sample_dir !! "package.json".
Proof. by vm_compute. Qed.

(** On a host where the backup cannot be written the run stops there, with
    nothing written. *)
Example backup_failure_stops_run :
  let h := mkHost "/home/dev/app" 1700000000000 2026
             (λ op p, bool_decide (op = OpWrite ∧ p ≠ "package.json"))
             sample_parse (λ _, "{}") (λ _, "0") None (λ _ _, Some 0) in
  run h ["--no-install"] sample_dir
  = (inr (Uncaught (IOError OpWrite "package.json.setup-backup.1700000000000.json")),
     mkState sample_dir []).
Proof. by vm_compute. Qed.

(** When the arguments parse, the manifest is there and parses to an
    object or an array, the author name converts to text and no file
    operation fails, a run goes through every stage up to the
    installation. *)
Lemma run_reaches_install h raw files printed opts pkgRaw v who :
  parseArgs raw = (printed, inl opts) →
  files !! pkgPath = Some pkgRaw →
  JSON_parse h pkgRaw = Some v →
  is_container v = true →
  ToString (Number_toString h)
    (author_chain (name opts) (own_get "author" (props_of v)) (git_user_name h))
  = Ok who →
  (∀ op p, io_fault h op p = false) →
  ∃ manifest s2 s3 s4 s5,
    merge v = Ok manifest
    ∧ manifest_result h (mkState files printed) (inl manifest, s2)
    ∧ stub_result h opts s2 (inl tt, s3)
    ∧ templates_result h opts s3 (inl tt, s4)
    ∧ license_result h opts manifest s4 (inl tt, s5)
    ∧ install_result h opts s5 (run h raw files).
Proof.
  intros Hparse Hfile Hjson Hv Hwho Hio.
  assert (∀ P : Prop, ∀ x s2,
            manifest_result h (mkState files printed) (inr x, s2) → P) as Hm_ok.
  { intros P x s2 Hm.
    inversion Hm as [Hnone|? ? ? Hwhy|? v' ? ? ? Hjson' ? Hwhy|]; subst;
      cbn [fs] in *; simplify_eq.
    - destruct Hwhy as [Hwhy|[Hwhy|Hwhy]]; try congruence;
        by rewrite Hio in Hwhy.
    - destruct Hwhy as [Hwhy|Hwhy]; [|by rewrite Hio in Hwhy].
      by rewrite merge_container in Hwhy. }
  assert (∀ P : Prop, ∀ s x s', stub_result h opts s (inr x, s') → P) as Hs_ok.
  { intros P s x s' Hs. inversion Hs; subst; by rewrite Hio in *. }
  assert (∀ P : Prop, ∀ s x s', templates_result h opts s (inr x, s') → P) as Ht_ok.
  { intros P s x s' (delta & _ & _ & _ & _ & _ & Hok).
    cbn [fst] in Hok. by specialize (Hok (λ p _, Hio OpWrite p)). }
  assert (∀ P : Prop, ∀ manifest s x s',
            merge v = Ok manifest →
            license_result h opts manifest s (inr x, s') → P) as Hl_ok.
  { intros P manifest s x s' Hmerge Hl.
    inversion Hl; subst.
    - match goal with Ha : author_result _ _ _ _ _ |- _ =>
        inversion Ha as [|? Hflag Hget| |]; subst end.
      rewrite (merge_author v manifest Hmerge) in Hget.
      by rewrite get_prop_container in Hget.
    - match goal with Ha : author_result _ _ _ _ (inl ?w, ?s1) |- _ =>
        destruct (author_result_chain h raw printed opts v manifest s w s1)
          as (author & Hget & ->); [done..|] end.
      rewrite get_prop_container in Hget by done. injection Hget as <-.
      match goal with Htext : licenseText _ _ _ = Throw _ |- _ =>
        unfold licenseText in Htext; by rewrite Hwho in Htext end.
    - by rewrite Hio in *. }
  destruct (run_result_spec h raw files)
    as [printed' code Hparse'
       |printed' opts' x s2 Hparse' Hm
       |printed' opts' manifest s2 x s3 Hparse' Hm Hs
       |printed' opts' manifest s2 s3 x s4 Hparse' Hm Hs Ht
       |printed' opts' manifest s2 s3 s4 x s5 Hparse' Hm Hs Ht Hl
       |printed' opts' manifest s2 s3 s4 s5 r Hparse' Hm Hs Ht Hl Hi];
    rewrite Hparse in Hparse'; simplify_eq.
  - by eapply Hm_ok.
  - by eapply Hs_ok.
  - by eapply Ht_ok.
  - eapply Hl_ok; [|done]. inversion Hm; subst; cbn [fs] in *. by simplify_eq.
  - exists manifest, s2, s3, s4, s5. split_and!; try done.
    inversion Hm; subst; cbn [fs] in *. by simplify_eq.
Qed.

(** Before the installation stage no installer is started. *)
Lemma no_spawn_before_install h raw files :
  (∃ printed opts manifest s2 s3 s4 s5,
      parseArgs raw = (printed, inl opts)
      ∧ license_result h opts manifest s4 (inl tt, s5)
      ∧ manifest_result h (mkState files printed) (inl manifest, s2)
      ∧ stub_result h opts s2 (inl tt, s3)
      ∧ templates_result h opts s3 (inl tt, s4)
      ∧ Forall not_spawn (out s5)
      ∧ install_result h opts s5 (run h raw files))
  ∨ Forall not_spawn (events (run h raw files)).
Proof.
  unfold events.
  destruct (run_result_spec h raw files)
    as [printed code Hparse
       |printed opts x s2 Hparse Hm
       |printed opts manifest s2 x s3 Hparse Hm Hs
       |printed opts manifest s2 s3 x s4 Hparse Hm Hs Ht
       |printed opts manifest s2 s3 s4 x s5 Hparse Hm Hs Ht Hl
       |printed opts manifest s2 s3 s4 s5 r Hparse Hm Hs Ht Hl Hi];
    pose proof (console_not_spawn _ (parseArgs_console _ _ _ Hparse)) as Hp;
    cbn [snd out].
  - by right.
  - right. by eapply manifest_no_spawn.
  - right. eapply stub_no_spawn; [done|]. by eapply manifest_no_spawn.
  - right. eapply templates_no_spawn; [done|].
    eapply stub_no_spawn; [done|]. by eapply manifest_no_spawn.
  - right. eapply license_no_spawn; [done|]. eapply templates_no_spawn; [done|].
    eapply stub_no_spawn; [done|]. by eapply manifest_no_spawn.
  - left. exists printed, opts, manifest, s2, s3, s4, s5. split_and!; try done.
    eapply license_no_spawn; [done|]. eapply templates_no_spawn; [done|].
    eapply stub_no_spawn; [done|]. by eapply manifest_no_spawn.
Qed.

(** C4, amended.  When the parsed configuration has the skip-install flag
    set, the package-manager installer is never started; the only child
    process a run may start is the query [git config --get user.name];
    and the run exits with code 0 whenever the manifest is there and
    parses to an object or an array, the author name converts to text and
    no file operation fails. *)
Theorem skip_install_starts_no_installer h raw files printed opts :
  parseArgs raw = (printed, inl opts) →
  noInstall opts = true →
  (∀ cmd args, Spawn cmd args ∉ events (run h raw files))
  ∧ (∀ cmd, ExecSync cmd ∈ events (run h raw files) →
            cmd = "git config --get user.name")
  ∧ (∀ pkgRaw v who,
       files !! pkgPath = Some pkgRaw →
       JSON_parse h pkgRaw = Some v →
       is_container v = true →
       ToString (Number_toString h)
         (author_chain (name opts) (own_get "author" (props_of v)) (git_user_name h))
       = Ok who →
       (∀ op p, io_fault h op p = false) →
       outcome (run h raw files) = inr (Exit 0)).
Proof.
  intros Hparse Hno. split_and!.
  - intros cmd args. apply not_spawn_elem.
    destruct (no_spawn_before_install h raw files)
      as [(printed' & opts' & manifest & s2 & s3 & s4 & s5 & Hparse' & _ & _ & _ & _
           & Hquiet & Hi)|Hquiet]; [|done].
    rewrite Hparse in Hparse'. simplify_eq. unfold events.
    inversion Hi; subst; try congruence. cbn [snd out add_events].
    apply Forall_app. split; [done | by repeat constructor].
  - intros cmd Hin. pose proof (run_events h raw files) as Hall.
    rewrite Forall_forall in Hall. by apply (Hall _ Hin).
  - intros pkgRaw v who Hfile Hjson Hv Hwho Hio.
    destruct (run_reaches_install h raw files printed opts pkgRaw v who)
      as (manifest & s2 & s3 & s4 & s5 & _ & _ & _ & _ & _ & Hi); [done..|].
    unfold outcome. inversion Hi; subst; try congruence. done.
Qed.

Lemma skip_install_starts_no_installer_witness :
  (∀ cmd args, Spawn cmd args ∉ events (run sample_host ["--no-install"] sample_dir))
  ∧ (∀ cmd, ExecSync cmd ∈ events (run sample_host ["--no-install"] sample_dir) →
            cmd = "git config --get user.name")
  ∧ (∀ pkgRaw v who,
       sample_dir !! pkgPath = Some pkgRaw →
       JSON_parse sample_host pkgRaw = Some v →
       is_container v = true →
       ToString (Number_toString sample_host)
         (author_chain None (own_get "author" (props_of v)) (git_user_name sample_host))
       = Ok who →
       (∀ op p, io_fault sample_host op p = false) →
       outcome (run sample_host ["--no-install"] sample_dir) = inr (Exit 0)).
Proof.
  apply (skip_install_starts_no_installer sample_host ["--no-install"] sample_dir []
           (mkOpts true false None "npm")); reflexivity.
Defined.

Example skip_install_exit_0 :
  outcome (run sample_host ["--no-install"] sample_dir) = inr (Exit 0).
Proof. by vm_compute. Qed.

(** C4 as stated fails: with [--no-install], in a directory with a
    manifest that names no author and without a LICENSE, the run asks git
    for the user name, which starts a child process. *)
Lemma skip_install_still_asks_git :
  ¬ (∀ h raw files,
       "--no-install" ∈ raw →
       (∀ e, e ∈ events (run h raw files) → ¬ is_subprocess e)
       ∧ outcome (run h raw files) = inr (Exit 0)).
Proof.
  intros H.
  destruct (H sample_host ["--no-install"] sample_dir) as [Hnone _]; [by left|].
  apply (Hnone (ExecSync "git config --get user.name")); [|exact I].
  apply (bool_decide_unpack _). by vm_compute.
Qed.

(** The retry advice lists the development dependencies in order. *)
Example retry_advice_yarn :
  retry_advice "yarn"
  = [Err ("You may retry manually: yarn add --dev "
          +:+ "@rollup/plugin-commonjs@^29.0.0 @rollup/plugin-node-resolve@^16.0.3 "
          +:+ "rollup@^2.79.2 rollup-plugin-terser@^7.0.2 typescript@^5.9.3 "
          +:+ "@types/node@^24.10.1")].
Proof. reflexivity. Qed.

(** C6.  When the configuration selects yarn and the installer the run
    started closes with a code other than 0, the run has started
    [yarn add --dev] with the six development dependencies in their fixed
    order, prints [You may retry manually: yarn add --dev] followed by
    those dependencies in the same order, separated by single spaces, and
    exits with code 2. *)
Theorem yarn_failure_prints_retry h raw files printed opts :
  parseArgs raw = (printed, inl opts) →
  pkg opts = "yarn" →
  (∃ cmd args, Spawn cmd args ∈ events (run h raw files)) →
  installer_close h "yarn" ("add" :: "--dev" :: devDeps) ≠ Some 0 →
  Spawn "yarn"
    [ "add"; "--dev"; "@rollup/plugin-commonjs@^29.0.0";
      "@rollup/plugin-node-resolve@^16.0.3"; "rollup@^2.79.2";
      "rollup-plugin-terser@^7.0.2"; "typescript@^5.9.3"; "@types/node@^24.10.1" ]
    ∈ events (run h raw files)
  ∧ Err ("You may retry manually: yarn add --dev "
         +:+ "@rollup/plugin-commonjs@^29.0.0 @rollup/plugin-node-resolve@^16.0.3 "
         +:+ "rollup@^2.79.2 rollup-plugin-terser@^7.0.2 typescript@^5.9.3 "
         +:+ "@types/node@^24.10.1")
      ∈ events (run h raw files)
  ∧ outcome (run h raw files) = inr (Exit 2).
Proof.
  intros Hparse Hpkg (cmd & args & Hin) Hclose.
  destruct (no_spawn_before_install h raw files)
    as [(printed' & opts' & manifest & s2 & s3 & s4 & s5 & Hparse' & _ & _ & _ & _
         & Hquiet & Hi)|Hquiet].
  2: { by destruct (not_spawn_elem _ cmd args Hquiet). }
  rewrite Hparse in Hparse'. simplify_eq.
  unfold events, outcome in *.
  destruct (run h raw files) as [r sf].
  inversion Hi as [Hno|cmd' args' Hno Hcmd Hok|cmd' args' Hno Hcmd Hfail|Hno Hcmd];
    subst; rewrite ?Hpkg in *; cbn [fst snd out add_events] in *.
  - exfalso. apply elem_of_app in Hin as [Hin|Hin].
    + by destruct (not_spawn_elem _ cmd args Hquiet).
    + apply (not_spawn_elem _ cmd args) in Hin; [done | by repeat constructor].
  - injection Hcmd as <- <-. congruence.
  - injection Hcmd as <- <-.
    split_and!; [| |done].
    + apply elem_of_app. right. right. by left.
    + apply elem_of_app. right. do 3 right. by left.
  - discriminate Hcmd.
Qed.

Lemma yarn_failure_prints_retry_witness :
  Spawn "yarn"
    [ "add"; "--dev"; "@rollup/plugin-commonjs@^29.0.0";
      "@rollup/plugin-node-resolve@^16.0.3"; "rollup@^2.79.2";
      "rollup-plugin-terser@^7.0.2"; "typescript@^5.9.3"; "@types/node@^24.10.1" ]
    ∈ events (run sample_host ["--pkg"; "yarn"] sample_dir)
  ∧ Err ("You may retry manually: yarn add --dev "
         +:+ "@rollup/plugin-commonjs@^29.0.0 @rollup/plugin-node-resolve@^16.0.3 "
         +:+ "rollup@^2.79.2 rollup-plugin-terser@^7.0.2 typescript@^5.9.3 "
         +:+ "@types/node@^24.10.1")
      ∈ events (run sample_host ["--pkg"; "yarn"] sample_dir)
  ∧ outcome (run sample_host ["--pkg"; "yarn"] sample_dir) = inr (Exit 2).
Proof.
  apply (yarn_failure_prints_retry sample_host ["--pkg"; "yarn"] sample_dir []
           (mkOpts false false None "yarn")); [reflexivity | reflexivity | | done].
  exists "yarn", ("add" :: "--dev" :: devDeps).
  apply (bool_decide_unpack _). by vm_compute.
Defined.

(** [trim] on a name that git prints between no-break spaces, and on an
    answer that is white space only. *)
Example trim_no_break_space :
  trim (nbsp +:+ "Grace Hopper" +:+ nbsp +:+ nl) = "Grace Hopper".
Proof. by vm_compute. Qed.

Example trim_white_space_only :
  trim (nbsp +:+ " " +:+ string_of_bytes [0xEF; 0xBB; 0xBF] +:+ nl) = EmptyString.
Proof. by vm_compute. Qed.

Example trim_keeps_inner_space :
  trim ("  Ada  " +:+ nbsp +:+ "Lovelace" +:+ nl) = "Ada  " +:+ nbsp +:+ "Lovelace".
Proof. by vm_compute. Qed.

(** When nothing fails and there is no LICENSE yet, the LICENSE is written
    for the author the fallback chain gives. *)
Lemma license_written_for h raw files printed opts pkgRaw v who :
  parseArgs raw = (printed, inl opts) →
  files !! pkgPath = Some pkgRaw → JSON_parse h pkgRaw = Some v →
  is_container v = true →
  ToString (Number_toString h)
    (author_chain (name opts) (own_get "author" (props_of v)) (git_user_name h))
  = Ok who →
  files !! "LICENSE" = None →
  (∀ op p, io_fault h op p = false) →
  Wrote "LICENSE" (license_head +:+ pretty (year h) +:+ " " +:+ who +:+ license_tail)
    ∈ events (run h raw files).
Proof.
  intros Hparse Hfile Hjson Hv Hwho Hlic Hio.
  destruct (run_reaches_install h raw files printed opts pkgRaw v who)
    as (manifest & s2 & s3 & s4 & s5 & Hmerge & Hm & Hs & Ht & Hl & Hi); [done..|].
  destruct (manifest_frame h _ _ _ Hm) as (_ & Hf2).
  destruct (stub_frame h _ _ _ _ Hs) as (_ & Hf3 & _).
  destruct (templates_frame h _ _ _ _ Ht) as (_ & Hf4).
  assert (fs s4 !! "LICENSE" = None) as Hnone.
  { rewrite Hf4, Hf3, Hf2; try done.
    apply (bool_decide_unpack _). by vm_compute. }
  unfold events. destruct (run h raw files) as [r sf].
  destruct (install_frame h _ _ _ _ Hi) as ([k Hk] & _). cbn [snd]. rewrite Hk.
  apply elem_of_app. left.
  inversion Hl as [[c Hc] ?| | | |who' text s1 Hwhy Ha Htext Hw]; subst;
    [congruence|].
  destruct (author_result_chain h raw printed opts v manifest s4 who' s1)
    as (author & Hget & ->); [done..|].
  rewrite get_prop_container in Hget by done. injection Hget as <-.
  unfold licenseText in Htext. rewrite Hwho in Htext. cbn in Htext.
  injection Htext as <-.
  cbn [out add_events written]. apply elem_of_app. left.
  apply elem_of_app. right. by left.
Qed.

(** C7.  Whenever the LICENSE file is written, its content is the licence
    text with the current year and the author name given by the fallback
    chain: the [--name] value, else the manifest's [author], else the
    answer of [git config --get user.name], else the placeholder
    [Your Name].  A failing git query is swallowed: with no [--name], no
    author in the manifest and git failing, the LICENSE is written, with
    the placeholder.  When git answers, the name is its answer without
    the white space at both ends, and the placeholder when nothing is
    left of it. *)
Theorem license_names_resolved_author h raw files :
  (∀ content,
     Wrote "LICENSE" content ∈ events (run h raw files) →
     license_content h raw files content)
  ∧ (∀ printed opts pkgRaw v,
       parseArgs raw = (printed, inl opts) → name opts = None →
       files !! pkgPath = Some pkgRaw → JSON_parse h pkgRaw = Some v →
       is_container v = true →
       truthy (own_get "author" (props_of v)) = false →
       git_user_name h = None →
       files !! "LICENSE" = None →
       (∀ op p, io_fault h op p = false) →
       Wrote "LICENSE"
         (license_head +:+ pretty (year h) +:+ " " +:+ "Your Name" +:+ license_tail)
         ∈ events (run h raw files))
  ∧ (∀ printed opts pkgRaw v stdout,
       parseArgs raw = (printed, inl opts) → name opts = None →
       files !! pkgPath = Some pkgRaw → JSON_parse h pkgRaw = Some v →
       is_container v = true →
       truthy (own_get "author" (props_of v)) = false →
       git_user_name h = Some stdout →
       files !! "LICENSE" = None →
       (∀ op p, io_fault h op p = false) →
       Wrote "LICENSE"
         (license_head +:+ pretty (year h) +:+ " "
          +:+ (if nonempty (trim stdout) then trim stdout else "Your Name")
          +:+ license_tail)
         ∈ events (run h raw files)).
Proof.
  split_and!.
  - intros content Hin. pose proof (run_events h raw files) as Hall.
    rewrite Forall_forall in Hall. specialize (Hall _ Hin). cbn [run_event] in Hall.
    destruct Hall as [[Hp _]|[Hp|[[Hp _]|[Hp|[_ Hlic]]]]]; try done.
    apply template_file_name in Hp. apply (bool_decide_pack _) in Hp.
    by vm_compute in Hp.
  - intros printed opts pkgRaw v Hparse Hname Hfile Hjson Hv Hauthor Hgit Hlic Hio.
    apply (license_written_for h raw files printed opts pkgRaw v); try done.
    rewrite Hname, Hgit. cbn [author_chain]. by rewrite Hauthor.
  - intros printed opts pkgRaw v stdout Hparse Hname Hfile Hjson Hv Hauthor Hgit Hlic Hio.
    apply (license_written_for h raw files printed opts pkgRaw v); try done.
    rewrite Hname, Hgit. cbn [author_chain]. rewrite Hauthor.
    by destruct (nonempty (trim stdout)).
Qed.

(** On the sample host git fails and the LICENSE names the placeholder;
    on a host where git answers with the name between no-break spaces,
    the LICENSE names [Grace Hopper]. *)
Lemma license_names_resolved_author_witness :
  Wrote "LICENSE" (license_head +:+ "2026 Your Name" +:+ license_tail)
    ∈ events (run sample_host ["--no-install"] sample_dir)
  ∧ Wrote "LICENSE" (license_head +:+ "2026 Grace Hopper" +:+ license_tail)
      ∈ events (run git_host ["--no-install"] sample_dir).
Proof.
  split.
  - exact (proj1 (proj2 (license_names_resolved_author sample_host ["--no-install"]
                           sample_dir))
             [] (mkOpts true false None "npm") "{}" (VObj [])
             eq_refl eq_refl eq_refl eq_refl eq_refl eq_refl eq_refl eq_refl
             (λ _ _, eq_refl)).
  - exact (proj2 (proj2 (license_names_resolved_author git_host ["--no-install"]
                           sample_dir))
             [] (mkOpts true false None "npm") "{}" (VObj [])
             (nbsp +:+ "Grace Hopper" +:+ nbsp +:+ nl)
             eq_refl eq_refl eq_refl eq_refl eq_refl eq_refl eq_refl eq_refl
             (λ _ _, eq_refl)).
Defined.

(** On the sample host git has no user name: the LICENSE is written for
    the placeholder. *)
Example license_with_placeholder :
  Wrote "LICENSE" (license_head +:+ "2026 Your Name" +:+ license_tail)
    ∈ events (run sample_host ["--no-install"] sample_dir).
Proof. apply (bool_decide_unpack _). by vm_compute. Qed.

Example license_with_flag :
  Wrote "LICENSE" (license_head +:+ "2026 Jane" +:+ license_tail)
    ∈ events (run sample_host ["--no-install"; "--name"; "Jane"] sample_dir).
Proof. apply (bool_decide_unpack _). by vm_compute. Qed.

Lemma generated_not_manifest h p :
  p ∈ generated_files → p ≠ bakPath h ∧ p ≠ pkgPath.
Proof.
  intros Hp. split; intros ->.
  - by apply (bakPath_not_generated h).
  - by apply pkgPath_not_generated.
Qed.

(** C8, amended.  Without [--force], in a directory where the stub source
    file, every template file and the LICENSE exist, the content of each
    of those files is left unchanged, however the run ends.  When moreover
    the arguments parse to a configuration and the manifest stage goes
    through (the manifest is read, parsed, backed up, merged and written
    back without error), the console reports each of those files as
    skipped, in order. *)
Theorem existing_files_are_skipped h raw files :
  "--force" ∉ raw →
  (∀ p, p ∈ generated_files → is_Some (files !! p)) →
  (∀ p, p ∈ generated_files → final_fs (run h raw files) !! p = files !! p)
  ∧ (∀ printed opts pkgRaw v manifest,
       parseArgs raw = (printed, inl opts) →
       files !! pkgPath = Some pkgRaw →
       io_fault h OpRead pkgPath = false →
       JSON_parse h pkgRaw = Some v →
       io_fault h OpWrite (bakPath h) = false →
       merge v = Ok manifest →
       io_fault h OpWrite pkgPath = false →
       ∃ before after,
         events (run h raw files) = before ++ skipped_report h ++ after).
Proof.
  intros Hforce Hexist.
  assert (∀ printed s2 x,
            manifest_result h (mkState files printed) (x, s2) →
            ∀ p, p ∈ generated_files → fs s2 !! p = files !! p) as Hkeep2.
  { intros printed s2 x Hm p Hp. destruct (manifest_frame h _ _ _ Hm) as (_ & Hf).
    destruct (generated_not_manifest h p Hp). by rewrite Hf. }
  assert ("src/index.js" ∈ generated_files) as Hstub by (by left).
  assert ("LICENSE" ∈ generated_files) as Hlic.
  { apply (bool_decide_unpack _). by vm_compute. }
  assert (∀ p, p ∈ DEFAULT_FILES.*1 → p ∈ generated_files) as Htpl.
  { intros p Hp. right. apply elem_of_app. by left. }
  unfold events, final_fs.
  destruct (run_result_spec h raw files)
    as [printed code Hparse
       |printed opts x s2 Hparse Hm
       |printed opts manifest s2 x s3 Hparse Hm Hs
       |printed opts manifest s2 s3 x s4 Hparse Hm Hs Ht
       |printed opts manifest s2 s3 s4 x s5 Hparse Hm Hs Ht Hl
       |printed opts manifest s2 s3 s4 s5 [r s6] Hparse Hm Hs Ht Hl Hi];
    cbn [snd].
  - split; [done|]. intros; congruence.
  - split; [by eapply Hkeep2|].
    intros printed' opts' pkgRaw v manifest Hparse' Hfile Hread Hjson Hbak Hmerge Hw.
    exfalso.
    inversion Hm as [Hnone|? ? ? Hwhy|? v' ? ? ? Hjson' ? Hwhy|]; subst;
      cbn [fs] in *; simplify_eq.
    + destruct Hwhy as [Hwhy|[Hwhy|Hwhy]]; congruence.
    + destruct Hwhy as [Hwhy|Hwhy]; congruence.
  - exfalso. pose proof (parseArgs_force _ _ _ Hforce Hparse) as Hf.
    destruct (stub_frame h _ _ _ _ Hs) as (_ & _ & Hskip).
    destruct Hskip as [Hr _]; [|done|done].
    rewrite (Hkeep2 _ _ _ Hm) by done. by apply Hexist.
  - exfalso. pose proof (parseArgs_force _ _ _ Hforce Hparse) as Hf.
    destruct (stub_frame h _ _ _ _ Hs) as (_ & _ & Hskip).
    destruct Hskip as [_ ->]; [|done|].
    { rewrite (Hkeep2 _ _ _ Hm) by done. by apply Hexist. }
    destruct Ht as (delta & _ & _ & _ & _ & Hall & _).
    destruct Hall as [Hr _]; [done| |done].
    intros p Hp. cbn [fs add_events].
    rewrite (Hkeep2 _ _ _ Hm) by auto. auto.
  - exfalso. pose proof (parseArgs_force _ _ _ Hforce Hparse) as Hf.
    destruct (stub_frame h _ _ _ _ Hs) as (_ & _ & Hskip).
    destruct Hskip as [_ ->]; [|done|].
    { rewrite (Hkeep2 _ _ _ Hm) by done. by apply Hexist. }
    destruct Ht as (delta & _ & _ & _ & _ & Hall & _).
    destruct Hall as (_ & Hfs4 & _); [done| |].
    { intros p Hp. cbn [fs add_events]. rewrite (Hkeep2 _ _ _ Hm) by auto. auto. }
    cbn [snd fs add_events] in Hfs4.
    destruct (license_frame h _ _ _ _ _ Hl) as (_ & _ & Hskip).
    destruct Hskip as [Hr _]; [|done|done].
    rewrite Hfs4, (Hkeep2 _ _ _ Hm) by done. by apply Hexist.
  - pose proof (parseArgs_force _ _ _ Hforce Hparse) as Hf.
    destruct (stub_frame h _ _ _ _ Hs) as (_ & _ & Hskip).
    destruct Hskip as [_ ->]; [|done|].
    { rewrite (Hkeep2 _ _ _ Hm) by done. by apply Hexist. }
    destruct Ht as (delta & Hout4 & _ & _ & _ & Hall & _).
    destruct Hall as (_ & Hfs4 & ->); [done| |].
    { intros p Hp. cbn [fs add_events]. rewrite (Hkeep2 _ _ _ Hm) by auto. auto. }
    cbn [snd fs out add_events] in Hfs4, Hout4.
    destruct (license_frame h _ _ _ _ _ Hl) as (_ & _ & Hskip).
    destruct Hskip as [_ ->].
    { rewrite Hfs4, (Hkeep2 _ _ _ Hm) by done. by apply Hexist. }
    { done. }
    destruct (install_frame h _ _ _ _ Hi) as ([k Hk] & Hfs6).
    split.
    + intros p Hp. rewrite Hfs6. cbn [fs add_events].
      rewrite Hfs4. by eapply Hkeep2.
    + intros _ _ _ _ _ _ _ _ _ _ _ _. exists (out s2), k.
      rewrite Hk. cbn [out add_events]. rewrite Hout4.
      unfold skipped_report. by rewrite <- !app_assoc.
Qed.

Lemma existing_files_are_skipped_witness :
  (∀ p, p ∈ generated_files →
        final_fs (run sample_host ["--no-install"] ready_dir) !! p = ready_dir !! p)
  ∧ (∀ printed opts pkgRaw v manifest,
       parseArgs ["--no-install"] = (printed, inl opts) →
       ready_dir !! pkgPath = Some pkgRaw →
       io_fault sample_host OpRead pkgPath = false →
       JSON_parse sample_host pkgRaw = Some v →
       io_fault sample_host OpWrite (bakPath sample_host) = false →
       merge v = Ok manifest →
       io_fault sample_host OpWrite pkgPath = false →
       ∃ before after,
         events (run sample_host ["--no-install"] ready_dir)
         = before ++ skipped_report sample_host ++ after).
Proof.
  apply existing_files_are_skipped.
  - apply (bool_decide_unpack _). by vm_compute.
  - intros p Hp. rewrite generated_files_eq in Hp.
    repeat (apply elem_of_cons in Hp as [->|Hp]); try (by vm_compute; eauto).
    by apply elem_of_nil in Hp.
Defined.

(** The console of such a run on the sample host. *)
Example skipped_report_sample :
  filter (λ e, bool_decide (e ∈ skipped_report sample_host))
    (events (run sample_host ["--no-install"] ready_dir))
  = [ Log "Skipping src/index.js (exists).";
      Log "Skipping /home/dev/app/rollup.config.js (exists). Use --force to overwrite.";
      Log "Skipping /home/dev/app/tsconfig.types.json (exists). Use --force to overwrite.";
      Log "Skipping /home/dev/app/.gitignore (exists). Use --force to overwrite.";
      Log "Skipping /home/dev/app/.npmignore (exists). Use --force to overwrite.";
      Log "Skipping /home/dev/app/README.md (exists). Use --force to overwrite.";
      Log "Skipping LICENSE (exists)." ].
Proof. by vm_compute. Qed.

(** C8 as stated fails: when the manifest exists but is not valid JSON,
    the run ends on the parse error before any file is looked at, and
    nothing is reported as skipped (the same holds when a help flag or a
    bad [--pkg] value ends the run in the argument parser). *)
Lemma malformed_manifest_reports_no_skip :
  ¬ (∀ h raw files,
       "--force" ∉ raw →
       is_Some (files !! pkgPath) →
       (∀ p, p ∈ generated_files → is_Some (files !! p)) →
       (∀ p, p ∈ generated_files → final_fs (run h raw files) !! p = files !! p)
       ∧ Log "Skipping LICENSE (exists)." ∈ events (run h raw files)).
Proof.
  intros H.
  destruct (H sample_host ["--no-install"] full_dir) as [_ Hin].
  - apply (bool_decide_unpack _). by vm_compute.
  - by vm_compute; eauto.
  - intros p Hp. rewrite generated_files_eq in Hp.
    repeat (apply elem_of_cons in Hp as [->|Hp]); try (by vm_compute; eauto).
    by apply elem_of_nil in Hp.
  - apply (bool_decide_pack _) in Hin. by vm_compute in Hin.
Qed.

(** * Further properties of the manifest merge *)

Section merge_shape.
Implicit Types (k : string) (v d : value) (ps : list (string * value)).

Lemma own_has_elem k ps : own_has k ps = true ↔ k ∈ ps.*1.
Proof.
  induction ps as [|[k' v'] ps IH]; simpl.
  - split; [done | by intros ?%elem_of_nil].
  - destruct (decide (k = k')) as [->|Hne].
    + split; [by left | done].
    + rewrite IH. split; [by right|]. by intros [?|?]%elem_of_cons.
Qed.

Lemma truthy_own_has k ps : truthy (own_get k ps) = true → k ∈ ps.*1.
Proof.
  intros Ht. apply own_has_elem. destruct (own_has k ps) eqn:Hhas; [done|].
  by rewrite own_get_absent in Ht.
Qed.

Lemma own_set_keys k v ps :
  (own_set k v ps).*1 = ps.*1 ++ (if decide (k ∈ ps.*1) then [] else [k]).
Proof.
  induction ps as [|[k' v'] ps IH].
  - cbn [own_set fmap list_fmap fst app].
    destruct (decide (k ∈ [])) as [Hin|_]; [|done]. by apply elem_of_nil in Hin.
  - cbn [own_set]. destruct (decide (k = k')) as [->|Hne].
    + cbn [fmap list_fmap fst].
      destruct (decide (k' ∈ k' :: ps.*1)) as [_|Hout].
      * by rewrite app_nil_r.
      * destruct Hout. by left.
    + change (((k', v') :: own_set k v ps).*1) with (k' :: (own_set k v ps).*1).
      change (((k', v') :: ps).*1) with (k' :: ps.*1).
      rewrite IH. cbn [app]. f_equal. f_equal.
      destruct (decide (k ∈ ps.*1)) as [Hin|Hout],
               (decide (k ∈ k' :: ps.*1)) as [Hin'|Hout']; try done.
      * destruct Hout'. by right.
      * apply elem_of_cons in Hin' as [?|?]; done.
Qed.

Lemma fill_keys k d ps :
  (fill k d ps).*1 = ps.*1 ++ (if decide (k ∈ ps.*1) then [] else [k]).
Proof.
  unfold fill. destruct (truthy (own_get k ps)) eqn:Ht.
  - rewrite decide_True by (by apply truthy_own_has). by rewrite app_nil_r.
  - apply own_set_keys.
Qed.

Lemma filter_ext_elem {A} (P Q : A → Prop) `{∀ x, Decision (P x)}
    `{∀ x, Decision (Q x)} (l : list A) :
  (∀ x, x ∈ l → (P x ↔ Q x)) → filter P l = filter Q l.
Proof.
  induction l as [|a l IH]; intros Hext; [done|].
  rewrite !filter_cons.
  destruct (decide (P a)) as [Hp|Hp], (decide (Q a)) as [Hq|Hq].
  - f_equal. apply IH. intros x Hx. apply Hext. by right.
  - destruct Hq. apply Hext; [by left | done].
  - destruct Hp. apply Hext; [by left | done].
  - apply IH. intros x Hx. apply Hext. by right.
Qed.

Lemma fills_keys l ps :
  NoDup l.*1 →
  (fills l ps).*1 = ps.*1 ++ filter (λ k, k ∉ ps.*1) l.*1.
Proof.
  revert ps. induction l as [|[k d] l IH]; intros ps Hnd; simpl.
  { by rewrite app_nil_r. }
  apply NoDup_cons in Hnd as [Hk Hnd].
  rewrite IH by done. rewrite fill_keys, <- app_assoc. f_equal.
  rewrite filter_cons.
  assert (filter (λ k0, k0 ∉ ps.*1 ++ (if decide (k ∈ ps.*1) then [] else [k])) l.*1
          = filter (λ k0, k0 ∉ ps.*1) l.*1) as ->.
  { apply filter_ext_elem. intros x Hx.
    destruct (decide (k ∈ ps.*1)); [by rewrite app_nil_r|].
    rewrite not_elem_of_app, not_elem_of_cons.
    split; [by intros [? _]|]. intros Hout. split_and!; [done| |apply not_elem_of_nil].
    intros ->. by apply Hk. }
  by destruct (decide (k ∈ ps.*1)); [rewrite decide_False by auto
                                     |rewrite decide_True by done].
Qed.

(** X1.  The merge keeps every key of the manifest object, in its place,
    and appends the keys that were missing, in the fixed order [type],
    [main], [module], [types], [files], [exports], [scripts]. *)
Theorem merge_key_order ps :
  ∃ ps', merge (VObj ps) = Ok (VObj ps')
         ∧ ps'.*1 = ps.*1 ++ filter (λ k, k ∉ ps.*1) default_keys.
Proof.
  exists (merged_props ps). split; [apply merge_obj|].
  unfold merged_props. rewrite own_set_keys, fills_keys.
  2: { apply (bool_decide_unpack _). by vm_compute. }
  rewrite <- app_assoc. f_equal.
  change default_keys with (top_defaults.*1 ++ ["scripts"]).
  rewrite filter_app. f_equal.
  rewrite filter_cons, filter_nil.
  destruct (decide ("scripts" ∈ ps.*1 ++ filter (λ k, k ∉ ps.*1) top_defaults.*1))
    as [H1|H1], (decide ("scripts" ∉ ps.*1)) as [H2|H2]; try done.
  - apply elem_of_app in H1 as [?|Hin]; [done|].
    apply list_elem_of_filter in Hin as [_ Hin].
    by destruct scripts_not_top.
  - destruct H1. apply elem_of_app. left.
    by destruct (decide ("scripts" ∈ ps.*1)).
Qed.

(** X2.  After the merge of a manifest object every default top-level key
    holds a truthy value, [scripts] included; and when [scripts] is an
    object or an array, each of the four default script names holds a
    truthy value in it. *)
Theorem merge_fills_every_default ps :
  ∃ ps', merge (VObj ps) = Ok (VObj ps')
         ∧ (∀ k, k ∈ default_keys → truthy (own_get k ps') = true)
         ∧ (is_container (own_get "scripts" ps') = true →
            ∀ k d, (k, d) ∈ default_scripts →
                   truthy (own_get k (props_of (own_get "scripts" ps'))) = true).
Proof.
  exists (merged_props ps). split; [apply merge_obj|]. unfold merged_props.
  set (ps1 := fills top_defaults ps). split.
  - intros k Hk. destruct (decide (k = "scripts")) as [->|Hne].
    + rewrite own_get_set_eq. apply merged_scripts_truthy.
    + rewrite own_get_set_ne by done.
      change default_keys with (top_defaults.*1 ++ ["scripts"]) in Hk.
      apply elem_of_app in Hk as [Hk|Hk].
      * apply list_elem_of_fmap in Hk as ([k' d] & -> & Hin).
        by apply (fills_truthy top_defaults k' d); [apply top_defaults_truthy|].
      * apply list_elem_of_singleton in Hk. done.
  - rewrite own_get_set_eq. unfold merged_scripts.
    set (s0 := if truthy (own_get "scripts" ps1) then own_get "scripts" ps1 else VObj []).
    intros Hc k d Hin.
    destruct s0 as [| |b|x|str|es qs|qs];
      try (rewrite fill_scripts_prim in Hc by done; discriminate Hc).
    + rewrite fill_scripts_arr. cbn [props_of].
      by apply (fills_truthy default_scripts k d); [apply default_scripts_truthy|].
    + rewrite fill_scripts_obj. cbn [props_of].
      by apply (fills_truthy default_scripts k d); [apply default_scripts_truthy|].
Qed.
End merge_shape.

(** * Further properties of the argument parser *)

Section parser_shape.
Implicit Types (raw rest : list string) (out opts : Opts).

Lemma parse_loop_outcomes n raw out :
  (length raw ≤ n)%nat →
  (∃ opts, parse_loop raw out = ([], inl opts))
  ∨ parse_loop raw out = ([Log usage_text], inr 0)
  ∨ ∃ m, parse_loop raw out = ([Err m; Log usage_text], inr 1).
Proof.
  revert raw out. induction n as [|n IH]; intros raw out Hlen.
  { destruct raw; [|simpl in Hlen; lia]. left. by exists out. }
  destruct raw as [|a rest]; [left; by exists out|].
  simpl in Hlen. cbn [parse_loop].
  assert (∀ o, (∃ opts, parse_loop rest o = ([], inl opts))
               ∨ parse_loop rest o = ([Log usage_text], inr 0)
               ∨ ∃ m, parse_loop rest o = ([Err m; Log usage_text], inr 1)) as Hrest.
  { intros o. apply IH. lia. }
  repeat case_bool_decide; try (by apply Hrest); try (by right; left).
  - destruct rest as [|v rest']; [by apply Hrest|].
    destruct (nonempty v); [|by apply Hrest]. apply IH. simpl in Hlen. lia.
  - destruct rest as [|v rest']; [right; right; by eexists|].
    destruct (nonempty v); [|right; right; by eexists].
    case_bool_decide; [|right; right; by eexists].
    apply IH. simpl in Hlen. lia.
Qed.

Lemma parseArgs_outcomes_aux raw :
  (∃ opts, parseArgs raw = ([], inl opts))
  ∨ parseArgs raw = ([Log usage_text], inr 0)
  ∨ ∃ m, parseArgs raw = ([Err m; Log usage_text], inr 1).
Proof.
  destruct raw as [|a rest]; [by right; left|].
  apply (parse_loop_outcomes (length (a :: rest))). done.
Qed.

(** X3.  Whatever the arguments, the parser ends in one of three ways: it
    returns a record and has printed nothing; it has printed the usage
    alone and exits with code 0; or it has printed one error line followed
    by the usage and exits with code 1. *)
Theorem parseArgs_outcomes raw :
  (∃ opts, parseArgs raw = ([], inl opts))
  ∨ parseArgs raw = ([Log usage_text], inr 0)
  ∨ ∃ m, parseArgs raw = ([Err m; Log usage_text], inr 1).
Proof. apply parseArgs_outcomes_aux. Qed.

Lemma parse_loop_fields n raw out opts :
  (length raw ≤ n)%nat →
  (parse_loop raw out).2 = inl opts →
  (pkg opts = pkg out ∨ pkg opts ∈ managers)
  ∧ (force opts = true → force out = true ∨ "--force" ∈ raw)
  ∧ (noInstall opts = true → noInstall out = true ∨ "--no-install" ∈ raw)
  ∧ (∀ v, name opts = Some v →
          name out = Some v ∨ (v ∈ raw ∧ nonempty v = true)).
Proof.
  revert raw out. induction n as [|n IH]; intros raw out Hlen Hp.
  { destruct raw; [|simpl in Hlen; lia]. simpl in Hp. injection Hp as <-.
    split_and!; auto. }
  destruct raw as [|a rest].
  { simpl in Hp. injection Hp as <-. split_and!; auto. }
  simpl in Hlen. cbn [parse_loop] in Hp.
  assert (∀ o, (parse_loop rest o).2 = inl opts →
               (pkg opts = pkg o ∨ pkg opts ∈ managers)
               ∧ (force opts = true → force o = true ∨ "--force" ∈ a :: rest)
               ∧ (noInstall opts = true →
                  noInstall o = true ∨ "--no-install" ∈ a :: rest)
               ∧ (∀ v, name opts = Some v →
                       name o = Some v ∨ (v ∈ a :: rest ∧ nonempty v = true)))
    as Hrest.
  { intros o Ho. destruct (IH rest o) as (F1 & F2 & F3 & F4); [lia|done|].
    split_and!; [done | | |].
    - intros Hf. destruct (F2 Hf); [by left | right; by right].
    - intros Hf. destruct (F3 Hf); [by left | right; by right].
    - intros v Hv. destruct (F4 v Hv) as [?|[? ?]]; [by left|].
      right. split; [by right | done]. }
  repeat case_bool_decide; try done; subst.
  - destruct (Hrest _ Hp) as (F1 & F2 & F3 & F4). split_and!; try done.
    intros Hf. right. by left.
  - destruct (Hrest _ Hp) as (F1 & F2 & F3 & F4). split_and!; try done.
    intros Hf. right. by left.
  - destruct rest as [|v rest']; [by apply Hrest|].
    destruct (nonempty v) eqn:Hv; [|by apply Hrest].
    destruct (IH rest' (set_name v out)) as (F1 & F2 & F3 & F4);
      [simpl in Hlen; lia | done |].
    split_and!; [done | | |].
    + intros Hf. destruct (F2 Hf); [by left | right; by do 2 right].
    + intros Hf. destruct (F3 Hf); [by left | right; by do 2 right].
    + intros w Hw. destruct (F4 w Hw) as [Hset|[? ?]].
      * simpl in Hset. injection Hset as ->. right. split; [right; by left | done].
      * right. split; [by do 2 right | done].
  - destruct rest as [|v rest']; [done|].
    destruct (nonempty v) eqn:Hv; [|done].
    case_bool_decide as Hm; [|done].
    destruct (IH rest' (set_pkg (toLowerCase v) out)) as (F1 & F2 & F3 & F4);
      [simpl in Hlen; lia | done |].
    split_and!.
    + right. destruct F1 as [->|?]; done.
    + intros Hf. destruct (F2 Hf); [by left | right; by do 2 right].
    + intros Hf. destruct (F3 Hf); [by left | right; by do 2 right].
    + intros w Hw. destruct (F4 w Hw) as [?|[? ?]]; [by left|].
      right. split; [by do 2 right | done].
  - by apply Hrest.
Qed.

(** X4.  In a record the parser returns, the package manager is one of
    [npm], [pnpm], [yarn]; the overwrite and skip-install flags are set
    only if [--force], respectively [--no-install], is among the
    arguments; and the author name, when there is one, is a non-empty
    argument. *)
Theorem parseArgs_record_from_args raw printed opts :
  parseArgs raw = (printed, inl opts) →
  pkg opts ∈ managers
  ∧ (force opts = true → "--force" ∈ raw)
  ∧ (noInstall opts = true → "--no-install" ∈ raw)
  ∧ (∀ v, name opts = Some v → v ∈ raw ∧ nonempty v = true).
Proof.
  intros Hp. destruct raw as [|a rest]; [done|]. unfold parseArgs in Hp.
  destruct (parse_loop_fields (length (a :: rest)) (a :: rest) initial_opts opts)
    as (H1 & H2 & H3 & H4); [done | by rewrite Hp |].
  split_and!.
  - destruct H1 as [->|?]; [|done]. by left.
  - intros Hf. by destruct (H2 Hf).
  - intros Hf. by destruct (H3 Hf).
  - intros v Hv. by destruct (H4 v Hv).
Qed.

Lemma parseArgs_record_from_args_witness :
  pkg (mkOpts false true (Some "Jane") "pnpm") ∈ managers
  ∧ (force (mkOpts false true (Some "Jane") "pnpm") = true →
     "--force" ∈ ["--name"; "Jane"; "-p"; "PNPM"; "--force"])
  ∧ (noInstall (mkOpts false true (Some "Jane") "pnpm") = true →
     "--no-install" ∈ ["--name"; "Jane"; "-p"; "PNPM"; "--force"])
  ∧ (∀ v, name (mkOpts false true (Some "Jane") "pnpm") = Some v →
          v ∈ ["--name"; "Jane"; "-p"; "PNPM"; "--force"] ∧ nonempty v = true).
Proof.
  apply (parseArgs_record_from_args ["--name"; "Jane"; "-p"; "PNPM"; "--force"] []).
  reflexivity.
Defined.
End parser_shape.

(** * Further properties of [safeWrite] and of the stages *)

Section stage_equations.
Context (h : Host).
Implicit Types (s : State) (opts : Opts).

(** [safeWrite], case by case. *)
Lemma safeWrite_eq fname content force s :
  safeWrite h fname content force s =
  if (bool_decide (is_Some (fs s !! fname)) && negb force)%bool then
    (inl false, add_events s [skip_line h fname])
  else if io_fault h OpWrite fname then
    (inr (Uncaught (IOError OpWrite fname)), add_events s (made_dir h))
  else
    (inl true,
     add_events (written fname content (add_events s (made_dir h)))
       [Log ("Wrote " +:+ path_join (cwd h) fname)]).
Proof.
  unfold safeWrite, mbind, M_bind, existsSync.
  assert (∀ s0, try_catch (mkdir h ".") (λ _, mret tt) s0
                = (inl tt, add_events s0 (made_dir h))) as Hmk.
  { intros s0. unfold try_catch, mkdir, made_dir.
    destruct (io_fault h OpMkdir "."); [|done].
    unfold mret, M_ret. by rewrite add_events_nil. }
  destruct (bool_decide (is_Some (fs s !! fname)) && negb force)%bool; [done|].
  rewrite Hmk. unfold writeFile.
  by destruct (io_fault h OpWrite fname).
Qed.

(** X5.  When the write itself does not fail, [safeWrite] never fails,
    whether or not the parent directory could be made.  It returns [true]
    exactly when the file was missing or [--force] was given: the file
    then holds the content and the write is reported; it returns [false]
    otherwise, with the files as they were and the skip reported.  No
    other file is touched. *)
Theorem safeWrite_contract fname content force s :
  io_fault h OpWrite fname = false →
  ∃ wrote s',
    safeWrite h fname content force s = (inl wrote, s')
    ∧ (wrote = true ↔ fs s !! fname = None ∨ force = true)
    ∧ (wrote = true →
       fs s' !! fname = Some content
       ∧ Wrote fname content ∈ out s'
       ∧ Log ("Wrote " +:+ path_join (cwd h) fname) ∈ out s')
    ∧ (wrote = false → s' = add_events s [skip_line h fname])
    ∧ (∀ p, p ≠ fname → fs s' !! p = fs s !! p).
Proof.
  intros Hw. rewrite safeWrite_eq, Hw.
  destruct (fs s !! fname) as [old|] eqn:Hold.
  - rewrite bool_decide_eq_true_2 by eauto. destruct force; cbn [andb negb].
    + eexists _, _. split; [done|]. cbn [fs out add_events written].
      split_and!; try done.
      * split; [by right | done].
      * intros _. split_and!; [by rewrite lookup_insert_eq | |].
        -- apply elem_of_app. left. apply elem_of_app. right. by left.
        -- apply elem_of_app. right. by left.
      * intros p Hp. by rewrite lookup_insert_ne.
    + eexists _, _. split; [done|]. split_and!; try done.
      split; [done|]. by intros [?|?].
  - rewrite bool_decide_eq_false_2 by (by intros [? ?]). cbn [andb].
    eexists _, _. split; [done|]. cbn [fs out add_events written].
    split_and!; try done.
    + split; [by left | done].
    + intros _. split_and!; [by rewrite lookup_insert_eq | |].
      * apply elem_of_app. left. apply elem_of_app. right. by left.
      * apply elem_of_app. right. by left.
    + intros p Hp. by rewrite lookup_insert_ne.
Qed.

(** The loop over template files stops only on a failing write. *)
Lemma for_each_failure l force s x s' :
  for_each (λ entry, safeWrite h entry.1 entry.2 force) l s = (inr x, s') →
  ∃ p, p ∈ l.*1 ∧ io_fault h OpWrite p = true ∧ x = Uncaught (IOError OpWrite p).
Proof.
  revert s. induction l as [|[fname content] l IH]; intros s; [done|].
  cbn [for_each]. unfold mbind, M_bind at 1. cbn [fst snd].
  rewrite safeWrite_eq.
  destruct (bool_decide (is_Some (fs s !! fname)) && negb force)%bool.
  { intros Hl. destruct (IH _ Hl) as (p & Hp & Hf & ->).
    exists p. split_and!; [by right | done | done]. }
  destruct (io_fault h OpWrite fname) eqn:Hw.
  { intros [= <- <-]. exists fname. split_and!; [by left | done | done]. }
  intros Hl. destruct (IH _ Hl) as (p & Hp & Hf & ->).
  exists p. split_and!; [by right | done | done].
Qed.

(** After the loop has gone through, each file of the list holds its
    content, unless it existed and [--force] was not given: it is then as
    it was. *)
Lemma for_each_content l force s s' :
  NoDup l.*1 →
  for_each (λ entry, safeWrite h entry.1 entry.2 force) l s = (inl tt, s') →
  ∀ p content, (p, content) ∈ l →
    fs s' !! p = if (bool_decide (is_Some (fs s !! p)) && negb force)%bool
                 then fs s !! p else Some content.
Proof.
  revert s. induction l as [|[fname content] l IH]; intros s Hnd Hl p c Hin.
  { by apply elem_of_nil in Hin. }
  apply NoDup_cons in Hnd as [Hfresh Hnd].
  cbn [for_each] in Hl. unfold mbind, M_bind at 1 in Hl. cbn [fst snd] in Hl.
  rewrite safeWrite_eq in Hl.
  assert (∀ s1, for_each (λ entry, safeWrite h entry.1 entry.2 force) l s1 = (inl tt, s') →
                fs s' !! fname = fs s1 !! fname) as Hframe.
  { intros s1 Hs1.
    destruct (for_each_safeWrite h l force s1)
      as (r & s'' & delta & Heq & _ & _ & Hother & _).
    rewrite Hs1 in Heq. injection Heq as <- <-. by apply Hother. }
  apply elem_of_cons in Hin as [[= -> ->]|Hin].
  - destruct (bool_decide (is_Some (fs s !! fname)) && negb force)%bool.
    + by rewrite (Hframe _ Hl).
    + destruct (io_fault h OpWrite fname); [done|].
      rewrite (Hframe _ Hl). cbn [fs add_events written].
      by rewrite lookup_insert_eq.
  - assert (p ≠ fname) as Hne.
    { intros ->. apply Hfresh. by apply (list_elem_of_fmap_2 fst) in Hin. }
    destruct (bool_decide (is_Some (fs s !! fname)) && negb force)%bool.
    + by rewrite (IH _ Hnd Hl p c Hin).
    + destruct (io_fault h OpWrite fname); [done|].
      rewrite (IH _ Hnd Hl p c Hin). cbn [fs add_events written].
      by rewrite lookup_insert_ne.
Qed.

(** A run whose arguments parse, stage by stage. *)
Lemma run_stages raw files printed opts :
  parseArgs raw = (printed, inl opts) →
  run h raw files =
  match main_manifest h (mkState files printed) with
  | (inr x, s2) => (inr x, s2)
  | (inl manifest, s2) =>
      match main_stub h opts s2 with
      | (inr x, s3) => (inr x, s3)
      | (inl _, s3) =>
          match main_templates h opts s3 with
          | (inr x, s4) => (inr x, s4)
          | (inl _, s4) =>
              match main_license h opts manifest s4 with
              | (inr x, s5) => (inr x, s5)
              | (inl _, s5) => main_install h opts s5
              end
          end
      end
  end.
Proof. intros Hp. unfold run. by rewrite main_unfold, Hp. Qed.

Lemma run_parse_exit_eq raw files printed code :
  parseArgs raw = (printed, inr code) →
  run h raw files = (inr (Exit code), mkState files printed).
Proof. intros Hp. unfold run. by rewrite main_unfold, Hp. Qed.

(** The manifest stage when the manifest is there and can be read. *)
Lemma main_manifest_eq s pkgRaw :
  fs s !! pkgPath = Some pkgRaw →
  io_fault h OpRead pkgPath = false →
  main_manifest h s =
  match JSON_parse h pkgRaw with
  | None => (inr (Uncaught SyntaxError), s)
  | Some v =>
      if io_fault h OpWrite (bakPath h) then
        (inr (Uncaught (IOError OpWrite (bakPath h))), s)
      else
        let s1 := add_events (written (bakPath h) pkgRaw s)
                    [Log ("Backed up package.json -> " +:+ bakPath h)] in
        match merge v with
        | Throw err => (inr (Uncaught err), s1)
        | Ok manifest =>
            if io_fault h OpWrite pkgPath then
              (inr (Uncaught (IOError OpWrite pkgPath)), s1)
            else
              (inl manifest,
               add_events (written pkgPath (JSON_stringify h manifest +:+ nl) s1)
                 [Log "Updated package.json (merged fields)."])
        end
  end.
Proof.
  intros Hfile Hread.
  unfold main_manifest, mbind, M_bind, existsSync.
  rewrite bool_decide_eq_true_2 by eauto. cbn [negb].
  unfold readFile. rewrite Hfile, Hread.
  destruct (JSON_parse h pkgRaw) as [v|]; [|done].
  unfold mret, M_ret, writeFile at 1.
  destruct (io_fault h OpWrite (bakPath h)); [done|].
  unfold console_log at 1, emit. cbn zeta.
  destruct (merge v) as [manifest|err]; [|done].
  unfold lift, mret, M_ret, writeFile.
  by destruct (io_fault h OpWrite pkgPath).
Qed.
End stage_equations.

Lemma safeWrite_contract_witness :
  ∃ wrote s',
    safeWrite sample_host "README.md" readme_md false (mkState sample_dir [])
    = (inl wrote, s')
    ∧ (wrote = true ↔ fs (mkState sample_dir []) !! "README.md" = None ∨ false = true)
    ∧ (wrote = true →
       fs s' !! "README.md" = Some readme_md
       ∧ Wrote "README.md" readme_md ∈ out s'
       ∧ Log ("Wrote " +:+ path_join (cwd sample_host) "README.md") ∈ out s')
    ∧ (wrote = false →
       s' = add_events (mkState sample_dir []) [skip_line sample_host "README.md"])
    ∧ (∀ p, p ≠ "README.md" → fs s' !! p = fs (mkState sample_dir []) !! p).
Proof. apply safeWrite_contract. reflexivity. Defined.

(** * Further properties of a run *)

(** X6.  When the manifest is there but is not valid JSON, the run ends on
    the syntax error before anything is written: no backup, no file, no
    output beyond what the argument parser printed. *)
Theorem malformed_manifest_writes_nothing h raw files printed opts pkgRaw :
  parseArgs raw = (printed, inl opts) →
  files !! pkgPath = Some pkgRaw →
  io_fault h OpRead pkgPath = false →
  JSON_parse h pkgRaw = None →
  run h raw files = (inr (Uncaught SyntaxError), mkState files printed).
Proof.
  intros Hp Hfile Hread Hjson.
  rewrite (run_stages h raw files printed opts Hp).
  by rewrite (main_manifest_eq h (mkState files printed) pkgRaw Hfile Hread), Hjson.
Qed.

Lemma malformed_manifest_writes_nothing_witness :
  run sample_host ["--force"] full_dir
  = (inr (Uncaught SyntaxError), mkState full_dir []).
Proof.
  apply (malformed_manifest_writes_nothing sample_host ["--force"] full_dir []
           (mkOpts false true None "npm") "oops"); reflexivity.
Defined.

(** X7.  When the manifest parses to something that is neither an object
    nor an array ([null], a number, a string, a boolean), the run writes
    the backup and then ends on a type error in the merge: the manifest
    file is left as it was and nothing else is written. *)
Theorem non_object_manifest_fails_after_backup h raw files printed opts pkgRaw v :
  parseArgs raw = (printed, inl opts) →
  files !! pkgPath = Some pkgRaw →
  io_fault h OpRead pkgPath = false →
  JSON_parse h pkgRaw = Some v →
  is_container v = false →
  io_fault h OpWrite (bakPath h) = false →
  run h raw files
  = (inr (Uncaught TypeError),
     mkState (<[bakPath h := pkgRaw]> files)
       (printed ++ [Wrote (bakPath h) pkgRaw;
                    Log ("Backed up package.json -> " +:+ bakPath h)]))
  ∧ final_fs (run h raw files) !! pkgPath = Some pkgRaw.
Proof.
  intros Hp Hfile Hread Hjson Hv Hbak.
  assert (run h raw files
          = (inr (Uncaught TypeError),
             mkState (<[bakPath h := pkgRaw]> files)
               (printed ++ [Wrote (bakPath h) pkgRaw;
                            Log ("Backed up package.json -> " +:+ bakPath h)])))
    as Hrun.
  { rewrite (run_stages h raw files printed opts Hp).
    rewrite (main_manifest_eq h (mkState files printed) pkgRaw Hfile Hread), Hjson, Hbak.
    cbn zeta. rewrite (merge_primitive v Hv).
    unfold add_events, written. cbn [fs out]. by rewrite <- app_assoc. }
  split; [done|]. rewrite Hrun. cbn.
  rewrite lookup_insert_ne; [done|]. apply bakPath_not_manifest.
Qed.

Lemma non_object_manifest_fails_after_backup_witness :
  run (mkHost "/home/dev/app" 1700000000000 2026 (λ _ _, false)
         (λ _, Some VNull) (λ _, "null") (λ _, "0") None (λ _ _, Some 0))
      ["--force"] sample_dir
  = (inr (Uncaught TypeError),
     mkState (<["package.json.setup-backup.1700000000000.json" := "{}"]> sample_dir)
       ([] ++ [Wrote "package.json.setup-backup.1700000000000.json" "{}";
               Log ("Backed up package.json -> "
                    +:+ "package.json.setup-backup.1700000000000.json")]))
  ∧ final_fs
      (run (mkHost "/home/dev/app" 1700000000000 2026 (λ _ _, false)
              (λ _, Some VNull) (λ _, "null") (λ _, "0") None (λ _ _, Some 0))
           ["--force"] sample_dir) !! pkgPath = Some "{}".
Proof.
  apply (non_object_manifest_fails_after_backup
           (mkHost "/home/dev/app" 1700000000000 2026 (λ _ _, false)
              (λ _, Some VNull) (λ _, "null") (λ _, "0") None (λ _ _, Some 0))
           ["--force"] sample_dir [] (mkOpts false true None "npm") "{}" VNull);
    reflexivity.
Defined.

(** The stages of a run in which nothing fails. *)
Lemma run_success_path h raw files printed opts pkgRaw v who :
  parseArgs raw = (printed, inl opts) →
  files !! pkgPath = Some pkgRaw →
  JSON_parse h pkgRaw = Some v →
  is_container v = true →
  ToString (Number_toString h)
    (author_chain (name opts) (own_get "author" (props_of v)) (git_user_name h))
  = Ok who →
  (∀ op p, io_fault h op p = false) →
  ∃ manifest s2 s3 s4 s5,
    merge v = Ok manifest
    ∧ main_manifest h (mkState files printed) = (inl manifest, s2)
    ∧ main_stub h opts s2 = (inl tt, s3)
    ∧ main_templates h opts s3 = (inl tt, s4)
    ∧ main_license h opts manifest s4 = (inl tt, s5)
    ∧ run h raw files = main_install h opts s5.
Proof.
  intros Hparse Hfile Hjson Hv Hwho Hio.
  rewrite (run_stages h raw files printed opts Hparse).
  pose (manifest := with_props v (merged_props (props_of v))).
  pose (s2 := add_events
                (written pkgPath (JSON_stringify h manifest +:+ nl)
                   (add_events (written (bakPath h) pkgRaw (mkState files printed))
                      [Log ("Backed up package.json -> " +:+ bakPath h)]))
                [Log "Updated package.json (merged fields)."]).
  assert (main_manifest h (mkState files printed) = (inl manifest, s2)) as Em.
  { rewrite (main_manifest_eq h (mkState files printed) pkgRaw Hfile (Hio _ _)).
    rewrite Hjson, !Hio. cbv zeta. by rewrite (merge_container v Hv). }
  rewrite Em.
  pose proof (main_stub_result h opts s2) as Hs.
  destruct (main_stub h opts s2) as [[[]|x] s3] eqn:Es.
  2: { inversion Hs; subst; by rewrite Hio in *. }
  destruct (main_templates h opts s3) as [[[]|x] s4] eqn:Et.
  2: { unfold main_templates in Et.
       destruct (for_each_failure h _ _ _ _ _ Et) as (p & _ & Hf & _).
       by rewrite Hio in Hf. }
  pose proof (main_license_result h opts manifest s4) as Hl.
  destruct (main_license h opts manifest s4) as [[[]|x] s5] eqn:El.
  2: { exfalso. assert (merge v = Ok manifest) as Hmerge by apply (merge_container v Hv).
       inversion Hl; subst.
       - match goal with Ha : author_result _ _ _ _ _ |- _ =>
           inversion Ha as [|? Hflag Hget| |]; subst end.
         rewrite (merge_author v manifest Hmerge) in Hget.
         by rewrite get_prop_container in Hget.
       - match goal with Ha : author_result _ _ _ _ (inl ?w, ?s1) |- _ =>
           destruct (author_result_chain h raw printed opts v manifest s4 w s1)
             as (author & Hget & ->); [done..|] end.
         rewrite get_prop_container in Hget by done. injection Hget as <-.
         match goal with Htext : licenseText _ _ _ = Throw _ |- _ =>
           unfold licenseText in Htext; by rewrite Hwho in Htext end.
       - by rewrite Hio in *. }
  exists manifest, s2, s3, s4, s5. split_and!; try done.
  apply (merge_container v Hv).
Qed.

Lemma fixed_file_generated p content :
  (p, content) ∈ fixed_files → p ∈ generated_files.
Proof.
  intros [[= -> ->]|Hin]%elem_of_cons; [by left|].
  right. apply elem_of_app. left. by apply (template_file_name p content).
Qed.

(** X8.  In a run in which nothing fails (the arguments parse, the
    manifest is there and parses to an object or an array, the author name
    converts to text, no file operation fails), the stub source file and
    every template file end up with their fixed content when they were
    missing or [--force] was given, and are as they were otherwise; the
    LICENSE likewise, its content being the licence text of the year and
    the resolved author. *)
Theorem run_leaves_generated_files h raw files printed opts pkgRaw v who :
  parseArgs raw = (printed, inl opts) →
  files !! pkgPath = Some pkgRaw →
  JSON_parse h pkgRaw = Some v →
  is_container v = true →
  ToString (Number_toString h)
    (author_chain (name opts) (own_get "author" (props_of v)) (git_user_name h))
  = Ok who →
  (∀ op p, io_fault h op p = false) →
  (∀ p content, (p, content) ∈ fixed_files →
     final_fs (run h raw files) !! p
     = if (bool_decide (is_Some (files !! p)) && negb (force opts))%bool
       then files !! p else Some content)
  ∧ final_fs (run h raw files) !! "LICENSE"
    = if (bool_decide (is_Some (files !! "LICENSE")) && negb (force opts))%bool
      then files !! "LICENSE"
      else Some (license_head +:+ pretty (year h) +:+ " " +:+ who +:+ license_tail).
Proof.
  intros Hparse Hfile Hjson Hv Hwho Hio.
  destruct (run_success_path h raw files printed opts pkgRaw v who)
    as (manifest & s2 & s3 & s4 & s5 & Hmerge & Em & Es & Et & El & ->); [done..|].
  pose proof (main_manifest_result h (mkState files printed)) as Hm. rewrite Em in Hm.
  pose proof (main_stub_result h opts s2) as Hs. rewrite Es in Hs.
  pose proof (main_license_result h opts manifest s4) as Hl. rewrite El in Hl.
  pose proof (main_install_result h opts s5) as Hi.
  unfold final_fs.
  destruct (main_install h opts s5) as [r s6]. cbn [snd].
  destruct (install_frame h _ _ _ _ Hi) as (_ & ->).
  destruct (manifest_frame h _ _ _ Hm) as (_ & Hf2). cbn [fs] in Hf2.
  destruct (license_frame h _ _ _ _ _ Hl) as (_ & Hf5 & _).
  assert (∀ p, p ∈ generated_files → fs s2 !! p = files !! p) as Hkeep2.
  { intros p Hp. destruct (generated_not_manifest h p Hp). by apply Hf2. }
  assert (∀ p, p ∈ DEFAULT_FILES.*1 → p ≠ "src/index.js" ∧ p ≠ "LICENSE") as Hnames.
  { intros p Hp. apply (bool_decide_pack _) in Hp.
    split; intros ->; by vm_compute in Hp. }
  split.
  - intros p c Hin. pose proof (fixed_file_generated p c Hin) as Hgen.
    apply elem_of_cons in Hin as [[= -> ->]|Hin].
    + rewrite Hf5 by done.
      destruct (for_each_safeWrite h DEFAULT_FILES (force opts) s3)
        as (r' & s' & delta & Heq & _ & _ & Hother & _).
      unfold main_templates in Et. rewrite Et in Heq. injection Heq as <- <-.
      rewrite Hother by (apply (bool_decide_unpack _); by vm_compute).
      inversion Hs as [[old Hold] Hforce| | |Hwhy ? ?]; subst; cbn [fs add_events written].
      * rewrite Hforce, Hkeep2 by done. rewrite Hkeep2 in Hold by done.
        rewrite bool_decide_eq_true_2 by eauto. done.
      * rewrite lookup_insert_eq. rewrite Hkeep2 in Hwhy by done.
        destruct Hwhy as [-> | ->]; [done|].
        by rewrite andb_false_r.
    + destruct (Hnames p (template_file_name _ _ Hin)) as [Hp1 Hp2].
      rewrite Hf5 by done. unfold main_templates in Et.
      rewrite (for_each_content h DEFAULT_FILES (force opts) s3 s4) with (content := c);
        [|apply (bool_decide_unpack _); by vm_compute | done | done].
      destruct (stub_frame h _ _ _ _ Hs) as (_ & Hf3 & _).
      by rewrite Hf3, Hkeep2 by done.
  - assert ("LICENSE" ∈ generated_files) as Hgen.
    { apply (bool_decide_unpack _). by vm_compute. }
    assert (fs s4 !! "LICENSE" = files !! "LICENSE") as H4.
    { destruct (for_each_safeWrite h DEFAULT_FILES (force opts) s3)
        as (r' & s' & delta & Heq & _ & _ & Hother & _).
      unfold main_templates in Et. rewrite Et in Heq. injection Heq as <- <-.
      rewrite Hother by (apply (bool_decide_unpack _); by vm_compute).
      destruct (stub_frame h _ _ _ _ Hs) as (_ & Hf3 & _).
      by rewrite Hf3, Hkeep2 by done. }
    inversion Hl as [[old Hold] Hforce| | | |w text s1 Hwhy Ha Htext Hw]; subst;
      cbn [fs add_events written].
    + rewrite Hforce, H4. rewrite H4 in Hold.
      by rewrite bool_decide_eq_true_2 by eauto.
    + rewrite lookup_insert_eq.
      destruct (author_result_chain h raw printed opts v manifest s4 w s1)
        as (author & Hget & ->); [done..|].
      rewrite get_prop_container in Hget by done. injection Hget as <-.
      unfold licenseText in Htext. rewrite Hwho in Htext. injection Htext as <-.
      rewrite H4 in Hwhy. destruct Hwhy as [-> | ->]; [done|].
      by rewrite andb_false_r.
Qed.

Lemma run_leaves_generated_files_witness :
  (∀ p content, (p, content) ∈ fixed_files →
     final_fs (run git_host ["--force"; "--no-install"] ready_dir) !! p
     = if (bool_decide (is_Some (ready_dir !! p)) && negb true)%bool
       then ready_dir !! p else Some content)
  ∧ final_fs (run git_host ["--force"; "--no-install"] ready_dir) !! "LICENSE"
    = if (bool_decide (is_Some (ready_dir !! "LICENSE")) && negb true)%bool
      then ready_dir !! "LICENSE"
      else Some (license_head +:+ pretty (year git_host) +:+ " " +:+ "Grace Hopper"
                 +:+ license_tail).
Proof.
  apply (run_leaves_generated_files git_host ["--force"; "--no-install"] ready_dir []
           (mkOpts true true None "npm") "{}" (VObj []) "Grace Hopper"); reflexivity.
Defined.

Lemma parseArgs_pkg_managers raw printed opts :
  parseArgs raw = (printed, inl opts) → pkg opts ∈ managers.
Proof.
  intros Hp. destruct raw as [|a rest]; [done|]. unfold parseArgs in Hp.
  destruct (parse_loop_fields (length (a :: rest)) (a :: rest) initial_opts opts)
    as ([->|?] & _); [done | by rewrite Hp | by left | done].
Qed.

Lemma install_command_name p cmd args :
  install_command p = Some (cmd, args) →
  cmd = p
  ∧ retry_advice p = [Err ("You may retry manually: " +:+ join " " (cmd :: args))].
Proof.
  unfold install_command, retry_advice.
  repeat case_bool_decide; intros Hc; simplify_eq; by split.
Qed.

Lemma install_command_managers p : p ∈ managers → is_Some (install_command p).
Proof.
  unfold managers. rewrite !elem_of_cons.
  intros [->|[->|[->|Hnil]]]; [by eexists.. | by apply elem_of_nil in Hnil].
Qed.

(** X9.  The script calls [process.exit(1)] only for a bad [--pkg]
    argument or a missing manifest, and then it has written nothing: the
    directory is as it was and the trace holds console output only.  (A
    run that ends on an exception leaving [main] is the other outcome,
    [Uncaught], whatever status the platform gives the process then.) *)
Theorem process_exit_1_leaves_directory_untouched h raw files :
  outcome (run h raw files) = inr (Exit 1) →
  final_fs (run h raw files) = files
  ∧ Forall is_console (events (run h raw files))
  ∧ ((∃ printed, parseArgs raw = (printed, inr 1))
     ∨ (files !! pkgPath = None ∧ ∃ printed opts, parseArgs raw = (printed, inl opts))).
Proof.
  unfold outcome, final_fs, events.
  destruct (parseArgs raw) as [printed [opts|code]] eqn:Hparse.
  2: { rewrite (run_parse_exit_eq h raw files printed code Hparse). cbn.
       intros [= ->]. split_and!; [done | by eapply parseArgs_console | left; by eexists]. }
  rewrite (run_stages h raw files printed opts Hparse).
  pose proof (main_manifest_result h (mkState files printed)) as Hm.
  destruct (main_manifest h (mkState files printed)) as [[manifest|x] s2].
  2: { cbn. intros [= ->]. inversion Hm as [Hnone| | |]; subst. cbn in *.
       split_and!; [done | | right; split; [done | by eexists _, _]].
       apply Forall_app. split; [by eapply parseArgs_console | by repeat constructor]. }
  pose proof (main_stub_result h opts s2) as Hs.
  destruct (main_stub h opts s2) as [[[]|x] s3].
  2: { cbn. intros [= ->]. inversion Hs. }
  destruct (main_templates h opts s3) as [[[]|x] s4] eqn:Et.
  2: { cbn. intros [= ->]. unfold main_templates in Et.
       by destruct (for_each_failure h _ _ _ _ _ Et) as (p & _ & _ & ?). }
  pose proof (main_license_result h opts manifest s4) as Hl.
  destruct (main_license h opts manifest s4) as [[[]|x] s5].
  2: { cbn. intros [= ->]. inversion Hl. }
  pose proof (main_install_result h opts s5) as Hi.
  destruct (main_install h opts s5) as [r s6]. cbn. intros ->. inversion Hi.
Qed.

Lemma process_exit_1_leaves_directory_untouched_witness :
  final_fs (run sample_host ["--pkg"; "bun"] sample_dir) = sample_dir
  ∧ Forall is_console (events (run sample_host ["--pkg"; "bun"] sample_dir))
  ∧ ((∃ printed, parseArgs ["--pkg"; "bun"] = (printed, inr 1))
     ∨ (sample_dir !! pkgPath = None
        ∧ ∃ printed opts, parseArgs ["--pkg"; "bun"] = (printed, inl opts))).
Proof. apply process_exit_1_leaves_directory_untouched. reflexivity. Defined.

(** X10.  Once a run has started the installer, the command is the one of
    the selected manager.  If the installer closes with code 0 the run
    reports the installation and ends normally; otherwise it prints the
    failure with the close code, then the advice to retry manually, which
    is word for word the command it ran, and exits with code 2. *)
Theorem installer_outcome h raw files printed opts cmd args :
  parseArgs raw = (printed, inl opts) →
  Spawn cmd args ∈ events (run h raw files) →
  cmd = pkg opts
  ∧ install_command (pkg opts) = Some (cmd, args)
  ∧ (installer_close h cmd args = Some 0 →
     outcome (run h raw files) = inl tt
     ∧ Log "Installed devDependencies." ∈ events (run h raw files))
  ∧ (installer_close h cmd args ≠ Some 0 →
     outcome (run h raw files) = inr (Exit 2)
     ∧ Err (pkg opts +:+ " install failed: " +:+ cmd +:+ " exited "
            +:+ show_code (installer_close h cmd args)) ∈ events (run h raw files)
     ∧ Err ("You may retry manually: " +:+ join " " (cmd :: args))
         ∈ events (run h raw files)).
Proof.
  intros Hparse Hin.
  destruct (no_spawn_before_install h raw files)
    as [(printed' & opts' & manifest & s2 & s3 & s4 & s5 & Hparse' & _ & _ & _ & _
         & Hquiet & Hi)|Hquiet].
  2: { by destruct (not_spawn_elem _ cmd args Hquiet). }
  rewrite Hparse in Hparse'. simplify_eq.
  unfold events, outcome in *. destruct (run h raw files) as [r sf].
  inversion Hi as [Hno|cmd' args' Hno Hcmd Hok|cmd' args' Hno Hcmd Hfail|Hno Hcmd];
    subst; cbn [fst snd out add_events] in *.
  - exfalso. apply elem_of_app in Hin as [Hin|Hin].
    + by destruct (not_spawn_elem _ cmd args Hquiet).
    + apply (not_spawn_elem _ cmd args) in Hin; [done | by repeat constructor].
  - apply elem_of_app in Hin as [Hin|Hin].
    { by destruct (not_spawn_elem _ cmd args Hquiet). }
    assert (cmd = cmd' ∧ args = args') as [-> ->].
    { rewrite !elem_of_cons in Hin.
      destruct Hin as [?|[?|[?|[?|Hnil]]]]; simplify_eq; [done|].
      by apply elem_of_nil in Hnil. }
    destruct (install_command_name _ _ _ Hcmd) as [-> _].
    split_and!; [done | done | | congruence].
    intros _. split; [done|]. apply elem_of_app. right. do 2 right. by left.
  - destruct (install_command_name _ _ _ Hcmd) as [Hname Hretry].
    rewrite Hretry in *.
    apply elem_of_app in Hin as [Hin|Hin].
    { by destruct (not_spawn_elem _ cmd args Hquiet). }
    assert (cmd = cmd' ∧ args = args') as [-> ->].
    { cbn [app] in Hin. rewrite !elem_of_cons in Hin.
      destruct Hin as [?|[?|[?|[?|Hnil]]]]; simplify_eq; [done|].
      by apply elem_of_nil in Hnil. }
    split_and!; [done | done | congruence |].
    intros _. cbn [app]. split_and!; [done | |].
    + apply elem_of_app. right. do 2 right. by left.
    + apply elem_of_app. right. do 3 right. by left.
  - exfalso. apply elem_of_app in Hin as [Hin|Hin].
    + by destruct (not_spawn_elem _ cmd args Hquiet).
    + apply (not_spawn_elem _ cmd args) in Hin; [done | by repeat constructor].
Qed.

Lemma installer_outcome_witness :
  "pnpm" = pkg (mkOpts false false None "pnpm")
  ∧ install_command (pkg (mkOpts false false None "pnpm"))
    = Some ("pnpm", "add" :: "-D" :: devDeps)
  ∧ (installer_close sample_host "pnpm" ("add" :: "-D" :: devDeps) = Some 0 →
     outcome (run sample_host ["-p"; "pnpm"] sample_dir) = inl tt
     ∧ Log "Installed devDependencies." ∈ events (run sample_host ["-p"; "pnpm"] sample_dir))
  ∧ (installer_close sample_host "pnpm" ("add" :: "-D" :: devDeps) ≠ Some 0 →
     outcome (run sample_host ["-p"; "pnpm"] sample_dir) = inr (Exit 2)
     ∧ Err (pkg (mkOpts false false None "pnpm") +:+ " install failed: " +:+ "pnpm"
            +:+ " exited "
            +:+ show_code (installer_close sample_host "pnpm" ("add" :: "-D" :: devDeps)))
         ∈ events (run sample_host ["-p"; "pnpm"] sample_dir)
     ∧ Err ("You may retry manually: " +:+ join " " ("pnpm" :: "add" :: "-D" :: devDeps))
         ∈ events (run sample_host ["-p"; "pnpm"] sample_dir)).
Proof.
  apply (installer_outcome sample_host ["-p"; "pnpm"] sample_dir []); [reflexivity|].
  apply (bool_decide_unpack _). by vm_compute.
Defined.

(** X11.  A run exits with code 2 only after it has started the installer
    of the selected manager and that installer closed with a code other
    than 0. *)
Theorem exit_code_2_means_installer_failed h raw files :
  outcome (run h raw files) = inr (Exit 2) →
  ∃ printed opts args,
    parseArgs raw = (printed, inl opts)
    ∧ noInstall opts = false
    ∧ install_command (pkg opts) = Some (pkg opts, args)
    ∧ Spawn (pkg opts) args ∈ events (run h raw files)
    ∧ installer_close h (pkg opts) args ≠ Some 0.
Proof.
  unfold outcome, events.
  destruct (parseArgs raw) as [printed [opts|code]] eqn:Hparse.
  2: { rewrite (run_parse_exit_eq h raw files printed code Hparse). cbn.
       intros [= ->]. destruct (parseArgs_outcomes_aux raw) as [(o & Ho)|[Ho|(m & Ho)]];
         rewrite Hparse in Ho; simplify_eq. }
  rewrite (run_stages h raw files printed opts Hparse).
  pose proof (main_manifest_result h (mkState files printed)) as Hm.
  destruct (main_manifest h (mkState files printed)) as [[manifest|x] s2].
  2: { cbn. intros [= ->]. inversion Hm. }
  pose proof (main_stub_result h opts s2) as Hs.
  destruct (main_stub h opts s2) as [[[]|x] s3].
  2: { cbn. intros [= ->]. inversion Hs. }
  destruct (main_templates h opts s3) as [[[]|x] s4] eqn:Et.
  2: { cbn. intros [= ->]. unfold main_templates in Et.
       by destruct (for_each_failure h _ _ _ _ _ Et) as (p & _ & _ & ?). }
  pose proof (main_license_result h opts manifest s4) as Hl.
  destruct (main_license h opts manifest s4) as [[[]|x] s5].
  2: { cbn. intros [= ->]. inversion Hl. }
  pose proof (main_install_result h opts s5) as Hi.
  destruct (main_install h opts s5) as [r s6]. cbn. intros ->.
  inversion Hi as [|?|cmd args Hno Hcmd Hfail|Hno Hcmd]; subst.
  - destruct (install_command_name _ _ _ Hcmd) as [-> _].
    exists printed, opts, args. split_and!; try done.
    cbn [out add_events]. apply elem_of_app. right. right. by left.
  - destruct (install_command_managers (pkg opts)) as [c Hc];
      [by eapply parseArgs_pkg_managers | congruence].
Qed.

Lemma exit_code_2_means_installer_failed_witness :
  ∃ printed opts args,
    parseArgs ["--pkg"; "npm"] = (printed, inl opts)
    ∧ noInstall opts = false
    ∧ install_command (pkg opts) = Some (pkg opts, args)
    ∧ Spawn (pkg opts) args ∈ events (run sample_host ["--pkg"; "npm"] sample_dir)
    ∧ installer_close sample_host (pkg opts) args ≠ Some 0.
Proof. apply exit_code_2_means_installer_failed. by vm_compute. Defined.

(** X12.  When a run ends, [package.json] holds either what it held before
    the run, or the serialisation of the merge of what was parsed from it,
    followed by a line feed; and it holds the latter whenever the manifest
    is read, parsed, backed up, merged and written back without error. *)
Theorem manifest_final_content h raw files :
  (final_fs (run h raw files) !! pkgPath = files !! pkgPath
   ∨ ∃ pkgRaw v manifest,
       files !! pkgPath = Some pkgRaw
       ∧ JSON_parse h pkgRaw = Some v
       ∧ merge v = Ok manifest
       ∧ final_fs (run h raw files) !! pkgPath
         = Some (JSON_stringify h manifest +:+ nl))
  ∧ (∀ printed opts pkgRaw v manifest,
       parseArgs raw = (printed, inl opts) →
       files !! pkgPath = Some pkgRaw →
       io_fault h OpRead pkgPath = false →
       JSON_parse h pkgRaw = Some v →
       io_fault h OpWrite (bakPath h) = false →
       merge v = Ok manifest →
       io_fault h OpWrite pkgPath = false →
       final_fs (run h raw files) !! pkgPath
       = Some (JSON_stringify h manifest +:+ nl)).
Proof.
  destruct (run_after_manifest h raw files)
    as [(printed & code & Hparse & Hrun)
       |(printed & opts & x & s2 & Hparse & Hm & _ & Hframe & Hstop)].
  { rewrite Hrun. cbn. split; [by left|]. intros; congruence. }
  rewrite (Hframe pkgPath pkgPath_not_generated).
  inversion Hm as [Hnone
                  |pkgRaw err Hfile Hwhy
                  |pkgRaw v err Hfile Hread Hjson Hbak Hwhy
                  |pkgRaw v manifest Hfile Hread Hjson Hbak Hmerge Hwrite];
    subst; cbn [fs add_events written] in *.
  - split; [by left|]. intros; congruence.
  - split; [by left|]. intros ? ? ? ? ? ? ? ? ? ? ? ?. simplify_eq.
    destruct Hwhy as [?|[?|?]]; congruence.
  - rewrite lookup_insert_ne by apply bakPath_not_manifest.
    split; [by left|]. intros ? ? ? ? ? ? ? ? ? ? ? ?. simplify_eq.
    destruct Hwhy as [?|?]; congruence.
  - rewrite lookup_insert_eq. split.
    + right. by exists pkgRaw, v, manifest.
    + intros ? ? ? ? ? ? ? ? ? ? ? ?. congruence.
Qed.

Example manifest_final_content_sample :
  final_fs (run sample_host ["--no-install"] sample_dir) !! pkgPath
  = Some (JSON_stringify sample_host (VObj (merged_props [])) +:+ nl).
Proof. by vm_compute. Qed.

(** The stub stage when the parent directory cannot be made. *)
Lemma main_stub_mkdir_failure h opts s :
  fs s !! "src/index.js" = None ∨ force opts = true →
  io_fault h OpMkdir "src" = true →
  main_stub h opts s = (inr (Uncaught (IOError OpMkdir "src")), s).
Proof.
  intros Hwhy Hmk. unfold main_stub, mbind, M_bind, existsSync.
  assert ((negb (bool_decide (is_Some (fs s !! "src/index.js"))) || force opts)%bool
          = true) as ->.
  { destruct Hwhy as [-> | ->]; [|by rewrite orb_true_r].
    by rewrite bool_decide_eq_false_2 by (by intros [? ?]). }
  unfold mkdir. by rewrite Hmk.
Qed.

(** X13.  Unlike in [safeWrite], a failure to make the [src] directory is
    not swallowed: when the stub is to be written and [mkdir] fails, the
    run ends on that error.  The manifest has been rewritten by then, and
    none of the generated files has been touched. *)
Theorem stub_mkdir_failure_ends_run h raw files printed opts pkgRaw v manifest :
  parseArgs raw = (printed, inl opts) →
  files !! pkgPath = Some pkgRaw →
  io_fault h OpRead pkgPath = false →
  JSON_parse h pkgRaw = Some v →
  io_fault h OpWrite (bakPath h) = false →
  merge v = Ok manifest →
  io_fault h OpWrite pkgPath = false →
  files !! "src/index.js" = None ∨ force opts = true →
  io_fault h OpMkdir "src" = true →
  outcome (run h raw files) = inr (Uncaught (IOError OpMkdir "src"))
  ∧ final_fs (run h raw files) !! pkgPath = Some (JSON_stringify h manifest +:+ nl)
  ∧ (∀ p, p ∈ generated_files → final_fs (run h raw files) !! p = files !! p).
Proof.
  intros Hparse Hfile Hread Hjson Hbak Hmerge Hw Hwhy Hmk.
  rewrite (run_stages h raw files printed opts Hparse).
  rewrite (main_manifest_eq h (mkState files printed) pkgRaw Hfile Hread).
  rewrite Hjson, Hbak. cbv zeta. rewrite Hmerge, Hw.
  rewrite main_stub_mkdir_failure; [|cbn [fs add_events written]|done].
  - cbn. split_and!; [done | by rewrite lookup_insert_eq |].
    intros p Hp. destruct (generated_not_manifest h p Hp).
    by rewrite !lookup_insert_ne.
  - rewrite !lookup_insert_ne; [done | |].
    + intros Heq. by apply (bakPath_not_stub h).
    + done.
Qed.

Lemma stub_mkdir_failure_ends_run_witness :
  let h := mkHost "/home/dev/app" 1700000000000 2026
             (λ op p, bool_decide (op = OpMkdir))
             sample_parse (λ _, "{}") (λ _, "0") None (λ _ _, Some 0) in
  outcome (run h ["--no-install"] sample_dir) = inr (Uncaught (IOError OpMkdir "src"))
  ∧ final_fs (run h ["--no-install"] sample_dir) !! pkgPath
    = Some (JSON_stringify h (VObj (merged_props [])) +:+ nl)
  ∧ (∀ p, p ∈ generated_files →
          final_fs (run h ["--no-install"] sample_dir) !! p = sample_dir !! p).
Proof.
  cbv zeta.
  apply (stub_mkdir_failure_ends_run _ ["--no-install"] sample_dir []
           (mkOpts true false None "npm") "{}" (VObj [])); try reflexivity.
  by left.
Defined.

Lemma not_exec_elem l cmd : Forall not_exec l → ExecSync cmd ∉ l.
Proof. rewrite Forall_forall. intros Hall Hin. by apply (Hall _ Hin). Qed.

Lemma manifest_no_exec h s r s' :
  manifest_result h s (r, s') → Forall not_exec (out s) → Forall not_exec (out s').
Proof.
  intros Hres Hinv. inversion Hres; subst; cbn [out add_events written];
    rewrite ?Forall_app; split_and?; try done; by repeat constructor.
Qed.

Lemma stub_no_exec h opts s r s' :
  stub_result h opts s (r, s') → Forall not_exec (out s) → Forall not_exec (out s').
Proof.
  intros Hres Hinv. inversion Hres; subst; cbn [out add_events written];
    rewrite ?Forall_app; split_and?; try done; by repeat constructor.
Qed.

Lemma templates_no_exec h opts s r s' :
  templates_result h opts s (r, s') → Forall not_exec (out s) → Forall not_exec (out s').
Proof.
  intros (delta & Hout & Hev & _) Hinv. cbn [snd] in Hout. rewrite Hout.
  apply Forall_app. split; [done|].
  eapply Forall_impl; [done|]. by intros [].
Qed.

Lemma install_exec h opts s r s' cmd :
  install_result h opts s (r, s') → ExecSync cmd ∈ out s' → ExecSync cmd ∈ out s.
Proof.
  intros Hres Hin. inversion Hres; subst; cbn [out add_events] in Hin;
    apply elem_of_app in Hin as [Hin|Hin]; try done; exfalso.
  - apply (not_exec_elem _ cmd) in Hin; [done | by repeat constructor].
  - apply (not_exec_elem _ cmd) in Hin; [done | by repeat constructor].
  - apply (not_exec_elem _ cmd) in Hin; [done|].
    repeat constructor. unfold retry_advice. repeat case_bool_decide; by repeat constructor.
  - apply (not_exec_elem _ cmd) in Hin; [done | by repeat constructor].
Qed.

(** When the LICENSE stage queries git: no author name came with the
    arguments, the LICENSE is to be written, and the manifest has no
    truthy author. *)
Lemma license_exec h opts manifest s r s' cmd :
  license_result h opts manifest s (r, s') →
  Forall not_exec (out s) →
  ExecSync cmd ∈ out s' →
  cmd = "git config --get user.name"
  ∧ no_flag opts
  ∧ (fs s !! "LICENSE" = None ∨ force opts = true)
  ∧ ∃ author, get_prop manifest "author" = Ok author ∧ truthy author = false.
Proof.
  intros Hres Hinv Hin.
  assert (∀ x s1, author_result h opts manifest s (x, s1) →
                  ExecSync cmd ∈ out s1 →
                  cmd = "git config --get user.name"
                  ∧ no_flag opts
                  ∧ ∃ author, get_prop manifest "author" = Ok author
                              ∧ truthy author = false) as Hauthor.
  { intros x s1 Ha Hin1. inversion Ha; subst; cbn [out add_events] in Hin1;
      try (by destruct (not_exec_elem _ cmd Hinv)).
    apply elem_of_app in Hin1 as [Hin1|Hin1];
      [by destruct (not_exec_elem _ cmd Hinv)|].
    apply list_elem_of_singleton in Hin1. injection Hin1 as ->. eauto. }
  inversion Hres as [Hsome Hforce
                    |err s1 Hwhy Ha
                    |who err s1 Hwhy Ha Htext
                    |who text err s1 Hwhy Ha Htext Hw
                    |who text s1 Hwhy Ha Htext Hw]; subst.
  - cbn [out add_events] in Hin. apply elem_of_app in Hin as [Hin|Hin].
    + by destruct (not_exec_elem _ cmd Hinv).
    + apply (not_exec_elem _ cmd) in Hin; [done | by repeat constructor].
  - destruct (Hauthor _ _ Ha Hin) as (? & ? & ?). by split_and!.
  - destruct (Hauthor _ _ Ha Hin) as (? & ? & ?). by split_and!.
  - destruct (Hauthor _ _ Ha Hin) as (? & ? & ?). by split_and!.
  - cbn [out add_events written] in Hin.
    apply elem_of_app in Hin as [Hin|Hin].
    2: { apply (not_exec_elem _ cmd) in Hin; [done | by repeat constructor]. }
    apply elem_of_app in Hin as [Hin|Hin].
    2: { apply (not_exec_elem _ cmd) in Hin; [done | by repeat constructor]. }
    destruct (Hauthor _ _ Ha Hin) as (? & ? & ?). by split_and!.
Qed.

(** X14.  A run starts a synchronous child process only to ask git for the
    user name, and only when the name is needed and not given: the
    arguments set no author name, the LICENSE is missing or [--force] is
    set, and the manifest has no truthy [author]. *)
Theorem git_is_asked_only_when_needed h raw files cmd :
  ExecSync cmd ∈ events (run h raw files) →
  cmd = "git config --get user.name"
  ∧ ∃ printed opts pkgRaw v author,
      parseArgs raw = (printed, inl opts)
      ∧ name opts = None
      ∧ (files !! "LICENSE" = None ∨ force opts = true)
      ∧ files !! pkgPath = Some pkgRaw
      ∧ JSON_parse h pkgRaw = Some v
      ∧ get_prop v "author" = Ok author
      ∧ truthy author = false.
Proof.
  unfold events.
  assert (∀ printed r, parseArgs raw = (printed, r) → Forall not_exec printed)
    as Hprinted.
  { intros printed r Hp. pose proof (parseArgs_console _ _ _ Hp) as Hc.
    eapply Forall_impl; [done|]. by intros []. }
  assert (∀ printed opts manifest s2 s3 s4 r s5,
            parseArgs raw = (printed, inl opts) →
            manifest_result h (mkState files printed) (inl manifest, s2) →
            stub_result h opts s2 (inl tt, s3) →
            templates_result h opts s3 (inl tt, s4) →
            license_result h opts manifest s4 (r, s5) →
            ExecSync cmd ∈ out s5 →
            cmd = "git config --get user.name"
            ∧ ∃ printed opts pkgRaw v author,
                parseArgs raw = (printed, inl opts)
                ∧ name opts = None
                ∧ (files !! "LICENSE" = None ∨ force opts = true)
                ∧ files !! pkgPath = Some pkgRaw
                ∧ JSON_parse h pkgRaw = Some v
                ∧ get_prop v "author" = Ok author
                ∧ truthy author = false) as Hlicense.
  { intros printed opts manifest s2 s3 s4 r s5 Hparse Hm Hs Ht Hl Hin.
    assert (Forall not_exec (out s4)) as Hquiet.
    { eapply templates_no_exec; [done|]. eapply stub_no_exec; [done|].
      eapply manifest_no_exec; [done|]. by eapply (Hprinted printed). }
    destruct (license_exec h _ _ _ _ _ cmd Hl Hquiet Hin)
      as (-> & Hflag & Hwhy & author & Hget & Hfalsy).
    split; [done|].
    assert (fs s4 !! "LICENSE" = files !! "LICENSE") as H4.
    { destruct (manifest_frame h _ _ _ Hm) as (_ & Hf2).
      destruct (stub_frame h _ _ _ _ Hs) as (_ & Hf3 & _).
      destruct (templates_frame h _ _ _ _ Ht) as (_ & Hf4).
      rewrite Hf4, Hf3, Hf2; try done.
      apply (bool_decide_unpack _). by vm_compute. }
    rewrite H4 in Hwhy.
    inversion Hm as [| | |pkgRaw v ? Hfile Hread Hjson Hbak Hmerge Hw]; subst.
    cbn [fs] in Hfile.
    exists printed, opts, pkgRaw, v, author. split_and!; try done.
    - destruct (name opts) as [n|] eqn:Hn; [|done].
      pose proof (parseArgs_name raw printed opts n Hparse Hn) as Hne.
      by rewrite (Hflag n) in Hne.
    - by rewrite <- (merge_author v manifest). }
  destruct (run_result_spec h raw files)
    as [printed code Hparse
       |printed opts x s2 Hparse Hm
       |printed opts manifest s2 x s3 Hparse Hm Hs
       |printed opts manifest s2 s3 x s4 Hparse Hm Hs Ht
       |printed opts manifest s2 s3 s4 x s5 Hparse Hm Hs Ht Hl
       |printed opts manifest s2 s3 s4 s5 [r s6] Hparse Hm Hs Ht Hl Hi];
    cbn [snd out]; intros Hin.
  - by destruct (not_exec_elem printed cmd (Hprinted _ _ Hparse)).
  - exfalso. eapply (not_exec_elem (out s2) cmd); [|done].
    eapply manifest_no_exec; [done|]. by eapply (Hprinted printed).
  - exfalso. eapply (not_exec_elem (out s3) cmd); [|done].
    eapply stub_no_exec; [done|].
    eapply manifest_no_exec; [done|]. by eapply (Hprinted printed).
  - exfalso. eapply (not_exec_elem (out s4) cmd); [|done].
    eapply templates_no_exec; [done|]. eapply stub_no_exec; [done|].
    eapply manifest_no_exec; [done|]. by eapply (Hprinted printed).
  - by eapply Hlicense.
  - eapply Hlicense; try done. by eapply install_exec.
Qed.

Lemma git_is_asked_only_when_needed_witness :
  "git config --get user.name" = "git config --get user.name"
  ∧ ∃ printed opts pkgRaw v author,
      parseArgs ["--no-install"] = (printed, inl opts)
      ∧ name opts = None
      ∧ (sample_dir !! "LICENSE" = None ∨ force opts = true)
      ∧ sample_dir !! pkgPath = Some pkgRaw
      ∧ JSON_parse sample_host pkgRaw = Some v
      ∧ get_prop v "author" = Ok author
      ∧ truthy author = false.
Proof.
  apply (git_is_asked_only_when_needed sample_host ["--no-install"] sample_dir).
  apply (bool_decide_unpack _). by vm_compute.
Defined.
